(** * FocusFlow: timer state machine, exclusion matcher and session log

    A shallow embedding of the FocusFlow browser extension
    (background.js, home.js) and the properties its specification states.

    Conventions.
    - A JavaScript string is a [string]: a sequence of code units in the
      range 0-255 (ASCII and Latin-1).  Code units above 255 are outside
      the model.
    - [chrome.storage.local] is a finite map from key names to values.
    - A function that can throw returns an [option]: [None] is the
      exception. *)

From Stdlib Require Import ZArith Lia Bool Ascii String DecimalString DecimalZ.
From stdpp Require Import gmap strings list pretty sorting.

Local Open Scope bool_scope.

(* ===================================================================== *)
(** * JavaScript string primitives *)
(* ===================================================================== *)

Module Js.

(** Character constants. *)
Definition LF : ascii := ascii_of_nat 10.
Definition CR : ascii := ascii_of_nat 13.

(** [c1 == c2] on code units. *)
Definition ceq (a b : ascii) : bool := Ascii.eqb a b.

(** [s.startsWith(p)] *)
Fixpoint startsWith (s p : string) : bool :=
  match p with
  | EmptyString => true
  | String a p' =>
      match s with
      | EmptyString => false
      | String b s' => ceq a b && startsWith s' p'
      end
  end.

(** [s.includes(needle)]: [needle] occurs at some index of [s]. *)
Fixpoint includes (s needle : string) : bool :=
  startsWith s needle ||
  match s with
  | EmptyString => false
  | String _ s' => includes s' needle
  end.

(** [s.length] *)
Fixpoint len (s : string) : nat :=
  match s with
  | EmptyString => 0
  | String _ s' => S (len s')
  end.

(** Membership in a set of code units given as a string. *)
Fixpoint oneOf (set : string) (c : ascii) : bool :=
  match set with
  | EmptyString => false
  | String a set' => ceq a c || oneOf set' c
  end.

(** ECMAScript WhiteSpace and LineTerminator code units below 256: TAB,
    LF, VT, FF, CR, SPACE and NBSP.  This is the set that [trim] strips
    and that the class [\s] matches. *)
Definition isWhiteSpace (c : ascii) : bool :=
  let n := N_of_ascii c in
  ((9 <=? n) && (n <=? 13) || (n =? 32) || (n =? 160))%N.

(** LineTerminator code units below 256 (U+2028 and U+2029 are outside
    the model): the characters that [.] does not match. *)
Definition isLineTerminator (c : ascii) : bool := ceq c LF || ceq c CR.

(** [s.length === 0] *)
Definition isEmpty (s : string) : bool :=
  match s with
  | EmptyString => true
  | String _ _ => false
  end.

(** [s.trimStart()], [s.trimEnd()] and [s.trim()] *)
Fixpoint trimStart (s : string) : string :=
  match s with
  | EmptyString => EmptyString
  | String c s' => if isWhiteSpace c then trimStart s' else s
  end.

Fixpoint trimEnd (s : string) : string :=
  match s with
  | EmptyString => EmptyString
  | String c s' =>
      let r := trimEnd s' in
      if isWhiteSpace c && isEmpty r then EmptyString else String c r
  end.

Definition trim (s : string) : string := trimEnd (trimStart s).

(** [s.split("\n")]: the pieces between line feeds; one piece, the empty
    string, for the empty string. *)
Fixpoint splitLines (s : string) : list string :=
  match s with
  | EmptyString => [EmptyString]
  | String c s' =>
      if ceq c LF then EmptyString :: splitLines s'
      else match splitLines s' with
           | [] => [String c EmptyString]
           | piece :: pieces => String c piece :: pieces
           end
  end.

(** [pieces.join(sep)] for a one-character separator. *)
Fixpoint joinWith (sep : ascii) (pieces : list string) : string :=
  match pieces with
  | [] => EmptyString
  | [piece] => piece
  | piece :: more => piece +:+ String sep (joinWith sep more)
  end.

(** [s.split(/\s+/)]: the pieces between maximal runs of white space.
    [sep] says that the previous character was white space, so that a
    run of white space separates only once. *)
Fixpoint splitSpaces_go (sep : bool) (s : string) : list string :=
  match s with
  | EmptyString => [EmptyString]
  | String c s' =>
      if isWhiteSpace c then
        if sep then splitSpaces_go true s'
        else EmptyString :: splitSpaces_go true s'
      else match splitSpaces_go false s' with
           | [] => [String c EmptyString]
           | piece :: pieces => String c piece :: pieces
           end
  end.

Definition splitSpaces (s : string) : list string := splitSpaces_go false s.

(** [String(n).padStart(2, "0")] for a non-negative integer. *)
Definition pad2 (n : Z) : string :=
  let digits := pretty n in
  if (len digits <? 2)%nat then "0" +:+ digits else digits.

End Js.

(* ===================================================================== *)
(** * Exclusion matcher (background.js) *)
(* ===================================================================== *)

Module Matcher.
Import Js.

(** ** The regular expressions [wildcardToRegex] can build

    Only the fragment of the RegExp grammar that the constructed sources
    use is modelled: the assertions [^] and [$], a pattern character, an
    identity escape of a syntax character, the atom [.], and the greedy
    quantifier [*] on an atom.  Any other construct makes [parsePattern]
    return [None]. *)

Inductive atom : Type :=
  | AChar (c : ascii)     (* a pattern character or identity escape *)
  | ADot.                 (* [.] *)

Inductive term : Type :=
  | TBol                  (* [^] *)
  | TEol                  (* [$] *)
  | TAtom (a : atom)
  | TStar (a : atom).     (* [a*] *)

Definition regex : Type := list term.

(** The characters of the class [[.+?^${}()|[\]\\]] of [wildcardToRegex]. *)
Definition escapedSet : string := ".+?^${}()|[]\".

Definition isEscaped (c : ascii) : bool := oneOf escapedSet c.

(** SyntaxCharacter of the RegExp grammar: [^$\.*+?()[]{}|]. *)
Definition isSyntaxCharacter (c : ascii) : bool :=
  ceq c "*" || isEscaped c.

(** [wildcard.replace(/[.+?^${}()|[\]\\]/g, "\\$&")] *)
Fixpoint escapeMeta (s : string) : string :=
  match s with
  | EmptyString => EmptyString
  | String c s' =>
      if isEscaped c then String "\" (String c (escapeMeta s'))
      else String c (escapeMeta s')
  end.

(** [escaped.replace(/\*/g, ".*")] *)
Fixpoint replaceStar (s : string) : string :=
  match s with
  | EmptyString => EmptyString
  | String c s' =>
      if ceq c "*" then String "." (String "*" (replaceStar s'))
      else String c (replaceStar s')
  end.

(** [new RegExp(source)]: the parse of a pattern source, [None] for a
    SyntaxError or a construct outside the modelled fragment. *)
Fixpoint parsePattern (s : string) : option (list term) :=
  match s with
  | EmptyString => Some []
  | String c s1 =>
      if ceq c "^" then cons TBol <$> parsePattern s1
      else if ceq c "$" then cons TEol <$> parsePattern s1
      else if ceq c "\" then
        match s1 with
        | EmptyString => None
        | String e s2 =>
            if isSyntaxCharacter e then
              match s2 with
              | EmptyString => Some [TAtom (AChar e)]
              | String q s3 =>
                  if ceq q "*" then cons (TStar (AChar e)) <$> parsePattern s3
                  else cons (TAtom (AChar e)) <$> parsePattern s2
              end
            else None
        end
      else
        let a := if ceq c "." then Some ADot
                 else if isSyntaxCharacter c then None
                 else Some (AChar c) in
        match a with
        | None => None
        | Some a =>
            match s1 with
            | EmptyString => Some [TAtom a]
            | String q s2 =>
                if ceq q "*" then cons (TStar a) <$> parsePattern s2
                else cons (TAtom a) <$> parsePattern s1
            end
        end
  end.

(** Canonicalize of the RegExp semantics under the [i] flag: the code
    unit's upper case.  On code units below 256 this maps a-z and the
    Latin-1 letters 224-254 (except the division sign 247) 32 places down;
    a code unit whose upper case is longer than one unit or lies outside
    the range is only ever equal to itself and is kept. *)
Definition canonicalize (c : ascii) : ascii :=
  let n := N_of_ascii c in
  if ((97 <=? n) && (n <=? 122) ||
      (224 <=? n) && (n <=? 254) && negb (n =? 247))%N
  then ascii_of_N (n - 32) else c.

Definition atomMatches (a : atom) (c : ascii) : bool :=
  match a with
  | AChar p => ceq (canonicalize p) (canonicalize c)
  | ADot => negb (isLineTerminator c)
  end.

(** The backtracking matcher.  [i] is the index reached in the input and
    [rest] the input from [i] on.  The star is greedy: it first tries to
    take one more character and falls back to its continuation [k]. *)
Fixpoint matchStar (a : atom) (k : nat → string → bool)
    (i : nat) (rest : string) : bool :=
  match rest with
  | EmptyString => k i rest
  | String c rest' =>
      (atomMatches a c && matchStar a k (S i) rest') || k i rest
  end.

Fixpoint matchTerms (ts : list term) (i : nat) (rest : string) : bool :=
  match ts with
  | [] => true
  | TBol :: ts' => (i =? 0)%nat && matchTerms ts' i rest
  | TEol :: ts' =>
      match rest with
      | EmptyString => matchTerms ts' i rest
      | String _ _ => false
      end
  | TAtom a :: ts' =>
      match rest with
      | EmptyString => false
      | String c rest' => atomMatches a c && matchTerms ts' (S i) rest'
      end
  | TStar a :: ts' => matchStar a (matchTerms ts') i rest
  end.

(** [regex.test(s)] for a regex without the [g] and [y] flags: the match
    is attempted at every start index from 0 to the length of the input. *)
Fixpoint execFrom (r : regex) (i : nat) (rest : string) : bool :=
  matchTerms r i rest ||
  match rest with
  | EmptyString => false
  | String _ rest' => execFrom r (S i) rest'
  end.

Definition test (r : regex) (s : string) : bool := execFrom r 0 s.

(** [wildcardToRegex(wildcard)] *)
Definition regexString (wildcard : string) : string :=
  replaceStar (escapeMeta wildcard).

Definition wildcardToRegex (wildcard : string) : option regex :=
  parsePattern ("^" +:+ regexString wildcard +:+ "$").

(** ** [isUrlBlockable(url, excludedUrls)]

    [runtime_id] is [chrome.runtime.id], the identifier the browser gave
    the extension. *)

Definition isChromeInternal (url : string) : bool :=
  startsWith url "chrome://".
Definition isExtensionPage (runtime_id url : string) : bool :=
  includes url runtime_id.
Definition isNewTabPage (url : string) : bool :=
  String.eqb url "chrome://newtab/".
Definition isWebPage (url : string) : bool :=
  startsWith url "http://" || startsWith url "https://".

(** The [for ... of] loop over the exclusion list. *)
Fixpoint checkExclusions (url : string) (excludedUrls : list string)
    : option bool :=
  match excludedUrls with
  | [] => Some true
  | wildcard :: more =>
      match wildcardToRegex wildcard with
      | None => None
      | Some regex =>
          if test regex url then Some false
          else checkExclusions url more
      end
  end.

Definition isUrlBlockable (runtime_id url : string)
    (excludedUrls : list string) : option bool :=
  if isChromeInternal url || isExtensionPage runtime_id url
     || isNewTabPage url || negb (isWebPage url)
  then Some false
  else checkExclusions url excludedUrls.

(** ** Glob semantics, as the specification words it

    A pattern is read left to right: [*] stands for a sequence of
    characters, every other character stands for itself up to letter
    case, and the pattern must account for the whole URL.  [wild] says
    which characters a [*] may stand for. *)

Definition sameLetter (c d : ascii) : Prop := canonicalize c = canonicalize d.

Fixpoint allChars (P : ascii → Prop) (s : string) : Prop :=
  match s with
  | EmptyString => True
  | String c s' => P c ∧ allChars P s'
  end.

Inductive Glob (wild : ascii → Prop) : string → string → Prop :=
  | Glob_nil : Glob wild EmptyString EmptyString
  | Glob_star p t u :
      allChars wild t → Glob wild p u →
      Glob wild (String "*" p) (t +:+ u)
  | Glob_char c d p u :
      c ≠ "*"%char → sameLetter c d → Glob wild p u →
      Glob wild (String c p) (String d u).

(** [*] standing for any sequence at all. *)
Definition GlobAny : string → string → Prop := Glob (λ _, True).
(** [*] standing for any sequence within one line. *)
Definition GlobLine : string → string → Prop :=
  Glob (λ c, isLineTerminator c = false).

End Matcher.

(* ===================================================================== *)
(** * Values, the key-value store and the host platform *)
(* ===================================================================== *)

Module Store.
Import Js.

(** The values the extension keeps in [chrome.storage.local] and in log
    entries.  [undefined] is the absence of a value ([None]); numbers are
    integers. *)
Inductive value : Type :=
  | VNull
  | VNum (n : Z)
  | VStr (s : string)
  | VList (l : list string).

#[global] Instance value_eq_dec : EqDecision value.
Proof. solve_decision. Defined.

(** ToBoolean *)
Definition truthy (v : option value) : bool :=
  match v with
  | None | Some VNull => false
  | Some (VNum n) => negb (n =? 0)%Z
  | Some (VStr s) => negb (isEmpty s)
  | Some (VList _) => true
  end.

(** ToString; an integer prints in decimal. *)
Definition toString (v : value) : string :=
  match v with
  | VNull => "null"
  | VNum n => pretty n
  | VStr s => s
  | VList l => joinWith "," l
  end.

(** [v || ""] followed by the conversion a DOM [value] setter applies. *)
Definition textOr (v : option value) : string :=
  if truthy v then from_option toString EmptyString v else EmptyString.

(** [a === b] for a value that may be [undefined]. *)
Definition strictEq (a b : option value) : bool := bool_decide (a = b).

(** The keys of [chrome.storage.local] ([STORAGE_KEYS]). *)
Module STORAGE_KEYS.
Definition TIMER_STATE : string := "timerState".
Definition END_TIME : string := "endTime".
Definition DURATION : string := "duration".
Definition SESSION_ID : string := "sessionId".
Definition CURRENT_SUMMARY : string := "currentSummary".
Definition CURRENT_NOTE : string := "currentNote".
End STORAGE_KEYS.

(** The phases of the timer ([TIMER_STATE]). *)
Module TIMER_STATE.
Definition START : string := "start".
Definition RUNNING : string := "running".
Definition END : string := "end".
End TIMER_STATE.

Definition MIN_SUMMARY_WORDS : nat := 50.

(** [chrome.storage.local.set(items)]: each key of [items] is written,
    every other key is kept. *)
Definition setItems (items : list (string * value))
    (st : gmap string value) : gmap string value :=
  foldl (λ m kv, <[kv.1 := kv.2]> m) st items.

(** [chrome.storage.local.get(keys)]: the stored entries of the keys
    asked for. *)
Definition getItems (keys : list string)
    (st : gmap string value) : gmap string value :=
  filter (λ kv, kv.1 ∈ keys) st.

(** One entry of the [changes] object of [chrome.storage.onChanged]. *)
Record change : Type := { oldValue : option value; newValue : option value }.

(** ** Objects: log entries *)

(** A plain object whose properties hold values, in property order. *)
Abbreviation object := (list (string * value)).

(** [obj[key]] *)
Fixpoint getProp (key : string) (obj : object) : option value :=
  match obj with
  | [] => None
  | (k, v) :: more => if String.eqb k key then Some v else getProp key more
  end.

(** [obj[key] = v]: an existing property keeps its place, a new one goes
    last. *)
Fixpoint setProp (key : string) (v : value) (obj : object) : object :=
  match obj with
  | [] => [(key, v)]
  | (k, w) :: more =>
      if String.eqb k key then (k, v) :: more
      else (k, w) :: setProp key v more
  end.

(** An object literal some of whose values may be [undefined].
    [JSON.stringify], the only reader of such a literal here, skips the
    undefined properties. *)
Definition literal (props : list (string * option value)) : object :=
  omap (λ kv, pair kv.1 <$> kv.2) props.

(** A property name made of digits.  JavaScript keeps a property whose
    name is an array index ahead of the others, whatever the order they
    were added in; the property order of this model holds for objects
    without such names. *)
Fixpoint allDigits (s : string) : bool :=
  match s with
  | EmptyString => true
  | String c s' => oneOf "0123456789" c && allDigits s'
  end.

Definition isIndexLike (key : string) : bool :=
  negb (isEmpty key) && allDigits key.

(** An object has each property once, and no property named by digits. *)
Definition wfObject (obj : object) : Prop :=
  NoDup obj.*1 ∧ Forall (λ key, isIndexLike key = false) obj.*1.

#[global] Instance wfObject_dec obj : Decision (wfObject obj).
Proof. unfold wfObject. apply _. Defined.

(** ** Time values *)

(** The range of a valid time value, in milliseconds. *)
Definition maxTime : Z := 8640000000000000.
Definition validTime (t : Z) : Prop := (- maxTime <= t <= maxTime)%Z.

(** TimeClip: [None] is NaN, the time value of an Invalid Date. *)
Definition TimeClip (t : Z) : option Z :=
  if ((- maxTime <=? t) && (t <=? maxTime))%Z then Some t else None.

(** ** The host platform

    The built-ins whose results the extension stores or reads back
    ([Platform]), and the laws of theirs that the proofs rely on
    ([PlatformLaws]):
    - [Date.parse] returns a valid time value or NaN, and reads back what
      [toISOString] prints;
    - [randomUUID n] is the [n]-th identifier that [crypto.randomUUID]
      hands out, and no identifier is handed out twice;
    - [JSON.parse] reads back what [JSON.stringify] prints for an object,
      which is one line of text between braces.

    [JSON_parse] stands for [JSON.parse] on a line that holds an object
    or that is rejected ([None]).  A line that holds another JSON value
    ([null], a number, a string, an array) is outside the model: the
    statements on reading a log are made for files whose lines open with
    a brace. *)
Class Platform : Type := {
  Date_parse : string → option Z;
  Date_toISOString : Z → string;
  String_toNumber : string → option Z;
  randomUUID : nat → string;
  JSON_stringify : object → string;
  JSON_parse : string → option object;
}.

Class PlatformLaws (P : Platform) : Prop := {
  Date_parse_valid : ∀ s t, Date_parse s = Some t → validTime t;
  Date_parse_toISOString :
    ∀ t, validTime t → Date_parse (Date_toISOString t) = Some t;
  randomUUID_inj : ∀ m n, randomUUID m = randomUUID n → m = n;
  JSON_parse_stringify :
    ∀ obj, wfObject obj → JSON_parse (JSON_stringify obj) = Some obj;
  JSON_stringify_braces :
    ∀ obj, ∃ body, JSON_stringify obj = String "{" (body +:+ "}");
  JSON_stringify_line :
    ∀ obj, includes (JSON_stringify obj) (String LF EmptyString) = false;
}.

Section Conversions.
Context {P : Platform}.

(** ToNumber; [None] is NaN. *)
Definition toNumber (v : option value) : option Z :=
  match v with
  | None => None
  | Some VNull => Some 0%Z
  | Some (VNum n) => Some n
  | Some (VStr s) => String_toNumber s
  | Some (VList l) => String_toNumber (joinWith "," l)
  end.

(** [new Date(v).getTime()]; [None] is NaN. *)
Definition newDate (v : option value) : option Z :=
  match v with
  | None => None
  | Some VNull => Some 0%Z
  | Some (VNum n) => TimeClip n
  | Some (VStr s) => Date_parse s
  | Some (VList l) => Date_parse (joinWith "," l)
  end.

(** [date.toISOString()]; [None] is the RangeError of an Invalid Date. *)
Definition toISOString (t : option Z) : option string :=
  Date_toISOString <$> t.

End Conversions.

End Store.

(* ===================================================================== *)
(** * The browser environment and a home page instance *)
(* ===================================================================== *)

(** Each handler of the extension is a function on the state of the page
    it runs in ([Home]) and the state every context shares ([Env]).  A
    callback passed to [chrome.storage.local.set] or [get] runs as soon as
    the call it was passed to has taken effect, before any other handler;
    what the browser delivers later (a storage notification, the tick of
    an interval, a debounce timer running out) is a handler of its own,
    applied in whatever order the run under study has them. *)

Module Model.
Import Js Store.

(** The state of a File System Access permission. *)
Inductive Permission : Type := granted | prompt | denied.

(** The capability to the log file. *)
Inductive FileHandle : Type := LogFile.

(** What the log container of the page shows. *)
Inductive LogView : Type :=
  | LogCleared                        (* [innerHTML = ""] *)
  | LogNoFile                         (* no file bound yet *)
  | LogNoEntries                      (* "No entries logged yet." *)
  | LogGrantButton                    (* the grant-permission button *)
  | LogEntries (entries : list object).

(** The [hidden] class of the four sections of the page. *)
Record Sections : Type := {
  startHidden : bool;
  runningHidden : bool;
  endHidden : bool;
  summaryHidden : bool;
}.

(** The error region. *)
Record ErrorBox : Type := {
  errorHidden : bool;
  errorMessage : string;
}.

(** What every context of the extension shares: the store with the trace
    of its [set] calls, the messages sent to the background, the clock,
    the log file and its permissions, and the choices the user will make
    in a file picker or a permission prompt ([pickerChoice] is the
    content of the file picked, [None] when the picker is dismissed). *)
Record Env : Type := {
  storage : gmap string value;
  setCalls : list (list (string * value));
  messages : list string;
  notifications : list string;
  clock : Z;
  uuidsDrawn : nat;
  file : option string;
  fileWrites : list string;
  readPermission : Permission;
  writePermission : Permission;
  savedHandle : option FileHandle;
  pickerChoice : option string;
  userGrants : bool;
}.

(** One open home page: its DOM, the fields of [FocusFlowHome], the
    pending debounced writes and the interval timers of the page (each
    with the end time its tick closure captured). *)
Record Home : Type := {
  sections : Sections;
  timerDisplay : string;
  summaryInput : string;
  wordCounter : string;
  submitLogDisabled : bool;
  noteInput : string;
  pomoLog : LogView;
  errorBox : ErrorBox;
  countdownInterval : option nat;
  fileHandle : option FileHandle;
  summarySync : option string;
  noteSync : option string;
  intervals : gmap nat Z;
  nextTimerId : nat;
}.

Definition set_storage (v : gmap string value) (r : Env) : Env :=
  {| storage := v; setCalls := setCalls r; messages := messages r;
     notifications := notifications r; clock := clock r; uuidsDrawn :=
     uuidsDrawn r; file := file r; fileWrites := fileWrites r; readPermission
     := readPermission r; writePermission := writePermission r; savedHandle :=
     savedHandle r; pickerChoice := pickerChoice r; userGrants := userGrants r
     |}.
Definition set_setCalls (v : list (list (string * value))) (r : Env) : Env :=
  {| storage := storage r; setCalls := v; messages := messages r;
     notifications := notifications r; clock := clock r; uuidsDrawn :=
     uuidsDrawn r; file := file r; fileWrites := fileWrites r; readPermission
     := readPermission r; writePermission := writePermission r; savedHandle :=
     savedHandle r; pickerChoice := pickerChoice r; userGrants := userGrants r
     |}.
Definition set_messages (v : list string) (r : Env) : Env :=
  {| storage := storage r; setCalls := setCalls r; messages := v;
     notifications := notifications r; clock := clock r; uuidsDrawn :=
     uuidsDrawn r; file := file r; fileWrites := fileWrites r; readPermission
     := readPermission r; writePermission := writePermission r; savedHandle :=
     savedHandle r; pickerChoice := pickerChoice r; userGrants := userGrants r
     |}.
Definition set_notifications (v : list string) (r : Env) : Env :=
  {| storage := storage r; setCalls := setCalls r; messages := messages r;
     notifications := v; clock := clock r; uuidsDrawn := uuidsDrawn r; file :=
     file r; fileWrites := fileWrites r; readPermission := readPermission r;
     writePermission := writePermission r; savedHandle := savedHandle r;
     pickerChoice := pickerChoice r; userGrants := userGrants r |}.
Definition set_clock (v : Z) (r : Env) : Env :=
  {| storage := storage r; setCalls := setCalls r; messages := messages r;
     notifications := notifications r; clock := v; uuidsDrawn := uuidsDrawn r;
     file := file r; fileWrites := fileWrites r; readPermission :=
     readPermission r; writePermission := writePermission r; savedHandle :=
     savedHandle r; pickerChoice := pickerChoice r; userGrants := userGrants r
     |}.
Definition set_uuidsDrawn (v : nat) (r : Env) : Env :=
  {| storage := storage r; setCalls := setCalls r; messages := messages r;
     notifications := notifications r; clock := clock r; uuidsDrawn := v; file
     := file r; fileWrites := fileWrites r; readPermission := readPermission
     r; writePermission := writePermission r; savedHandle := savedHandle r;
     pickerChoice := pickerChoice r; userGrants := userGrants r |}.
Definition set_file (v : option string) (r : Env) : Env :=
  {| storage := storage r; setCalls := setCalls r; messages := messages r;
     notifications := notifications r; clock := clock r; uuidsDrawn :=
     uuidsDrawn r; file := v; fileWrites := fileWrites r; readPermission :=
     readPermission r; writePermission := writePermission r; savedHandle :=
     savedHandle r; pickerChoice := pickerChoice r; userGrants := userGrants r
     |}.
Definition set_fileWrites (v : list string) (r : Env) : Env :=
  {| storage := storage r; setCalls := setCalls r; messages := messages r;
     notifications := notifications r; clock := clock r; uuidsDrawn :=
     uuidsDrawn r; file := file r; fileWrites := v; readPermission :=
     readPermission r; writePermission := writePermission r; savedHandle :=
     savedHandle r; pickerChoice := pickerChoice r; userGrants := userGrants r
     |}.
Definition set_readPermission (v : Permission) (r : Env) : Env :=
  {| storage := storage r; setCalls := setCalls r; messages := messages r;
     notifications := notifications r; clock := clock r; uuidsDrawn :=
     uuidsDrawn r; file := file r; fileWrites := fileWrites r; readPermission
     := v; writePermission := writePermission r; savedHandle := savedHandle r;
     pickerChoice := pickerChoice r; userGrants := userGrants r |}.
Definition set_writePermission (v : Permission) (r : Env) : Env :=
  {| storage := storage r; setCalls := setCalls r; messages := messages r;
     notifications := notifications r; clock := clock r; uuidsDrawn :=
     uuidsDrawn r; file := file r; fileWrites := fileWrites r; readPermission
     := readPermission r; writePermission := v; savedHandle := savedHandle r;
     pickerChoice := pickerChoice r; userGrants := userGrants r |}.
Definition set_savedHandle (v : option FileHandle) (r : Env) : Env :=
  {| storage := storage r; setCalls := setCalls r; messages := messages r;
     notifications := notifications r; clock := clock r; uuidsDrawn :=
     uuidsDrawn r; file := file r; fileWrites := fileWrites r; readPermission
     := readPermission r; writePermission := writePermission r; savedHandle :=
     v; pickerChoice := pickerChoice r; userGrants := userGrants r |}.
Definition set_pickerChoice (v : option string) (r : Env) : Env :=
  {| storage := storage r; setCalls := setCalls r; messages := messages r;
     notifications := notifications r; clock := clock r; uuidsDrawn :=
     uuidsDrawn r; file := file r; fileWrites := fileWrites r; readPermission
     := readPermission r; writePermission := writePermission r; savedHandle :=
     savedHandle r; pickerChoice := v; userGrants := userGrants r |}.
Definition set_userGrants (v : bool) (r : Env) : Env :=
  {| storage := storage r; setCalls := setCalls r; messages := messages r;
     notifications := notifications r; clock := clock r; uuidsDrawn :=
     uuidsDrawn r; file := file r; fileWrites := fileWrites r; readPermission
     := readPermission r; writePermission := writePermission r; savedHandle :=
     savedHandle r; pickerChoice := pickerChoice r; userGrants := v |}.

Definition set_sections (v : Sections) (r : Home) : Home :=
  {| sections := v; timerDisplay := timerDisplay r; summaryInput :=
     summaryInput r; wordCounter := wordCounter r; submitLogDisabled :=
     submitLogDisabled r; noteInput := noteInput r; pomoLog := pomoLog r;
     errorBox := errorBox r; countdownInterval := countdownInterval r;
     fileHandle := fileHandle r; summarySync := summarySync r; noteSync :=
     noteSync r; intervals := intervals r; nextTimerId := nextTimerId r |}.
Definition set_timerDisplay (v : string) (r : Home) : Home :=
  {| sections := sections r; timerDisplay := v; summaryInput := summaryInput
     r; wordCounter := wordCounter r; submitLogDisabled := submitLogDisabled
     r; noteInput := noteInput r; pomoLog := pomoLog r; errorBox := errorBox
     r; countdownInterval := countdownInterval r; fileHandle := fileHandle r;
     summarySync := summarySync r; noteSync := noteSync r; intervals :=
     intervals r; nextTimerId := nextTimerId r |}.
Definition set_summaryInput (v : string) (r : Home) : Home :=
  {| sections := sections r; timerDisplay := timerDisplay r; summaryInput :=
     v; wordCounter := wordCounter r; submitLogDisabled := submitLogDisabled
     r; noteInput := noteInput r; pomoLog := pomoLog r; errorBox := errorBox
     r; countdownInterval := countdownInterval r; fileHandle := fileHandle r;
     summarySync := summarySync r; noteSync := noteSync r; intervals :=
     intervals r; nextTimerId := nextTimerId r |}.
Definition set_wordCounter (v : string) (r : Home) : Home :=
  {| sections := sections r; timerDisplay := timerDisplay r; summaryInput :=
     summaryInput r; wordCounter := v; submitLogDisabled := submitLogDisabled
     r; noteInput := noteInput r; pomoLog := pomoLog r; errorBox := errorBox
     r; countdownInterval := countdownInterval r; fileHandle := fileHandle r;
     summarySync := summarySync r; noteSync := noteSync r; intervals :=
     intervals r; nextTimerId := nextTimerId r |}.
Definition set_submitLogDisabled (v : bool) (r : Home) : Home :=
  {| sections := sections r; timerDisplay := timerDisplay r; summaryInput :=
     summaryInput r; wordCounter := wordCounter r; submitLogDisabled := v;
     noteInput := noteInput r; pomoLog := pomoLog r; errorBox := errorBox r;
     countdownInterval := countdownInterval r; fileHandle := fileHandle r;
     summarySync := summarySync r; noteSync := noteSync r; intervals :=
     intervals r; nextTimerId := nextTimerId r |}.
Definition set_noteInput (v : string) (r : Home) : Home :=
  {| sections := sections r; timerDisplay := timerDisplay r; summaryInput :=
     summaryInput r; wordCounter := wordCounter r; submitLogDisabled :=
     submitLogDisabled r; noteInput := v; pomoLog := pomoLog r; errorBox :=
     errorBox r; countdownInterval := countdownInterval r; fileHandle :=
     fileHandle r; summarySync := summarySync r; noteSync := noteSync r;
     intervals := intervals r; nextTimerId := nextTimerId r |}.
Definition set_pomoLog (v : LogView) (r : Home) : Home :=
  {| sections := sections r; timerDisplay := timerDisplay r; summaryInput :=
     summaryInput r; wordCounter := wordCounter r; submitLogDisabled :=
     submitLogDisabled r; noteInput := noteInput r; pomoLog := v; errorBox :=
     errorBox r; countdownInterval := countdownInterval r; fileHandle :=
     fileHandle r; summarySync := summarySync r; noteSync := noteSync r;
     intervals := intervals r; nextTimerId := nextTimerId r |}.
Definition set_errorBox (v : ErrorBox) (r : Home) : Home :=
  {| sections := sections r; timerDisplay := timerDisplay r; summaryInput :=
     summaryInput r; wordCounter := wordCounter r; submitLogDisabled :=
     submitLogDisabled r; noteInput := noteInput r; pomoLog := pomoLog r;
     errorBox := v; countdownInterval := countdownInterval r; fileHandle :=
     fileHandle r; summarySync := summarySync r; noteSync := noteSync r;
     intervals := intervals r; nextTimerId := nextTimerId r |}.
Definition set_countdownInterval (v : option nat) (r : Home) : Home :=
  {| sections := sections r; timerDisplay := timerDisplay r; summaryInput :=
     summaryInput r; wordCounter := wordCounter r; submitLogDisabled :=
     submitLogDisabled r; noteInput := noteInput r; pomoLog := pomoLog r;
     errorBox := errorBox r; countdownInterval := v; fileHandle := fileHandle
     r; summarySync := summarySync r; noteSync := noteSync r; intervals :=
     intervals r; nextTimerId := nextTimerId r |}.
Definition set_fileHandle (v : option FileHandle) (r : Home) : Home :=
  {| sections := sections r; timerDisplay := timerDisplay r; summaryInput :=
     summaryInput r; wordCounter := wordCounter r; submitLogDisabled :=
     submitLogDisabled r; noteInput := noteInput r; pomoLog := pomoLog r;
     errorBox := errorBox r; countdownInterval := countdownInterval r;
     fileHandle := v; summarySync := summarySync r; noteSync := noteSync r;
     intervals := intervals r; nextTimerId := nextTimerId r |}.
Definition set_summarySync (v : option string) (r : Home) : Home :=
  {| sections := sections r; timerDisplay := timerDisplay r; summaryInput :=
     summaryInput r; wordCounter := wordCounter r; submitLogDisabled :=
     submitLogDisabled r; noteInput := noteInput r; pomoLog := pomoLog r;
     errorBox := errorBox r; countdownInterval := countdownInterval r;
     fileHandle := fileHandle r; summarySync := v; noteSync := noteSync r;
     intervals := intervals r; nextTimerId := nextTimerId r |}.
Definition set_noteSync (v : option string) (r : Home) : Home :=
  {| sections := sections r; timerDisplay := timerDisplay r; summaryInput :=
     summaryInput r; wordCounter := wordCounter r; submitLogDisabled :=
     submitLogDisabled r; noteInput := noteInput r; pomoLog := pomoLog r;
     errorBox := errorBox r; countdownInterval := countdownInterval r;
     fileHandle := fileHandle r; summarySync := summarySync r; noteSync := v;
     intervals := intervals r; nextTimerId := nextTimerId r |}.
Definition set_intervals (v : gmap nat Z) (r : Home) : Home :=
  {| sections := sections r; timerDisplay := timerDisplay r; summaryInput :=
     summaryInput r; wordCounter := wordCounter r; submitLogDisabled :=
     submitLogDisabled r; noteInput := noteInput r; pomoLog := pomoLog r;
     errorBox := errorBox r; countdownInterval := countdownInterval r;
     fileHandle := fileHandle r; summarySync := summarySync r; noteSync :=
     noteSync r; intervals := v; nextTimerId := nextTimerId r |}.
Definition set_nextTimerId (v : nat) (r : Home) : Home :=
  {| sections := sections r; timerDisplay := timerDisplay r; summaryInput :=
     summaryInput r; wordCounter := wordCounter r; submitLogDisabled :=
     submitLogDisabled r; noteInput := noteInput r; pomoLog := pomoLog r;
     errorBox := errorBox r; countdownInterval := countdownInterval r;
     fileHandle := fileHandle r; summarySync := summarySync r; noteSync :=
     noteSync r; intervals := intervals r; nextTimerId := v |}.

(** The background context's listeners receive these events. *)
Inductive InstalledReason : Type :=
  | install | update | chrome_update | shared_module_update.

Inductive BackgroundEvent : Type :=
  | OnInstalled (reason : InstalledReason)
  | OnStartup
  | OnMessage (type : string).

Section Extension.
Context {P : Platform}.

(** ** The store and the message channel *)

(** [chrome.storage.local.set(items)] *)
Definition storageSet (items : list (string * value)) (e : Env) : Env :=
  set_setCalls (setCalls e ++ [items])
    (set_storage (setItems items (storage e)) e).

(** [chrome.storage.local.get(keys)] *)
Definition storageGet (keys : list string) (e : Env) : gmap string value :=
  getItems keys (storage e).

(** [chrome.runtime.sendMessage({ type })] *)
Definition sendMessage (type : string) (e : Env) : Env :=
  set_messages (messages e ++ [type]) e.

(** ** background.js *)

Definition handleInstallation (e : Env) : Env :=
  storageSet [(STORAGE_KEYS.TIMER_STATE, VStr TIMER_STATE.START);
              (STORAGE_KEYS.END_TIME, VNull);
              (STORAGE_KEYS.DURATION, VNum 0)] e.

Definition showTimerFinishedNotification (e : Env) : Env :=
  set_notifications (notifications e ++ ["FocusFlow Session Complete!"]) e.

Definition handleMessage (type : string) (e : Env) : Env :=
  if String.eqb type "timerFinished" then showTimerFinishedNotification e
  else e.

(** [setupListeners]: the installed listener takes no argument, so the
    reason of the event does not reach [handleInstallation]; no listener
    is registered for browser startup. *)
Definition dispatch (ev : BackgroundEvent) (e : Env) : Env :=
  match ev with
  | OnInstalled _ => handleInstallation e
  | OnStartup => e
  | OnMessage type => handleMessage type e
  end.

(** ** home.js: the error region and the summary *)

Definition showError (message : string) (h : Home) : Home :=
  set_errorBox {| errorHidden := false; errorMessage := message |} h.

Definition hideError (h : Home) : Home :=
  set_errorBox {| errorHidden := true;
                  errorMessage := errorMessage (errorBox h) |} h.

(** [text.trim().split(/\s+/).filter(Boolean).length] *)
Definition wordCount (text : string) : nat :=
  length (List.filter (λ w, negb (isEmpty w)) (splitSpaces (trim text))).

(** [validateSummary]: the call of [debouncedSyncSummary] leaves a
    pending write of the text. *)
Definition validateSummary (h : Home) : Home :=
  let text := summaryInput h in
  let h := set_summarySync (Some text) h in
  let count := wordCount text in
  let h := set_wordCounter (pretty count +:+ " / 50 words") h in
  if (MIN_SUMMARY_WORDS <=? count)%nat
  then set_submitLogDisabled false h
  else set_submitLogDisabled true h.

(** The [input] listeners of the two text areas. *)
Definition summaryInputEvent (text : string) (h : Home) : Home :=
  validateSummary (set_summaryInput text h).

Definition noteInputEvent (text : string) (h : Home) : Home :=
  set_noteSync (Some text) (set_noteInput text h).

(** The debounce timers run out. *)
Definition flushSummarySync (s : Home * Env) : Home * Env :=
  let '(h, e) := s in
  match summarySync h with
  | None => (h, e)
  | Some text =>
      (set_summarySync None h,
       storageSet [(STORAGE_KEYS.CURRENT_SUMMARY, VStr text)] e)
  end.

Definition flushNoteSync (s : Home * Env) : Home * Env :=
  let '(h, e) := s in
  match noteSync h with
  | None => (h, e)
  | Some text =>
      (set_noteSync None h,
       storageSet [(STORAGE_KEYS.CURRENT_NOTE, VStr text)] e)
  end.

(** ** home.js: the session log *)

(** The permission a request ends in: the user is asked only in the
    [prompt] state. *)
Definition requestReadWrite (e : Env) : Env :=
  match writePermission e with
  | granted => e
  | prompt =>
      if userGrants e
      then set_readPermission granted (set_writePermission granted e)
      else set_writePermission denied e
  | denied => e
  end.

(** [fileHandle.getFile()] then [file.text()]; [None] when the file is
    gone or may not be read. *)
Definition getFile (e : Env) : option string :=
  match readPermission e with
  | granted => file e
  | _ => None
  end.

(** [fileHandle.createWritable()]; [None] when write access is refused or
    the file is gone. *)
Definition createWritable (e : Env) : option Env :=
  let e := requestReadWrite e in
  match writePermission e, file e with
  | granted, Some _ => Some e
  | _, _ => None
  end.

(** [writable.write(content)] and [writable.close()] *)
Definition writeFile (content : string) (e : Env) : Env :=
  set_fileWrites (fileWrites e ++ [content]) (set_file (Some content) e).

(** The comparator of [loadLogs]; a NaN difference counts as zero. *)
Definition byEndTimeDesc (a b : object) : Z :=
  match newDate (getProp "end_time" b), newDate (getProp "end_time" a) with
  | Some tb, Some ta => tb - ta
  | _, _ => 0
  end.

(** [Array.prototype.sort(cmp)].  The sort is stable; an insertion sort
    is taken as its model.  Where the comparator is consistent every
    stable sort returns the same list, and [byEndTimeDesc] is consistent on
    entries whose [end_time] is a date.  When an [end_time] is no date a
    difference is NaN and the order of the result is left to the engine:
    the statements on the order of a listing are made for entries with
    dates. *)
Fixpoint insertSorted {A} (cmp : A → A → Z) (x : A) (l : list A) : list A :=
  match l with
  | [] => [x]
  | y :: l' => if (cmp x y <=? 0)%Z then x :: l else y :: insertSorted cmp x l'
  end.

Definition sort {A} (cmp : A → A → Z) (l : list A) : list A :=
  foldr (insertSorted cmp) [] l.

(** [renderLogs(logEntries)] on entries that are objects: reading a
    property of an object, also a missing one, does not throw. *)
Definition renderLogs (logEntries : list object) (h : Home) : Home :=
  match logEntries with
  | [] => set_pomoLog LogNoEntries h
  | _ => set_pomoLog (LogEntries logEntries) h
  end.

Definition loadError : string :=
  "Could not load the log file. It may have been moved or deleted.".

Definition loadLogs (s : Home * Env) : Home :=
  let '(h, e) := s in
  let h := hideError (set_pomoLog LogCleared h) in
  match fileHandle h with
  | None => set_pomoLog LogNoFile h
  | Some _ =>
      match readPermission e with
      | granted =>
          match getFile e with
          | None => showError loadError h
          | Some content =>
              if isEmpty (trim content) then set_pomoLog LogNoEntries h
              else
                match mapM JSON_parse (splitLines (trim content)) with
                | None => showError loadError h
                | Some logEntries =>
                    renderLogs (sort byEndTimeDesc logEntries) h
                end
          end
      | prompt => set_pomoLog LogGrantButton h
      | denied =>
          showError "Permission to read the log file has been denied." h
      end
  end.

(** [appendLogToFile(logEntry)].  Every fault is caught inside: a
    dismissed picker leaves no message, any other fault shows one, and
    both unbind the file handle. *)
Definition appendLogToFile (logEntry : object) (s : Home * Env)
    : Home * Env :=
  let '(h, e) := s in
  let picked : option (Home * Env) :=
    match fileHandle h with
    | Some _ => Some (h, e)
    | None =>
        match pickerChoice e with
        | None => None
        | Some content =>
            let e := set_file (Some content) e in
            let e := set_readPermission granted
                       (set_writePermission granted e) in
            Some (set_fileHandle (Some LogFile) h,
                  set_savedHandle (Some LogFile) e)
        end
    end in
  match picked with
  | None => (set_fileHandle None h, e)
  | Some (h, e) =>
      let e := requestReadWrite e in
      match writePermission e with
      | granted =>
          match getFile e with
          | None =>
              (set_fileHandle None
                 (showError "Could not save the log file. Please try again." h),
               e)
          | Some oldContent =>
              let newContent :=
                oldContent
                +:+ (if (0 <? len oldContent)%nat
                     then String LF EmptyString else EmptyString)
                +:+ JSON_stringify logEntry in
              (h, writeFile newContent e)
          end
      | _ => (set_fileHandle None h, set_savedHandle None e)
      end
  end.

Definition updateError : string := "Could not update the log file.".

(** [updateLogEntry(sessionId, newSummaryText)] *)
Definition updateLogEntry (sessionId newSummaryText : string)
    (s : Home * Env) : Home * Env :=
  let '(h, e) := s in
  let failed := (showError updateError h, e) in
  match fileHandle h with
  | None => failed
  | Some _ =>
      match getFile e with
      | None => failed
      | Some content =>
          match mapM JSON_parse (splitLines (trim content)) with
          | None => failed
          | Some logEntries =>
              match list_find
                      (λ entry, getProp "sessionId" entry
                                = Some (VStr sessionId)) logEntries with
              | None => failed
              | Some (entryIndex, _) =>
                  let logEntries :=
                    alter (setProp "summary_text" (VStr newSummaryText))
                      entryIndex logEntries in
                  let newContent :=
                    joinWith LF (JSON_stringify <$> logEntries) in
                  match createWritable e with
                  | None => failed
                  | Some e => (h, writeFile newContent e)
                  end
              end
          end
      end
  end.

(** ** home.js: the view and the countdown

    [updateUI], [startCountdown] and [resetToStartState] call one another.
    Each is first written over the function it calls back into; the knot
    is tied below. *)

Definition allHidden : Sections :=
  {| startHidden := true; runningHidden := true;
     endHidden := true; summaryHidden := true |}.

Definition updateUI_with (startCountdown : option value → Home * Env → Home * Env)
    (s : Home * Env) : Home * Env :=
  let '(h, e) := s in
  let result := storageGet [STORAGE_KEYS.TIMER_STATE; STORAGE_KEYS.END_TIME;
                            STORAGE_KEYS.CURRENT_SUMMARY] e in
  let state :=
    if truthy (result !! STORAGE_KEYS.TIMER_STATE)
    then result !! STORAGE_KEYS.TIMER_STATE
    else Some (VStr TIMER_STATE.START) in
  let h := set_noteInput (textOr (result !! STORAGE_KEYS.CURRENT_NOTE)) h in
  let h := set_sections allHidden h in
  if strictEq state (Some (VStr TIMER_STATE.START)) then
    (set_sections {| startHidden := false; runningHidden := true;
                     endHidden := true; summaryHidden := true |} h, e)
  else if strictEq state (Some (VStr TIMER_STATE.RUNNING)) then
    startCountdown (result !! STORAGE_KEYS.END_TIME)
      (set_sections {| startHidden := true; runningHidden := false;
                       endHidden := true; summaryHidden := true |} h, e)
  else if strictEq state (Some (VStr TIMER_STATE.END)) then
    let h := set_sections {| startHidden := true; runningHidden := true;
                             endHidden := false; summaryHidden := false |} h in
    let h := set_summaryInput
               (textOr (result !! STORAGE_KEYS.CURRENT_SUMMARY)) h in
    (validateSummary h, e)
  else (h, e).

Definition resetItems : list (string * value) :=
  [(STORAGE_KEYS.TIMER_STATE, VStr TIMER_STATE.START);
   (STORAGE_KEYS.END_TIME, VNull);
   (STORAGE_KEYS.DURATION, VNum 0);
   (STORAGE_KEYS.SESSION_ID, VNull);
   (STORAGE_KEYS.CURRENT_SUMMARY, VStr EmptyString)].

Definition resetToStartState_with (updateUI : Home * Env → Home * Env)
    (s : Home * Env) : Home * Env :=
  let '(h, e) := s in
  let h := validateSummary (set_summaryInput EmptyString h) in
  let e := storageSet resetItems e in
  let '(h, e) := updateUI (h, e) in
  (loadLogs (h, e), e).

(** [clearInterval(id)] *)
Definition clearInterval (id : option nat) (h : Home) : Home :=
  match id with
  | None => h
  | Some id => set_intervals (delete id (intervals h)) h
  end.

(** [setInterval(tick, 1000)] with the end time the tick closes over. *)
Definition setInterval (endTime : Z) (h : Home) : nat * Home :=
  let id := nextTimerId h in
  (id, set_nextTimerId (S id) (set_intervals (<[id := endTime]> (intervals h)) h)).

Definition timerError : string :=
  "An error occurred with the timer. Please start a new session.".

Definition startCountdown_with (resetToStartState : Home * Env → Home * Env)
    (endTimeISO : option value) (s : Home * Env) : Home * Env :=
  let '(h, e) := s in
  match newDate endTimeISO with
  | None => resetToStartState (showError timerError h, e)
  | Some endTime =>
      let h :=
        match countdownInterval h with
        | Some id => if (id =? 0)%nat then h else clearInterval (Some id) h
        | None => h
        end in
      let '(id, h) := setInterval endTime h in
      (set_countdownInterval (Some id) h, e)
  end.

(** The knot.  A reset writes the START phase, so the [updateUI] it calls
    back into never starts a countdown: the innermost countdown function
    is never run ([startCountdown_unfold] below proves the equations of
    the source). *)
Definition updateUI_start : Home * Env → Home * Env :=
  updateUI_with (λ _ s, s).

Definition startCountdown : option value → Home * Env → Home * Env :=
  startCountdown_with (resetToStartState_with updateUI_start).

Definition updateUI : Home * Env → Home * Env :=
  updateUI_with startCountdown.

Definition resetToStartState : Home * Env → Home * Env :=
  resetToStartState_with updateUI.

(** [startTimer(durationInMinutes)]; [None] is the RangeError of an end
    time out of range, thrown before anything is written. *)
Definition startTimer (durationInMinutes : Z) (s : Home * Env)
    : option (Home * Env) :=
  let '(h, e) := s in
  let now := clock e in
  let endTime := TimeClip (now + durationInMinutes * 60 * 1000) in
  let sessionId := randomUUID (uuidsDrawn e) in
  let e := set_uuidsDrawn (S (uuidsDrawn e)) e in
  endTimeISO ← toISOString endTime;
  let e := storageSet
             [(STORAGE_KEYS.TIMER_STATE, VStr TIMER_STATE.RUNNING);
              (STORAGE_KEYS.END_TIME, VStr endTimeISO);
              (STORAGE_KEYS.DURATION, VNum durationInMinutes);
              (STORAGE_KEYS.SESSION_ID, VStr sessionId);
              (STORAGE_KEYS.CURRENT_SUMMARY, VStr EmptyString)] e in
  Some (updateUI (h, e)).

(** One run of the interval callback that [startCountdown] installed
    under [id]; a cleared interval does not run. *)
Definition tick (id : nat) (s : Home * Env) : Home * Env :=
  let '(h, e) := s in
  match intervals h !! id with
  | None => (h, e)
  | Some endTime =>
      let now := clock e in
      let timeLeft := (endTime - now)%Z in
      if (timeLeft <=? 0)%Z then
        let h := clearInterval (countdownInterval h) h in
        let h := set_timerDisplay "00:00" h in
        let e := storageSet
                   [(STORAGE_KEYS.TIMER_STATE, VStr TIMER_STATE.END)] e in
        let e := sendMessage "timerFinished" e in
        updateUI (h, e)
      else
        let minutes := ((timeLeft `mod` (1000 * 60 * 60)) `div` (1000 * 60))%Z in
        let seconds := ((timeLeft `mod` (1000 * 60)) `div` 1000)%Z in
        (set_timerDisplay (pad2 minutes +:+ ":" +:+ pad2 seconds) h, e)
  end.

(** [saveLog]; [None] is the RangeError of a start or end time that is
    no valid date. *)
Definition saveLog (s : Home * Env) : option (Home * Env) :=
  let '(h, e) := s in
  let summaryText := summaryInput h in
  if (len (trim summaryText) =? 0)%nat then Some (h, e)
  else
    let stored := storageGet [STORAGE_KEYS.DURATION; STORAGE_KEYS.END_TIME;
                              STORAGE_KEYS.SESSION_ID] e in
    let duration := stored !! STORAGE_KEYS.DURATION in
    let endTime := stored !! STORAGE_KEYS.END_TIME in
    let sessionId := stored !! STORAGE_KEYS.SESSION_ID in
    let endDate := newDate endTime in
    let startDate :=
      end_ms ← endDate; minutes ← toNumber duration;
      TimeClip (end_ms - minutes * 60 * 1000) in
    start_time ← toISOString startDate;
    end_time ← toISOString endDate;
    let logEntry :=
      literal [("type", Some (VStr "session"));
               ("sessionId", sessionId);
               ("start_time", Some (VStr start_time));
               ("end_time", Some (VStr end_time));
               ("duration", duration);
               ("summary_text", Some (VStr summaryText))] in
    Some (resetToStartState (appendLogToFile logEntry (h, e))).

(** [saveNote] *)
Definition saveNote (s : Home * Env) : Home * Env :=
  let '(h, e) := s in
  let noteText := noteInput h in
  if (len (trim noteText) =? 0)%nat then (h, e)
  else
    let logEntry : object :=
      [("type", VStr "note");
       ("sessionId", VStr (randomUUID (uuidsDrawn e)));
       ("end_time", VStr (Date_toISOString (clock e)));
       ("summary_text", VStr noteText)] in
    let e := set_uuidsDrawn (S (uuidsDrawn e)) e in
    let '(h, e) := appendLogToFile logEntry (h, e) in
    let h := set_noteInput EmptyString h in
    let e := storageSet [(STORAGE_KEYS.CURRENT_NOTE, VStr EmptyString)] e in
    (loadLogs (h, e), e).

(** [x || ""] where the result is compared and then assigned to a text
    area. *)
Definition orEmpty (v : option value) : value :=
  if truthy v then default (VStr EmptyString) v else VStr EmptyString.

(** [handleStorageChange(changes, namespace)] *)
Definition handleStorageChange (changes : gmap string change)
    (namespace : string) (s : Home * Env) : Home * Env :=
  let '(h, e) := s in
  if negb (String.eqb namespace "local") then (h, e)
  else
    let h :=
      match changes !! STORAGE_KEYS.CURRENT_SUMMARY with
      | None => h
      | Some ch =>
          let newText := orEmpty (newValue ch) in
          if negb (bool_decide (VStr (summaryInput h) = newText))
          then validateSummary (set_summaryInput (toString newText) h)
          else h
      end in
    let h :=
      match changes !! STORAGE_KEYS.CURRENT_NOTE with
      | None => h
      | Some ch =>
          let newText := orEmpty (newValue ch) in
          if negb (bool_decide (VStr (noteInput h) = newText))
          then set_noteInput (toString newText) h
          else h
      end in
    match changes !! STORAGE_KEYS.TIMER_STATE with
    | None => (h, e)
    | Some ch =>
        let '(h, e) := updateUI (h, e) in
        if strictEq (newValue ch) (Some (VStr TIMER_STATE.START))
        then (loadLogs (h, e), e)
        else (h, e)
    end.

End Extension.

End Model.

(* ===================================================================== *)
(** * Vocabulary of the properties *)
(* ===================================================================== *)

(** The notions the properties below are stated with.  The ones that
    follow the words of the specification rather than the source are marked
    as such. *)

Module Terms.
Import Js Matcher Store Model.

(** ** Exclusion matcher *)

(** The regex terms a wildcard stands for, character by character: what
    [wildcardToRegex] is proved to build. *)
Definition globTerm (c : ascii) : term :=
  if ceq c "*" then TStar ADot else TAtom (AChar c).

Fixpoint compileGlob (w : string) : list term :=
  match w with
  | EmptyString => []
  | String c w' => globTerm c :: compileGlob w'
  end.

(** A character other than a line terminator. *)
Definition sameLine (c : ascii) : Prop := isLineTerminator c = false.

(** From the specification: a page of the extension itself.  Its URL
    starts with the extension scheme and the extension's identifier. *)
Definition isOwnPage (runtime_id url : string) : bool :=
  startsWith url ("chrome-extension://" +:+ runtime_id +:+ "/").

(** ** Summary gate *)

(** From the specification: the number of white-space-delimited tokens of
    a text, one for every character that is not white space and does not
    continue a token. *)
Fixpoint tokens_go (inToken : bool) (s : string) : nat :=
  match s with
  | EmptyString => 0
  | String c s' =>
      if isWhiteSpace c then tokens_go false s'
      else (if inToken then 0 else 1) + tokens_go true s'
  end.

Definition countTokens (s : string) : nat := tokens_go false s.

(** The pieces of a split that [filter(Boolean)] keeps. *)
Definition nonEmptyPieces (l : list string) : nat :=
  length (List.filter (λ w, negb (isEmpty w)) l).

(** The string begins with a character that is not white space. *)
Definition startsToken (s : string) : bool :=
  match s with
  | EmptyString => false
  | String c _ => negb (isWhiteSpace c)
  end.

(** The submit control agrees with the text in the summary field. *)
Definition gateConsistent (h : Home) : Prop :=
  submitLogDisabled h = negb (MIN_SUMMARY_WORDS <=? countTokens (summaryInput h)).

(** ** Lines of the log file *)

Definition newline : string := String LF EmptyString.

(** The string has a line feed in it. *)
Definition hasLF (s : string) : bool := includes s newline.

(** The string is wrapped in braces. *)
Definition braced (s : string) : Prop := ∃ body, s = String "{" (body +:+ "}").

Section Sorting.
Context {A : Type} (key : A → Z).

(** The comparator that sorts by descending key, and the order it
    yields. *)
Definition byKeyDesc (a b : A) : Z := (key b - key a)%Z.
Definition descending (a b : A) : Prop := (key b <= key a)%Z.

End Sorting.

Section WithPlatform.
Context {P : Platform}.

(** ** The view *)

(** The keys [updateUI] asks the store for. *)
Definition uiKeys : list string :=
  [STORAGE_KEYS.TIMER_STATE; STORAGE_KEYS.END_TIME; STORAGE_KEYS.CURRENT_SUMMARY].

(** The sections with the given ones on display. *)
Definition shown (start running finished : bool) : Sections :=
  {| startHidden := negb start; runningHidden := negb running;
     endHidden := negb finished; summaryHidden := negb finished |}.

(** What [updateUI] does to the page before it looks at the phase. *)
Definition cleared (h : Home) : Home :=
  set_sections allHidden (set_noteInput EmptyString h).

(** The page after a reset, before the log is reloaded. *)
Definition resetView (h : Home) : Home :=
  set_sections (shown true false false)
    (cleared (validateSummary (set_summaryInput EmptyString h))).

(** The page after [updateUI] in the END phase. *)
Definition finishedView (h : Home) (e : Env) : Home :=
  validateSummary
    (set_summaryInput (textOr (storage e !! STORAGE_KEYS.CURRENT_SUMMARY))
       (set_sections (shown false false true) (cleared h))).

Definition deniedError : string :=
  "Permission to read the log file has been denied.".

(** ** The countdown *)

(** The interval timers of a page: at most the one its
    [countdownInterval] field names, and that one has a truthy id. *)
Definition ownTick (h : Home) : Prop :=
  ∀ id endTime, intervals h !! id = Some endTime →
    countdownInterval h = Some id ∧ id ≠ 0.

(** The invariant of a page's interval timers. *)
Definition pageInv (h : Home) : Prop := ownTick h ∧ nextTimerId h ≠ 0.

(** What a tick writes when no time is left. *)
Definition endItems : list (string * value) :=
  [(STORAGE_KEYS.TIMER_STATE, VStr TIMER_STATE.END)].

(** The time left that the tick of a page computes: the end time its
    interval closed over, less the clock. *)
Definition remaining (h : Home) (e : Env) : option Z :=
  id ← countdownInterval h;
  endTime ← intervals h !! id;
  Some (endTime - clock e)%Z.

(** The stored session id, when it is a string, was handed out by
    [crypto.randomUUID] before. *)
Definition sessionKnown (e : Env) : Prop :=
  ∀ s, storage e !! STORAGE_KEYS.SESSION_ID = Some (VStr s) →
       ∃ k, k < uuidsDrawn e ∧ s = randomUUID k.

(** What [startTimer] writes. *)
Definition startItems (endTime d : Z) (sessionId : string)
    : list (string * value) :=
  [(STORAGE_KEYS.TIMER_STATE, VStr TIMER_STATE.RUNNING);
   (STORAGE_KEYS.END_TIME, VStr (Date_toISOString endTime));
   (STORAGE_KEYS.DURATION, VNum d);
   (STORAGE_KEYS.SESSION_ID, VStr sessionId);
   (STORAGE_KEYS.CURRENT_SUMMARY, VStr EmptyString)].

(** What [handleInstallation] writes. *)
Definition installItems : list (string * value) :=
  [(STORAGE_KEYS.TIMER_STATE, VStr TIMER_STATE.START);
   (STORAGE_KEYS.END_TIME, VNull);
   (STORAGE_KEYS.DURATION, VNum 0)].

(** ** The session log *)

(** The page holds the file handle and both permissions are granted. *)
Definition bound (h : Home) (e : Env) : Prop :=
  fileHandle h = Some LogFile ∧ readPermission e = granted
  ∧ writePermission e = granted.

(** The content [appendLogToFile] writes. *)
Definition appended (oldContent : string) (logEntry : object) : string :=
  oldContent
  +:+ (if (0 <? len oldContent)%nat then newline else EmptyString)
  +:+ JSON_stringify logEntry.

(** Appending the entries one after the other. *)
Definition appendAll (entries : list object) (s : Home * Env) : Home * Env :=
  foldl (λ s logEntry, appendLogToFile logEntry s) s entries.

(** The end time of an entry in milliseconds, 0 when it is no date. *)
Definition endMs (entry : object) : Z :=
  default 0%Z (newDate (getProp "end_time" entry)).

(** The entry [saveLog] builds. *)
Definition sessionEntry (start_time end_time summaryText : string)
    (sessionId duration : option value) : object :=
  literal [("type", Some (VStr "session"));
           ("sessionId", sessionId);
           ("start_time", Some (VStr start_time));
           ("end_time", Some (VStr end_time));
           ("duration", duration);
           ("summary_text", Some (VStr summaryText))].

(** The keys [saveLog] asks the store for. *)
Definition saveKeys : list string :=
  [STORAGE_KEYS.DURATION; STORAGE_KEYS.END_TIME; STORAGE_KEYS.SESSION_ID].

End WithPlatform.

End Terms.

(* ===================================================================== *)
(** * A reference platform and sample states *)
(* ===================================================================== *)

(** A small platform on which the model runs on concrete states.  It
    prints a time value as its decimal number of milliseconds, the [n]-th
    identifier as [n] in decimal, and an object as the code number of its
    property list between braces.  It is not the browser's formatter: the
    properties below are proved for every platform that satisfies
    [PlatformLaws], and this one is shown to be such a platform. *)

Module Reference.
Import Js Matcher Store Model Terms.

Definition printZ (z : Z) : string := NilEmpty.string_of_int (Z.to_int z).

Definition parseZ (s : string) : option Z :=
  Z.of_int <$> NilEmpty.int_of_string s.

#[local] Instance value_countable : Countable value.
Proof.
  refine (inj_countable'
    (λ v, match v with
          | VNull => inl ()
          | VNum n => inr (inl n)
          | VStr s => inr (inr (inl s))
          | VList l => inr (inr (inr l))
          end)
    (λ x, match x with
          | inl _ => VNull
          | inr (inl n) => VNum n
          | inr (inr (inl s)) => VStr s
          | inr (inr (inr l)) => VList l
          end) _).
  by intros [].
Defined.

(** The text before the closing brace that ends the string. *)
Fixpoint stripClosing (s : string) : option string :=
  match s with
  | EmptyString => None
  | String c s' =>
      if isEmpty s' then (if ceq c "}" then Some EmptyString else None)
      else String c <$> stripClosing s'
  end.

Definition stringify (obj : object) : string :=
  String "{" (printZ (Zpos (encode obj)) +:+ "}").

Definition parse (s : string) : option object :=
  match s with
  | EmptyString => None
  | String c rest =>
      if ceq c "{" then
        body ← stripClosing rest;
        z ← parseZ body;
        match z with
        | Zpos p => decode p
        | _ => None
        end
      else None
  end.

#[global] Instance platform : Platform := {|
  Date_parse s := parseZ s ≫= TimeClip;
  Date_toISOString := printZ;
  String_toNumber := parseZ;
  randomUUID n := pretty n;
  JSON_stringify := stringify;
  JSON_parse := parse;
|}.

(** ** Sample states *)

(** An extension id as the browser assigns them: 32 letters. *)
Definition extensionId : string := "abcdefghijklmnopabcdefghijklmnop".

(** An http URL of another site that carries the extension id. *)
Definition urlWithId : string := "http://example.com/?ref=" +:+ extensionId.

(** A page as it is before any handler has run. *)
Definition page : Home :=
  {| sections := allHidden; timerDisplay := "00:00";
     summaryInput := EmptyString; wordCounter := "0 / 50 words";
     submitLogDisabled := true; noteInput := EmptyString;
     pomoLog := LogCleared;
     errorBox := {| errorHidden := true; errorMessage := EmptyString |};
     countdownInterval := None; fileHandle := None;
     summarySync := None; noteSync := None;
     intervals := ∅; nextTimerId := 1 |}.

(** A browser with the given store, clock and log file, to which the user
    has granted read and write access. *)
Definition browser (st : gmap string value) (now : Z)
    (content : option string) : Env :=
  {| storage := st; setCalls := []; messages := []; notifications := [];
     clock := now; uuidsDrawn := 0; file := content; fileWrites := [];
     readPermission := granted; writePermission := granted;
     savedHandle := None; pickerChoice := None; userGrants := false |}.

Definition noon : Z := 1700000000000.

(** A page whose countdown interval 1 runs towards [endTime]. *)
Definition ticking (endTime : Z) : Home :=
  set_nextTimerId 2
    (set_countdownInterval (Some 1) (set_intervals {[ 1 := endTime ]} page)).

(** A page that holds the file handle. *)
Definition boundPage : Home := set_fileHandle (Some LogFile) page.

(** The store in the middle of a 25 minute session. *)
Definition runningStore : gmap string value :=
  {[ STORAGE_KEYS.TIMER_STATE := VStr TIMER_STATE.RUNNING;
     STORAGE_KEYS.END_TIME := VStr (printZ noon);
     STORAGE_KEYS.DURATION := VNum 25;
     STORAGE_KEYS.SESSION_ID := VStr "0";
     STORAGE_KEYS.CURRENT_SUMMARY := VStr EmptyString;
     "excludedUrls" := VList ["*example.com*"] ]}.

(** The store once that session is over. *)
Definition endedStore : gmap string value :=
  <[ STORAGE_KEYS.TIMER_STATE := VStr TIMER_STATE.END ]> runningStore.

(** RUNNING with no end time at all. *)
Definition brokenStore : gmap string value :=
  {[ STORAGE_KEYS.TIMER_STATE := VStr TIMER_STATE.RUNNING ]}.

(** Two log entries, the first with a property the extension does not
    know. *)
Definition firstEntry : object :=
  [("type", VStr "session"); ("sessionId", VStr "s1");
   ("end_time", VStr (printZ 1000)); ("summary_text", VStr "first");
   ("mood", VStr "calm")].

Definition secondEntry : object :=
  [("type", VStr "note"); ("sessionId", VStr "s2");
   ("end_time", VStr (printZ 2000)); ("summary_text", VStr "second")].

(** The log file that holds the two entries. *)
Definition twoLines : string :=
  joinWith LF (stringify <$> [firstEntry; secondEntry]).

(** A text of [n] words. *)
Fixpoint words (n : nat) : string :=
  match n with
  | 0 => EmptyString
  | S n' => "word " +:+ words n'
  end.

(** The storage notification of a new summary text. *)
Definition summaryChange (text : string) : gmap string change :=
  {[ STORAGE_KEYS.CURRENT_SUMMARY :=
       {| oldValue := Some (VStr EmptyString); newValue := Some (VStr text) |} ]}.

Definition shortSummary : string := "Fixed the parser bug".

End Reference.

(* ===================================================================== *)
(** * The tab guard (background.js) *)
(* ===================================================================== *)

(** [handleTabUpdate] and what it calls.  The listener reads the store and
    may navigate a tab; the tabs of the browser are a map from tab ids to
    the URL each one shows. *)

Module Guard.
Import Js Matcher Store Model.

Abbreviation Tabs := (gmap nat string).

(** [chrome.runtime.getURL(path)] for a relative path. *)
Definition getURL (runtime_id path : string) : string :=
  "chrome-extension://" +:+ runtime_id +:+ "/" +:+ path.

(** [redirectToHomePage(tabId)]: [chrome.tabs.update] navigates the tab.
    For a tab that is gone it only sets [lastError], which the callback
    logs. *)
Definition redirectToHomePage (runtime_id : string) (tabId : nat)
    (tabs : Tabs) : Tabs :=
  alter (λ _, getURL runtime_id "home.html") tabId tabs.

(** The strings of one character that iterating over a string yields. *)
Fixpoint characters (s : string) : list string :=
  match s with
  | EmptyString => []
  | String c s' => String c EmptyString :: characters s'
  end.

(** What a [for ... of] loop over a value visits; [None] is the TypeError
    of a value that is not iterable. *)
Definition iterate (v : value) : option (list string) :=
  match v with
  | VList l => Some l
  | VStr s => Some (characters s)
  | VNum _ | VNull => None
  end.

(** [result.excludedUrls || []] *)
Definition orEmptyArray (v : option value) : value :=
  if truthy v then default (VList []) v else VList [].

(** [isUrlBlockable(url, excludedUrls)] called with whatever the store
    holds under [excludedUrls]: the four tests on the URL come first, the
    loop over the exclusions after them.  On an array of strings this is
    [Matcher.isUrlBlockable]. *)
Definition isUrlBlockableOf (runtime_id url : string) (excludedUrls : value)
    : option bool :=
  if isChromeInternal url || isExtensionPage runtime_id url
     || isNewTabPage url || negb (isWebPage url)
  then Some false
  else iterate excludedUrls ≫= checkExclusions url.

(** [handleTabUpdate(tabId, changeInfo, tab)], with [status] for
    [changeInfo.status] and [tab_url] for [tab.url].  An exception thrown
    inside is caught and logged, and the tab is left alone. *)
Definition handleTabUpdate (runtime_id : string) (tabId : nat)
    (status tab_url : option string) (e : Env) (tabs : Tabs) : Tabs :=
  match tab_url with
  | None => tabs
  | Some url =>
      if negb (isEmpty url) && bool_decide (status = Some "complete") then
        let result := storageGet [STORAGE_KEYS.TIMER_STATE; "excludedUrls"] e in
        let state := result !! STORAGE_KEYS.TIMER_STATE in
        let excludedUrls := orEmptyArray (result !! "excludedUrls") in
        if negb (strictEq state (Some (VStr TIMER_STATE.RUNNING))) then
          match isUrlBlockableOf runtime_id url excludedUrls with
          | Some true => redirectToHomePage runtime_id tabId tabs
          | Some false => tabs
          | None => tabs
          end
        else tabs
      else tabs
  end.

End Guard.

(* ===================================================================== *)
(** * The options page (options.js) *)
(* ===================================================================== *)

Module OptionsPage.
Import Js Store Model.

(** What the list of patterns shows. *)
Inductive ListView : Type :=
  | NoUrlsExcluded                    (* "No URLs excluded yet." *)
  | ListItems (rows : list (nat * string)).
                                      (* a row per pattern: its [data-index]
                                         and the text of the pattern *)

(** One open options page: the text field, the list and the
    [excludedUrls] array of [FocusFlowOptions]. *)
Record Options : Type := {
  wildcardInput : string;
  wildcardList : ListView;
  excludedUrls : list string;
}.

Definition set_wildcardInput (v : string) (r : Options) : Options :=
  {| wildcardInput := v; wildcardList := wildcardList r;
     excludedUrls := excludedUrls r |}.
Definition set_wildcardList (v : ListView) (r : Options) : Options :=
  {| wildcardInput := wildcardInput r; wildcardList := v;
     excludedUrls := excludedUrls r |}.
Definition set_excludedUrls (v : list string) (r : Options) : Options :=
  {| wildcardInput := wildcardInput r; wildcardList := wildcardList r;
     excludedUrls := v |}.

(** [renderWildcards] *)
Definition renderWildcards (o : Options) : Options :=
  match excludedUrls o with
  | [] => set_wildcardList NoUrlsExcluded o
  | urls => set_wildcardList (ListItems (imap (λ index url, (index, url)) urls)) o
  end.

(** [loadWildcards]; [None] is the TypeError that [renderWildcards]
    throws on a stored value that is truthy and no array (it has no
    [forEach]). *)
Definition loadWildcards (e : Env) (o : Options) : option Options :=
  let result := storageGet ["excludedUrls"] e in
  let stored :=
    if truthy (result !! "excludedUrls") then result !! "excludedUrls"
    else Some (VList []) in
  match stored with
  | Some (VList urls) => Some (renderWildcards (set_excludedUrls urls o))
  | _ => None
  end.

(** [handleAddWildcard(e)] *)
Definition handleAddWildcard (s : Options * Env) : Options * Env :=
  let '(o, e) := s in
  let newWildcard := trim (wildcardInput o) in
  if negb (isEmpty newWildcard)
     && negb (bool_decide (newWildcard ∈ excludedUrls o))
  then
    let o := set_excludedUrls (excludedUrls o ++ [newWildcard]) o in
    let e := storageSet [("excludedUrls", VList (excludedUrls o))] e in
    let o := set_wildcardInput EmptyString o in
    (renderWildcards o, e)
  else (o, e).

(** [handleDeleteWildcard(e)], with [indexToDelete] the [data-index] of
    the button that was clicked.  [splice] removes nothing at an index
    past the end. *)
Definition handleDeleteWildcard (indexToDelete : nat) (s : Options * Env)
    : Options * Env :=
  let '(o, e) := s in
  let o := set_excludedUrls (delete indexToDelete (excludedUrls o)) o in
  let e := storageSet [("excludedUrls", VList (excludedUrls o))] e in
  (renderWildcards o, e).

(** What the user does on the page. *)
Inductive OptionsEvent : Type :=
  | TypeWildcard (text : string)
  | SubmitForm
  | ClickDelete (index : nat).

Definition handleEvent (s : Options * Env) (ev : OptionsEvent)
    : Options * Env :=
  match ev with
  | TypeWildcard text => (set_wildcardInput text s.1, s.2)
  | SubmitForm => handleAddWildcard s
  | ClickDelete index => handleDeleteWildcard index s
  end.

End OptionsPage.

(* ===================================================================== *)
(** * Opening a home page (home.js) *)
(* ===================================================================== *)

Module Startup.
Import Js Store Model.

Section WithPlatform.
Context {P : Platform}.

(** [getFileHandle()]: the handle kept in IndexedDB under
    [logFileHandle].  A database that cannot be opened is outside the
    model. *)
Definition getFileHandle (e : Env) : option FileHandle := savedHandle e.

(** [initializeView()] *)
Definition initializeView (s : Home * Env) : Home * Env :=
  let '(h, e) := s in
  let h := set_fileHandle (getFileHandle e) h in
  let h := hideError h in
  let '(h, e) := updateUI (h, e) in
  (loadLogs (h, e), e).

End WithPlatform.

End Startup.

(* ===================================================================== *)
(** * Further vocabulary *)
(* ===================================================================== *)

Module Notions.
Import Js Matcher Store Model Terms Guard OptionsPage.

(** ** Patterns *)

(** The string with every character in the case the matcher compares
    in. *)
Fixpoint upper (s : string) : string :=
  match s with
  | EmptyString => EmptyString
  | String c s' => String (canonicalize c) (upper s')
  end.

Definition equalIgnoringCase (a b : string) : bool :=
  String.eqb (upper a) (upper b).

(** The pattern has no [*] in it. *)
Definition starFree (w : string) : bool := negb (includes w "*").

(** The string begins with one of the characters of [set]. *)
Definition opensWith (set w : string) : bool :=
  match w with
  | EmptyString => false
  | String c _ => oneOf set c
  end.

(** None of the four tests of [isUrlBlockable] exempts the URL. *)
Definition guarded (runtime_id url : string) : Prop :=
  (isChromeInternal url || isExtensionPage runtime_id url
   || isNewTabPage url || negb (isWebPage url)) = false.

(** The home page of the extension. *)
Definition homeUrl (runtime_id : string) : string :=
  getURL runtime_id "home.html".

(** ** The options page *)

(** A pattern as the options page stores them: trimmed and not empty. *)
Definition trimmed (w : string) : Prop := trim w = w ∧ w ≠ EmptyString.

(** The page lists what the store holds, without duplicates, and shows
    it. *)
Definition optionsInv (s : Options * Env) : Prop :=
  orEmptyArray (storage s.2 !! "excludedUrls") = VList (excludedUrls s.1)
  ∧ NoDup (excludedUrls s.1)
  ∧ Forall trimmed (excludedUrls s.1)
  ∧ renderWildcards s.1 = s.1.

(** ** The home page *)

(** A pending debounced write of the summary carries the text now in the
    field. *)
Definition pendingCurrent (h : Home) : Prop :=
  ∀ text, summarySync h = Some text → text = summaryInput h.


(** An entry of the log after an edit of [entry]: the entry itself, or
    [entry] with the new summary. *)
Definition sameOrEdited (entry : object) (text : string) (a b : object) : Prop :=
  b = a ∨ (a = entry ∧ b = setProp "summary_text" (VStr text) a).

(** The storage notification of one key. *)
Definition changeOf (key : string) (old new : option value)
    : gmap string change :=
  {[ key := {| oldValue := old; newValue := new |} ]}.

Section WithPlatform.
Context {P : Platform}.

(** The entry [saveNote] builds. *)
Definition noteEntry (sessionId end_time noteText : string) : object :=
  [("type", VStr "note"); ("sessionId", VStr sessionId);
   ("end_time", VStr end_time); ("summary_text", VStr noteText)].

(** What [saveNote] writes to the store. *)
Definition noteItems : list (string * value) :=
  [(STORAGE_KEYS.CURRENT_NOTE, VStr EmptyString)].

(** The lines of a log file parse to these entries. *)
Definition holds (content : string) (entries : list object) : Prop :=
  mapM JSON_parse (splitLines (trim content)) = Some entries.

(** The [end_time] of the entry is a date: [new Date(entry.end_time)] is
    no Invalid Date.  On such entries the comparator of [loadLogs] is
    consistent and the listing is the stable sort by end time. *)
Definition dated (entry : object) : Prop :=
  is_Some (newDate (getProp "end_time" entry)).

End WithPlatform.

End Notions.

(* ===================================================================== *)
(** * Further sample states *)
(* ===================================================================== *)

Module Scenes.
Import Js Matcher Store Model Terms Reference Guard OptionsPage Notions.

(** An options page before [loadWildcards] has run. *)
Definition optionsPage : Options :=
  {| wildcardInput := EmptyString; wildcardList := NoUrlsExcluded;
     excludedUrls := [] |}.

(** Two tabs: a news site and the extension's home page. *)
Definition twoTabs : Tabs :=
  {[ 1 := "https://news.example.org/today"; 2 := homeUrl extensionId ]}.

(** A browser in which the user picks an empty file in the file picker
    and no handle is saved yet. *)
Definition firstUse (st : gmap string value) : Env :=
  set_pickerChoice (Some EmptyString) (browser st noon None).

(** A browser in which the user dismisses the file picker. *)
Definition dismissing (st : gmap string value) : Env := browser st noon None.

(** A browser that holds an empty log file which the page may not
    write. *)
Definition readOnly (st : gmap string value) : Env :=
  set_writePermission denied (browser st noon (Some EmptyString)).

(** The store after a session, with no pattern excluded. *)
Definition plainStore : gmap string value :=
  {[ STORAGE_KEYS.TIMER_STATE := VStr TIMER_STATE.END ]}.

(** The store before a session, with the phase START. *)
Definition idleStore : gmap string value :=
  <[ STORAGE_KEYS.TIMER_STATE := VStr TIMER_STATE.START ]> runningStore.

(** A store whose exclusion list is a number. *)
Definition oddStore : gmap string value := {[ "excludedUrls" := VNum 7 ]}.

(** An options page that lists two patterns, and the store it was loaded
    from. *)
Definition listedStore : gmap string value :=
  {[ "excludedUrls" := VList ["*example.com*"; "*.org/*"] ]}.

Definition listedPage : Options :=
  renderWildcards (set_excludedUrls ["*example.com*"; "*.org/*"] optionsPage).

(** What a user may do on the options page: a pattern typed with blanks
    around it, the same pattern again, another pattern, and a click on the
    first delete button. *)
Definition editing : list OptionsEvent :=
  [TypeWildcard "  *example.com* "; SubmitForm;
   TypeWildcard "*example.com*"; SubmitForm;
   TypeWildcard "*.org/*"; SubmitForm;
   ClickDelete 0].

Definition newsUrl : string := "https://news.example.org/today".

Definition shopUrl : string := "https://www.example.com/cart".

Definition noteText : string := "call Ana back".


End Scenes.

(* ===================================================================== *)
(** * Properties *)
(* ===================================================================== *)

(** Membership and duplicate-freedom of a concrete list, by evaluation. *)
Ltac decide_in := apply (bool_decide_unpack _); by vm_compute.

(* ===================================================================== *)
(** ** Exclusion matcher *)
(* ===================================================================== *)

Module MatcherFacts.
Import Js Matcher Terms Reference.

Lemma ceq_true a b : ceq a b = true ↔ a = b.
Proof. apply Ascii.eqb_eq. Qed.

Lemma ceq_false a b : ceq a b = false ↔ a ≠ b.
Proof. apply Ascii.eqb_neq. Qed.

Lemma ceq_refl a : ceq a a = true.
Proof. apply Ascii.eqb_refl. Qed.

Lemma app_cons c s t : String c s +:+ t = String c (s +:+ t).
Proof. reflexivity. Qed.

Lemma app_empty t : EmptyString +:+ t = t.
Proof. reflexivity. Qed.

(** *** Character classes *)

Lemma escaped_not_star c : isEscaped c = true → ceq c "*" = false.
Proof.
  intros H. apply ceq_false. intros ->. by vm_compute in H.
Qed.

Lemma escaped_syntax c : isEscaped c = true → isSyntaxCharacter c = true.
Proof. unfold isSyntaxCharacter. intros ->. apply orb_true_r. Qed.

Lemma plain_not_special c :
  isEscaped c = false →
  ceq c "^" = false ∧ ceq c "$" = false ∧ ceq c "\" = false ∧ ceq c "." = false.
Proof.
  intros H. repeat split; apply ceq_false; intros ->; by vm_compute in H.
Qed.

Lemma plain_not_syntax c :
  isEscaped c = false → ceq c "*" = false → isSyntaxCharacter c = false.
Proof. unfold isSyntaxCharacter. by intros -> ->. Qed.

(** *** The source text built by [wildcardToRegex] *)

Lemma regexString_cons c w :
  regexString (String c w) =
    if isEscaped c then String "\" (String c (regexString w))
    else if ceq c "*" then String "." (String "*" (regexString w))
    else String c (regexString w).
Proof.
  unfold regexString. simpl. destruct (isEscaped c) eqn:He; simpl.
  - by rewrite (escaped_not_star c He).
  - by destruct (ceq c "*").
Qed.

Lemma regexString_head w :
  ∃ q rest, regexString w +:+ "$" = String q rest ∧ ceq q "*" = false.
Proof.
  destruct w as [|c w].
  - by exists "$"%char, EmptyString.
  - rewrite regexString_cons.
    destruct (isEscaped c) eqn:He; [|destruct (ceq c "*") eqn:Hs];
      rewrite app_cons; eauto.
Qed.

Lemma parse_escaped e q rest :
  isSyntaxCharacter e = true → ceq q "*" = false →
  parsePattern (String "\" (String e (String q rest))) =
    cons (TAtom (AChar e)) <$> parsePattern (String q rest).
Proof. intros He Hq. simpl. by rewrite He, Hq. Qed.

Lemma parse_dot_star rest :
  parsePattern (String "." (String "*" rest)) =
    cons (TStar ADot) <$> parsePattern rest.
Proof. reflexivity. Qed.

Lemma parse_plain c q rest :
  isEscaped c = false → ceq c "*" = false → ceq q "*" = false →
  parsePattern (String c (String q rest)) =
    cons (TAtom (AChar c)) <$> parsePattern (String q rest).
Proof.
  intros He Hs Hq. destruct (plain_not_special c He) as (H1 & H2 & H3 & H4).
  simpl. by rewrite H1, H2, H3, H4, (plain_not_syntax c He Hs), Hq.
Qed.

Lemma parse_regexString w :
  parsePattern (regexString w +:+ "$") = Some (compileGlob w ++ [TEol]).
Proof.
  induction w as [|c w IH]; [done|].
  destruct (regexString_head w) as (q & rest & Hq & Hstar).
  rewrite regexString_cons. unfold compileGlob; fold compileGlob.
  unfold globTerm.
  destruct (isEscaped c) eqn:He; [|destruct (ceq c "*") eqn:Hs];
    rewrite !app_cons.
  - rewrite Hq, (parse_escaped _ _ _ (escaped_syntax c He) Hstar), <- Hq, IH.
    by rewrite (escaped_not_star c He).
  - by rewrite parse_dot_star, IH.
  - by rewrite Hq, (parse_plain _ _ _ He Hs Hstar), <- Hq, IH.
Qed.

Lemma wildcardToRegex_compile w :
  wildcardToRegex w = Some (TBol :: compileGlob w ++ [TEol]).
Proof.
  unfold wildcardToRegex. rewrite app_cons, app_empty. simpl.
  by rewrite parse_regexString.
Qed.

(** *** The matcher on compiled globs *)

Lemma matchStar_dot k i u :
  matchStar ADot k i u = true ↔
  ∃ t u', u = t +:+ u' ∧ allChars sameLine t ∧ k (i + len t) u' = true.
Proof.
  revert i. induction u as [|c u IH]; intros i; simpl.
  - split.
    + intros Hk. exists EmptyString, EmptyString. by rewrite Nat.add_0_r.
    + intros ([|??] & u' & E & _ & Hk); [|discriminate].
      rewrite app_empty in E. subst u'. by rewrite Nat.add_0_r in Hk.
  - rewrite orb_true_iff, andb_true_iff, negb_true_iff, IH. split.
    + intros [(Hc & t & u' & -> & Ht & Hk)|Hk].
      * exists (String c t), u'. simpl. rewrite <- Nat.add_succ_comm. done.
      * exists EmptyString, (String c u). by rewrite Nat.add_0_r.
    + intros ([|d t] & u' & E & Ht & Hk).
      * right. rewrite app_empty in E. subst u'. by rewrite Nat.add_0_r in Hk.
      * left. rewrite app_cons in E. injection E as <- ->.
        destruct Ht as [Hc Ht]. split; [done|].
        exists t, u'. simpl in Hk. rewrite <- Nat.add_succ_comm in Hk. done.
Qed.

Lemma matchTerms_glob w i u :
  matchTerms (compileGlob w ++ [TEol]) i u = true ↔ GlobLine w u.
Proof.
  revert i u. induction w as [|c w IH]; intros i u.
  - simpl. destruct u; split; try done.
    + intros _. constructor.
    + inversion 1.
  - unfold compileGlob; fold compileGlob. unfold globTerm.
    destruct (ceq c "*") eqn:Hs.
    + apply ceq_true in Hs as ->. simpl. rewrite matchStar_dot. split.
      * intros (t & u' & -> & Ht & Hk). apply IH in Hk. by constructor.
      * inversion 1 as [|p t u' Ht Hg|]; subst; [|done].
        exists t, u'. split; [done|]. split; [done|]. by apply IH.
    + apply ceq_false in Hs. simpl. destruct u as [|d u].
      * split; [done|]. inversion 1; by subst.
      * rewrite andb_true_iff, ceq_true, IH. split.
        -- intros [Hc Hg]. by constructor.
        -- inversion 1; by subst.
Qed.

Lemma execFrom_bol ts i rest : execFrom (TBol :: ts) (S i) rest = false.
Proof. revert i. induction rest as [|c rest IH]; intros i; simpl; [done|]. apply IH. Qed.

Lemma test_bol ts u : test (TBol :: ts) u = matchTerms ts 0 u.
Proof.
  unfold test. destruct u; simpl.
  - apply orb_false_r.
  - by rewrite execFrom_bol, orb_false_r.
Qed.

(** [wildcardToRegex] never throws, and the regex it returns tests a
    string exactly as the glob reading of the wildcard does. *)
Lemma wildcardToRegex_glob w :
  ∃ r, wildcardToRegex w = Some r ∧ ∀ u, test r u = true ↔ GlobLine w u.
Proof.
  eexists. split; [apply wildcardToRegex_compile|].
  intros u. rewrite test_bol. apply matchTerms_glob.
Qed.

Lemma checkExclusions_glob u ps :
  ∃ b, checkExclusions u ps = Some b ∧
       (b = false ↔ ∃ p, p ∈ ps ∧ GlobLine p u).
Proof.
  induction ps as [|w ps (b & Hb & IH)]; simpl.
  - exists true. split; [done|]. split; [done|].
    intros (p & Hp & _). by apply not_elem_of_nil in Hp.
  - destruct (wildcardToRegex_glob w) as (r & -> & Hr).
    destruct (test r u) eqn:Ht.
    + exists false. split; [done|]. split; [|done]. intros _.
      exists w. split; [left|]. by apply Hr.
    + exists b. split; [done|]. rewrite IH. split.
      * intros (p & Hp & Hg). exists p. split; [by right|done].
      * intros (p & Hp & Hg). apply elem_of_cons in Hp as [->|Hp].
        -- apply Hr in Hg. congruence.
        -- eauto.
Qed.

(** *** The guard *)

Lemma startsWith_len s p : startsWith s p = true → len p ≤ len s.
Proof.
  revert s. induction p as [|a p IH]; intros [|b s]; simpl; try done; [lia|].
  intros [_ H]%andb_true_iff. apply IH in H. lia.
Qed.

Lemma includes_len s needle : includes s needle = true → len needle ≤ len s.
Proof.
  induction s as [|c s IH]; unfold includes; fold includes.
  - rewrite orb_false_r. apply startsWith_len.
  - intros [H|H]%orb_true_iff; [by apply startsWith_len in H|].
    apply IH in H. simpl. lia.
Qed.

Lemma includes_short s needle : len s < len needle → includes s needle = false.
Proof.
  intros Hlt. destruct (includes s needle) eqn:H; [|done].
  apply includes_len in H. lia.
Qed.

Lemma startsWith_app s p q :
  startsWith s (p +:+ q) = true →
  startsWith s p = true ∧ includes s q = true.
Proof.
  revert s. induction p as [|a p IH]; intros s.
  - rewrite app_empty. intros Hq. split; [by destruct s|].
    destruct s; unfold includes; by rewrite Hq.
  - rewrite app_cons. destruct s as [|b s]; [done|].
    change (startsWith (String b s) (String a (p +:+ q)))
      with (ceq a b && startsWith s (p +:+ q)).
    change (startsWith (String b s) (String a p))
      with (ceq a b && startsWith s p).
    intros [Hab [Hp Hq]%IH]%andb_true_iff. split; [by rewrite Hab, Hp|].
    unfold includes; fold includes. rewrite Hq. apply orb_true_r.
Qed.

Lemma includes_prefix s p q :
  includes s (p +:+ q) = true → includes s p = true.
Proof.
  induction s as [|c s IH]; unfold includes; fold includes.
  - rewrite !orb_false_r. intros H. by apply startsWith_app in H as [-> _].
  - intros [H|H]%orb_true_iff.
    + apply startsWith_app in H as [-> _]. done.
    + rewrite IH by done. apply orb_true_r.
Qed.

(** The source's test for an extension page holds of every own page. *)
Lemma isOwnPage_isExtensionPage runtime_id url :
  isOwnPage runtime_id url = true → isExtensionPage runtime_id url = true.
Proof.
  unfold isOwnPage, isExtensionPage. intros H.
  apply startsWith_app in H as [_ H]. by apply includes_prefix in H.
Qed.

(** *** Globs on a URL without line terminators *)

Lemma allChars_app P t u : allChars P (t +:+ u) ↔ allChars P t ∧ allChars P u.
Proof.
  induction t as [|c t IH]; [rewrite app_empty; simpl; tauto|].
  rewrite app_cons. simpl. tauto.
Qed.

Lemma Glob_weaken (P Q : ascii → Prop) p u :
  (∀ t, allChars P t → allChars Q t) → Glob P p u → Glob Q p u.
Proof. intros HPQ. induction 1; constructor; auto. Qed.

Lemma Glob_within (P Q : ascii → Prop) p u :
  allChars Q u → Glob P p u → Glob Q p u.
Proof.
  intros Hu Hg. induction Hg as [|p t u Ht Hg IH|c d p u Hc Hcd Hg IH].
  - constructor.
  - apply allChars_app in Hu as [Hut Hu]. constructor; auto.
  - destruct Hu as [_ Hu]. constructor; auto.
Qed.

Lemma GlobAny_line p u : allChars sameLine u → GlobAny p u ↔ GlobLine p u.
Proof.
  intros Hu. split.
  - by apply Glob_within.
  - apply Glob_weaken. intros t _. induction t; simpl; auto.
Qed.

(** What [isUrlBlockable] answers, in full.  It answers false for a
    chrome-internal URL, a URL that contains the extension's identifier
    (every page of the extension does), the new-tab page and a URL that is
    not http/https.  For every other URL it answers false exactly when
    some pattern of the list matches the URL as a glob in which [*] stands
    for any sequence free of line terminators, every other character
    stands for itself up to letter case, and the whole URL is accounted
    for; it answers true otherwise, so with an empty list it answers true.
    When the URL itself has no line terminator, as the URL of a tab, [*]
    may be read as any sequence at all.  The three sample calls of the
    specification evaluate as it says. *)
Theorem isUrlBlockable_glob (runtime_id u : string) (ps : list string) :
  let exempt := isChromeInternal u || isExtensionPage runtime_id u
                || isNewTabPage u || negb (isWebPage u) in
  (exempt = true → isUrlBlockable runtime_id u ps = Some false) ∧
  (isOwnPage runtime_id u = true → isUrlBlockable runtime_id u ps = Some false) ∧
  (exempt = false →
     (isUrlBlockable runtime_id u ps = Some false ↔ ∃ p, p ∈ ps ∧ GlobLine p u) ∧
     (isUrlBlockable runtime_id u ps = Some true ↔ ¬ ∃ p, p ∈ ps ∧ GlobLine p u) ∧
     (allChars sameLine u →
        isUrlBlockable runtime_id u ps = Some false ↔ ∃ p, p ∈ ps ∧ GlobAny p u) ∧
     isUrlBlockable runtime_id u [] = Some true) ∧
  (len runtime_id = 32 →
     isUrlBlockable runtime_id "chrome://extensions/" [] = Some false ∧
     isUrlBlockable runtime_id "http://example.com" [] = Some true ∧
     isUrlBlockable runtime_id "http://example.com" ["*example.com*"] = Some false).
Proof.
  intros exempt. unfold isUrlBlockable. fold exempt. split; [|split; [|split]].
  - by intros ->.
  - intros Hown%isOwnPage_isExtensionPage. unfold exempt.
    by rewrite Hown, orb_true_r.
  - intros ->. destruct (checkExclusions_glob u ps) as (b & -> & Hb).
    split; [|split; [|split]].
    + rewrite <- Hb. split; congruence.
    + rewrite <- Hb. destruct b; split; congruence.
    + intros Hu. split.
      * intros [= ->]. destruct Hb as [Hb _].
        destruct Hb as (p & Hp & Hg); [done|]. exists p. by rewrite GlobAny_line.
      * intros (p & Hp & Hg). f_equal. apply Hb. exists p. by rewrite <- GlobAny_line.
    + done.
  - intros Hid. split; [done|].
    assert (isExtensionPage runtime_id "http://example.com" = false) as Hext.
    { apply includes_short. rewrite Hid. simpl. lia. }
    unfold isChromeInternal, isNewTabPage, isWebPage. rewrite Hext. by vm_compute.
Qed.

Lemma isUrlBlockable_glob_witness :
  isUrlBlockable extensionId "http://example.com" ["*example.com*"] = Some false ∧
  ∃ p, p ∈ ["*example.com*"] ∧ GlobLine p "http://example.com".
Proof.
  destruct (isUrlBlockable_glob extensionId "http://example.com" ["*example.com*"])
    as (_ & _ & Hweb & Hsample).
  destruct Hsample as (_ & _ & Hfalse); [reflexivity|].
  split; [exact Hfalse|].
  destruct Hweb as (Hiff & _); [by vm_compute|]. by apply Hiff.
Defined.

(** C1: the answer is not the stated one for a web page whose URL has the
    extension's identifier in it.  [isExtensionPage] is
    [url.includes(chrome.runtime.id)], which holds of such a URL wherever
    the identifier stands.  An http or https URL that contains it is no
    page of the extension, nor chrome-internal, nor the new-tab page, so by
    C1 it is blockable unless a pattern matches it; yet it is reported not
    blockable under every list of patterns, the empty one included.  The
    pages of the extension do not need the test: none is a web page, so
    each is exempt by the last of the four tests already. *)
Theorem isUrlBlockable_id_in_url (runtime_id u : string) (ps : list string) :
  isWebPage u = true → isExtensionPage runtime_id u = true →
  (isChromeInternal u || isOwnPage runtime_id u || isNewTabPage u
     || negb (isWebPage u)) = false ∧
  isUrlBlockable runtime_id u ps = Some false ∧
  (∀ v, isOwnPage runtime_id v = true → isWebPage v = false).
Proof.
  intros Hweb Hid. split; [|split].
  - rewrite Hweb. unfold isWebPage in Hweb. destruct u as [|c u]; [done|].
    assert (c = "h"%char) as ->.
    { apply orb_true_iff in Hweb as [H|H]; cbn [startsWith] in H;
        apply andb_true_iff in H as [H%ceq_true _]; by subst. }
    reflexivity.
  - unfold isUrlBlockable. rewrite Hid. by rewrite orb_true_r.
  - intros [|c v] Hown; [done|]. unfold isOwnPage in Hown.
    assert (c = "c"%char) as ->.
    { change (startsWith (String c v)
                (String "c" ("hrome-extension://" +:+ runtime_id +:+ "/")) = true)
        in Hown.
      cbn [startsWith] in Hown.
      apply andb_true_iff in Hown as [H%ceq_true _]. by subst. }
    reflexivity.
Qed.

Lemma isUrlBlockable_id_in_url_witness :
  (isChromeInternal urlWithId || isOwnPage extensionId urlWithId
     || isNewTabPage urlWithId || negb (isWebPage urlWithId)) = false ∧
  isUrlBlockable extensionId urlWithId [] = Some false.
Proof.
  destruct (isUrlBlockable_id_in_url extensionId urlWithId [])
    as (Hclass & Hanswer & _).
  - reflexivity.
  - reflexivity.
  - split; [exact Hclass|exact Hanswer].
Defined.

End MatcherFacts.

(* ===================================================================== *)
(** ** Store and timer controller *)
(* ===================================================================== *)

Module StoreFacts.
Import Js Store.

Lemma setItems_nil (st : gmap string value) : setItems [] st = st.
Proof. reflexivity. Qed.

Lemma setItems_cons k v items (st : gmap string value) :
  setItems ((k, v) :: items) st = setItems items (<[k := v]> st).
Proof. reflexivity. Qed.

Lemma setItems_other items (st : gmap string value) k :
  k ∉ items.*1 → setItems items st !! k = st !! k.
Proof.
  revert st. induction items as [|[k' v'] items IH]; intros st Hk; [done|].
  rewrite setItems_cons. rewrite fmap_cons, not_elem_of_cons in Hk.
  destruct Hk as [Hne Hk]. rewrite IH by done. by rewrite lookup_insert_ne.
Qed.

Lemma setItems_written items (st : gmap string value) k v :
  NoDup items.*1 → (k, v) ∈ items → setItems items st !! k = Some v.
Proof.
  revert st. induction items as [|[k' v'] items IH]; intros st Hnd Hin.
  - by apply not_elem_of_nil in Hin.
  - rewrite fmap_cons in Hnd. apply NoDup_cons in Hnd as [Hk' Hnd].
    rewrite setItems_cons. apply elem_of_cons in Hin as [[= -> ->]|Hin].
    + rewrite setItems_other by done. apply lookup_insert_eq.
    + by apply IH.
Qed.

(** Writing the same items a second time changes nothing. *)
Lemma setItems_idemp items (st : gmap string value) :
  NoDup items.*1 → setItems items (setItems items st) = setItems items st.
Proof.
  intros Hnd. apply map_eq. intros k.
  destruct (decide (k ∈ items.*1)) as [Hin|Hout].
  - apply list_elem_of_fmap in Hin as ([k' v] & -> & Hin). simpl.
    by rewrite !(setItems_written _ _ _ v).
  - by rewrite !setItems_other.
Qed.

Lemma getItems_lookup keys (st : gmap string value) k :
  getItems keys st !! k = if decide (k ∈ keys) then st !! k else None.
Proof.
  unfold getItems. rewrite map_lookup_filter.
  destruct (st !! k) as [v|] eqn:Hk; simpl; [|by case_decide].
  case_decide; [by rewrite option_guard_True|by rewrite option_guard_False].
Qed.

End StoreFacts.

Module ModelFacts.
Import Js Store Model Terms StoreFacts.

Section WithPlatform.
Context {P : Platform}.

Lemma storageGet_asked keys e k :
  k ∈ keys → storageGet keys e !! k = storage e !! k.
Proof. intros Hk. unfold storageGet. rewrite getItems_lookup. by rewrite decide_True. Qed.

Lemma storageGet_not_asked keys e k :
  k ∉ keys → storageGet keys e !! k = None.
Proof. intros Hk. unfold storageGet. rewrite getItems_lookup. by rewrite decide_False. Qed.

Lemma Env_ext (e1 e2 : Env) :
  storage e1 = storage e2 → setCalls e1 = setCalls e2 →
  messages e1 = messages e2 → notifications e1 = notifications e2 →
  clock e1 = clock e2 → uuidsDrawn e1 = uuidsDrawn e2 →
  file e1 = file e2 → fileWrites e1 = fileWrites e2 →
  readPermission e1 = readPermission e2 →
  writePermission e1 = writePermission e2 →
  savedHandle e1 = savedHandle e2 → pickerChoice e1 = pickerChoice e2 →
  userGrants e1 = userGrants e2 → e1 = e2.
Proof. destruct e1, e2; simpl; intros; by subst. Qed.

Lemma storageSet_storage items e :
  storage (storageSet items e) = setItems items (storage e).
Proof. reflexivity. Qed.

Lemma storageSet_setCalls items e :
  setCalls (storageSet items e) = setCalls e ++ [items].
Proof. reflexivity. Qed.

Lemma storageSet_messages items e : messages (storageSet items e) = messages e.
Proof. reflexivity. Qed.

Lemma storageSet_clock items e : clock (storageSet items e) = clock e.
Proof. reflexivity. Qed.

Lemma storageSet_uuidsDrawn items e : uuidsDrawn (storageSet items e) = uuidsDrawn e.
Proof. reflexivity. Qed.

Lemma sendMessage_storage type e : storage (sendMessage type e) = storage e.
Proof. reflexivity. Qed.

Lemma sendMessage_messages type e :
  messages (sendMessage type e) = messages e ++ [type].
Proof. reflexivity. Qed.

Lemma setItems_one k v (st : gmap string value) :
  setItems [(k, v)] st = <[k := v]> st.
Proof. reflexivity. Qed.

Lemma endItems_storage e :
  storage (storageSet [(STORAGE_KEYS.TIMER_STATE, VStr TIMER_STATE.END)] e)
  = <[STORAGE_KEYS.TIMER_STATE := VStr TIMER_STATE.END]> (storage e).
Proof. reflexivity. Qed.

(** *** The three branches of [updateUI] *)

Lemma uiKeys_elem k :
  k ∈ uiKeys ↔ k = STORAGE_KEYS.TIMER_STATE ∨ k = STORAGE_KEYS.END_TIME
               ∨ k = STORAGE_KEYS.CURRENT_SUMMARY.
Proof. unfold uiKeys. rewrite !elem_of_cons, elem_of_nil. tauto. Qed.

Lemma uiResult e k :
  k ∈ uiKeys → storageGet uiKeys e !! k = storage e !! k.
Proof. apply storageGet_asked. Qed.

Lemma uiResult_note e : storageGet uiKeys e !! STORAGE_KEYS.CURRENT_NOTE = None.
Proof. apply storageGet_not_asked. rewrite uiKeys_elem. by intros [|[|]]. Qed.

Lemma updateUI_with_START f h e :
  storage e !! STORAGE_KEYS.TIMER_STATE = Some (VStr TIMER_STATE.START) →
  updateUI_with f (h, e) = (set_sections (shown true false false) (cleared h), e).
Proof.
  intros Hst. unfold updateUI_with. fold uiKeys.
  rewrite (uiResult e STORAGE_KEYS.TIMER_STATE), (uiResult e STORAGE_KEYS.END_TIME),
    (uiResult e STORAGE_KEYS.CURRENT_SUMMARY), uiResult_note, Hst
    by (apply uiKeys_elem; auto). reflexivity.
Qed.

Lemma updateUI_with_RUNNING f h e :
  storage e !! STORAGE_KEYS.TIMER_STATE = Some (VStr TIMER_STATE.RUNNING) →
  updateUI_with f (h, e) =
    f (storage e !! STORAGE_KEYS.END_TIME)
      (set_sections (shown false true false) (cleared h), e).
Proof.
  intros Hst. unfold updateUI_with. fold uiKeys.
  rewrite (uiResult e STORAGE_KEYS.TIMER_STATE), (uiResult e STORAGE_KEYS.END_TIME),
    (uiResult e STORAGE_KEYS.CURRENT_SUMMARY), uiResult_note, Hst
    by (apply uiKeys_elem; auto). reflexivity.
Qed.

Lemma updateUI_with_END f h e :
  storage e !! STORAGE_KEYS.TIMER_STATE = Some (VStr TIMER_STATE.END) →
  updateUI_with f (h, e) =
    (validateSummary
       (set_summaryInput (textOr (storage e !! STORAGE_KEYS.CURRENT_SUMMARY))
          (set_sections (shown false false true) (cleared h))), e).
Proof.
  intros Hst. unfold updateUI_with. fold uiKeys.
  rewrite (uiResult e STORAGE_KEYS.TIMER_STATE), (uiResult e STORAGE_KEYS.END_TIME),
    (uiResult e STORAGE_KEYS.CURRENT_SUMMARY), uiResult_note, Hst
    by (apply uiKeys_elem; auto). reflexivity.
Qed.

(** *** The reset and the knot *)

Lemma resetItems_keys :
  resetItems.*1 = [STORAGE_KEYS.TIMER_STATE; STORAGE_KEYS.END_TIME;
                   STORAGE_KEYS.DURATION; STORAGE_KEYS.SESSION_ID;
                   STORAGE_KEYS.CURRENT_SUMMARY].
Proof. reflexivity. Qed.

Lemma resetItems_NoDup : NoDup resetItems.*1.
Proof. apply (bool_decide_unpack (NoDup resetItems.*1)). by vm_compute. Qed.

Lemma reset_phase e :
  storage (storageSet resetItems e) !! STORAGE_KEYS.TIMER_STATE
  = Some (VStr TIMER_STATE.START).
Proof.
  rewrite storageSet_storage. apply setItems_written; [apply resetItems_NoDup|].
  unfold resetItems. set_solver.
Qed.

Lemma resetToStartState_with_any g h e :
  resetToStartState_with (updateUI_with g) (h, e) =
    (loadLogs (resetView h, storageSet resetItems e), storageSet resetItems e).
Proof.
  unfold resetToStartState_with.
  by rewrite (updateUI_with_START g _ _ (reset_phase e)).
Qed.

Lemma resetToStartState_eq h e :
  resetToStartState (h, e) =
    (loadLogs (resetView h, storageSet resetItems e), storageSet resetItems e).
Proof. apply resetToStartState_with_any. Qed.

(** The definitions satisfy the equations of the source: [updateUI] calls
    [startCountdown], which calls [resetToStartState], which calls
    [updateUI]. *)
Lemma updateUI_unfold s : updateUI s = updateUI_with startCountdown s.
Proof. reflexivity. Qed.

Lemma resetToStartState_unfold s :
  resetToStartState s = resetToStartState_with updateUI s.
Proof. reflexivity. Qed.

Lemma startCountdown_unfold endTimeISO s :
  startCountdown endTimeISO s =
    startCountdown_with resetToStartState endTimeISO s.
Proof.
  destruct s as [h e]. unfold startCountdown, startCountdown_with.
  destruct (newDate endTimeISO); [done|].
  unfold updateUI_start. by rewrite resetToStartState_eq, resetToStartState_with_any.
Qed.


(** *** What [validateSummary] leaves alone *)

Lemma validateSummary_fields h :
  let h' := validateSummary h in
  summaryInput h' = summaryInput h ∧ summarySync h' = Some (summaryInput h) ∧
  submitLogDisabled h' = negb (MIN_SUMMARY_WORDS <=? wordCount (summaryInput h)) ∧
  intervals h' = intervals h ∧ countdownInterval h' = countdownInterval h ∧
  nextTimerId h' = nextTimerId h ∧ sections h' = sections h ∧
  errorBox h' = errorBox h ∧ fileHandle h' = fileHandle h ∧
  noteInput h' = noteInput h ∧ pomoLog h' = pomoLog h ∧
  timerDisplay h' = timerDisplay h.
Proof. unfold validateSummary. by case_match. Qed.

(** *** What [loadLogs] leaves alone *)

Lemma loadLogs_fields s :
  let h' := loadLogs s in
  sections h' = sections s.1 ∧ summaryInput h' = summaryInput s.1 ∧
  submitLogDisabled h' = submitLogDisabled s.1 ∧
  summarySync h' = summarySync s.1 ∧
  intervals h' = intervals s.1 ∧ countdownInterval h' = countdownInterval s.1 ∧
  nextTimerId h' = nextTimerId s.1 ∧ fileHandle h' = fileHandle s.1.
Proof.
  destruct s as [h e]. unfold loadLogs, renderLogs. simpl.
  repeat (case_match; simpl; try done).
Qed.

(** [loadLogs] starts by hiding the error region, so a message shown
    before it is hidden afterwards, unless [loadLogs] has a fault of its
    own to show. *)
Lemma loadLogs_error s :
  let h' := loadLogs s in
  errorBox h' = {| errorHidden := true;
                   errorMessage := errorMessage (errorBox s.1) |} ∨
  errorBox h' = {| errorHidden := false; errorMessage := loadError |} ∨
  errorBox h' = {| errorHidden := false; errorMessage := deniedError |}.
Proof.
  destruct s as [h e]. unfold loadLogs, renderLogs. simpl.
  repeat (case_match; simpl; auto).
Qed.

(** *** Reset to START (C8) *)

(** C8: the reset writes START, a null end time, duration 0, a null
    session id and an empty summary, in one [set] call, whatever the
    phase was (END in particular).  Every other stored key, [excludedUrls]
    and [currentNote] among them, keeps its value, also once the pending
    debounced write of the emptied summary has run. *)
Theorem resetToStartState_frame (h : Home) (e : Env) :
  let e' := (resetToStartState (h, e)).2 in
  storage e' !! STORAGE_KEYS.TIMER_STATE = Some (VStr TIMER_STATE.START) ∧
  storage e' !! STORAGE_KEYS.END_TIME = Some VNull ∧
  storage e' !! STORAGE_KEYS.DURATION = Some (VNum 0) ∧
  storage e' !! STORAGE_KEYS.SESSION_ID = Some VNull ∧
  storage e' !! STORAGE_KEYS.CURRENT_SUMMARY = Some (VStr EmptyString) ∧
  (∀ k, k ∉ [STORAGE_KEYS.TIMER_STATE; STORAGE_KEYS.END_TIME;
             STORAGE_KEYS.DURATION; STORAGE_KEYS.SESSION_ID;
             STORAGE_KEYS.CURRENT_SUMMARY] →
        storage e' !! k = storage e !! k) ∧
  storage e' !! "excludedUrls" = storage e !! "excludedUrls" ∧
  storage e' !! STORAGE_KEYS.CURRENT_NOTE = storage e !! STORAGE_KEYS.CURRENT_NOTE ∧
  setCalls e' = setCalls e ++ [resetItems] ∧
  storage (flushSummarySync (resetToStartState (h, e))).2 = storage e'.
Proof.
  rewrite resetToStartState_eq. cbn [snd fst]. rewrite storageSet_storage.
  assert (∀ k, k ∉ resetItems.*1 →
            setItems resetItems (storage e) !! k = storage e !! k) as Hframe.
  { intros k Hk. by apply setItems_other. }
  repeat split.
  - apply setItems_written; [apply resetItems_NoDup|decide_in].
  - apply setItems_written; [apply resetItems_NoDup|decide_in].
  - apply setItems_written; [apply resetItems_NoDup|decide_in].
  - apply setItems_written; [apply resetItems_NoDup|decide_in].
  - apply setItems_written; [apply resetItems_NoDup|decide_in].
  - exact Hframe.
  - apply Hframe. apply (bool_decide_unpack _). by vm_compute.
  - apply Hframe. apply (bool_decide_unpack _). by vm_compute.
  - unfold flushSummarySync.
    destruct (loadLogs_fields (resetView h, storageSet resetItems e))
      as (_ & _ & _ & -> & _). simpl. apply insert_insert_eq.
Qed.


(** *** An end time that is no date (C9) *)

Lemma startCountdown_invalid endTimeISO h e :
  newDate endTimeISO = None →
  startCountdown endTimeISO (h, e) = resetToStartState (showError timerError h, e).
Proof.
  intros Hnan. rewrite startCountdown_unfold. unfold startCountdown_with.
  by rewrite Hnan.
Qed.

(** C9: with the phase RUNNING and a stored end time that is no valid
    date, [updateUI] starts no countdown (the interval timers of the page
    are as before), resets the store to START with the session fields
    cleared, and leaves the start section on display.  The error message
    it put in the error region does not stay visible: the reset reloads
    the log, and [loadLogs] begins by hiding the error region, which is
    shown afterwards only for a fault of the log file. *)
Theorem updateUI_invalid_endTime (h : Home) (e : Env) :
  storage e !! STORAGE_KEYS.TIMER_STATE = Some (VStr TIMER_STATE.RUNNING) →
  newDate (storage e !! STORAGE_KEYS.END_TIME) = None →
  let h' := (updateUI (h, e)).1 in
  let e' := (updateUI (h, e)).2 in
  e' = storageSet resetItems e ∧
  storage e' !! STORAGE_KEYS.TIMER_STATE = Some (VStr TIMER_STATE.START) ∧
  storage e' !! STORAGE_KEYS.END_TIME = Some VNull ∧
  storage e' !! STORAGE_KEYS.SESSION_ID = Some VNull ∧
  intervals h' = intervals h ∧
  countdownInterval h' = countdownInterval h ∧
  nextTimerId h' = nextTimerId h ∧
  sections h' = shown true false false ∧
  (errorBox h' = {| errorHidden := true; errorMessage := timerError |} ∨
   errorBox h' = {| errorHidden := false; errorMessage := loadError |} ∨
   errorBox h' = {| errorHidden := false; errorMessage := deniedError |}).
Proof.
  intros Hrun Hnan. rewrite updateUI_unfold, (updateUI_with_RUNNING _ _ _ Hrun).
  rewrite (startCountdown_invalid _ _ _ Hnan), resetToStartState_eq. cbn [fst snd].
  pose proof (loadLogs_fields
    (resetView (showError timerError (set_sections (shown false true false) (cleared h))),
     storageSet resetItems e)) as (Hs & _ & _ & _ & Hi & Hc & Hn & _).
  pose proof (loadLogs_error
    (resetView (showError timerError (set_sections (shown false true false) (cleared h))),
     storageSet resetItems e)) as Herr.
  cbn [fst snd] in *. rewrite storageSet_storage.
  repeat split.
  - apply setItems_written; [apply resetItems_NoDup|decide_in].
  - apply setItems_written; [apply resetItems_NoDup|decide_in].
  - apply setItems_written; [apply resetItems_NoDup|decide_in].
  - by rewrite Hi.
  - by rewrite Hc.
  - by rewrite Hn.
  - by rewrite Hs.
  - exact Herr.
Qed.

(** *** The countdown reaches zero (C3) *)

Lemma tick_expired id endTime h e :
  intervals h !! id = Some endTime → (endTime - clock e <= 0)%Z →
  tick id (h, e) =
    (finishedView (set_timerDisplay "00:00" (clearInterval (countdownInterval h) h))
       (storageSet endItems e),
     sendMessage "timerFinished" (storageSet endItems e)).
Proof.
  intros Hid Hle. unfold tick. rewrite Hid.
  destruct (Z.leb_spec (endTime - clock e) 0) as [_|]; [|lia].
  rewrite updateUI_unfold, updateUI_with_END; [done|].
  rewrite sendMessage_storage. unfold endItems.
  rewrite endItems_storage. apply lookup_insert_eq.
Qed.


(** C3: a tick that finds no time left cancels its interval, writes
    [timerState = "end"] and nothing else in one [set] call, and sends one
    [timerFinished] message; a cancelled interval does not run again.
    When a second page then expires too (at the same or a later clock),
    the store is what the first expiry left: the phase is still END and no
    key changes.  Of the shared state only the trace of [set] calls and
    the messages grow, by the duplicate write and the duplicate
    [timerFinished].  The pending debounced write of the summary shown in
    the END view writes back the stored summary. *)
Theorem tick_expiry_idempotent (hA hB : Home) (e : Env)
    (idA idB : nat) (endA endB later : Z) :
  ownTick hA → ownTick hB →
  intervals hA !! idA = Some endA → intervals hB !! idB = Some endB →
  (endA - clock e <= 0)%Z → (endB - later <= 0)%Z →
  let sA := tick idA (hA, e) in
  let sB := tick idB (hB, set_clock later sA.2) in
  (intervals sA.1 !! idA = None ∧ tick idA sA = sA) ∧
  sA.2 = sendMessage "timerFinished"
           (storageSet [(STORAGE_KEYS.TIMER_STATE, VStr TIMER_STATE.END)] e) ∧
  storage sA.2 !! STORAGE_KEYS.TIMER_STATE = Some (VStr TIMER_STATE.END) ∧
  (∀ k, k ≠ STORAGE_KEYS.TIMER_STATE → storage sA.2 !! k = storage e !! k) ∧
  (∀ text, storage e !! STORAGE_KEYS.CURRENT_SUMMARY = Some (VStr text) →
     storage (flushSummarySync sA).2 = storage sA.2) ∧
  intervals sB.1 !! idB = None ∧
  storage sB.2 = storage sA.2 ∧
  storage sB.2 !! STORAGE_KEYS.TIMER_STATE = Some (VStr TIMER_STATE.END) ∧
  sB.2 = set_messages (messages sA.2 ++ ["timerFinished"])
           (set_setCalls
              (setCalls sA.2 ++ [[(STORAGE_KEYS.TIMER_STATE, VStr TIMER_STATE.END)]])
              (set_clock later sA.2)).
Proof.
  intros HownA HownB HidA HidB HleA HleB sA sB.
  destruct (HownA _ _ HidA) as [HcA _]. destruct (HownB _ _ HidB) as [HcB _].
  assert (sA = tick idA (hA, e)) as HsA by done.
  rewrite (tick_expired _ _ _ _ HidA HleA), HcA in HsA.
  assert (sB = tick idB (hB, set_clock later sA.2)) as HsB by done.
  rewrite (tick_expired idB endB) in HsB by done. rewrite HcB in HsB.
  clearbody sA sB. subst sA sB. cbn [fst snd]. unfold endItems.
  assert (∀ h0 e0, intervals (finishedView h0 e0) = intervals h0) as Hint.
  { intros h0 e0. unfold finishedView.
    by destruct (validateSummary_fields
      (set_summaryInput (textOr (storage e0 !! STORAGE_KEYS.CURRENT_SUMMARY))
         (set_sections (shown false false true) (cleared h0))))
      as (_ & _ & _ & -> & _). }
  assert (∀ id h0 t, intervals (set_timerDisplay t (clearInterval (Some id) h0))
                     = delete id (intervals h0)) as Hclear by reflexivity.
  assert (∀ e0, storage (set_clock later e0) = storage e0) as Hclock by reflexivity.
  repeat first [rewrite Hint | rewrite Hclear | rewrite sendMessage_storage
               | rewrite endItems_storage | rewrite Hclock].
  split; [split|]; [| |repeat split].
  - apply lookup_delete_eq.
  - unfold tick. rewrite Hint, Hclear. by rewrite lookup_delete_eq.
  - apply lookup_insert_eq.
  - intros k Hk. by rewrite lookup_insert_ne.
  - intros text Htext. unfold flushSummarySync, finishedView.
    match goal with |- context [validateSummary ?x] =>
      destruct (validateSummary_fields x) as (_ & -> & _) end.
    cbn [fst snd]. rewrite storageSet_storage, setItems_one, sendMessage_storage,
      endItems_storage.
    assert (∀ t h0, summaryInput (set_summaryInput t h0) = t) as -> by reflexivity.
    rewrite lookup_insert_ne by done. rewrite Htext.
    apply insert_id. rewrite lookup_insert_ne by done. rewrite Htext.
    by destruct text.
  - apply lookup_delete_eq.
  - apply insert_insert_eq.
  - rewrite insert_insert_eq. apply lookup_insert_eq.
  - apply Env_ext; [|reflexivity..].
    assert (∀ x y e0, storage (set_messages x (set_setCalls y e0)) = storage e0)
      as -> by reflexivity.
    repeat first [rewrite sendMessage_storage | rewrite endItems_storage
                 | rewrite Hclock].
    apply insert_insert_eq.
Qed.


(** *** Starting a session (C2) *)

Lemma TimeClip_valid t : validTime t → TimeClip t = Some t.
Proof.
  unfold validTime, TimeClip. intros [H1 H2].
  destruct (Z.leb_spec (- maxTime) t); [|lia].
  destruct (Z.leb_spec t maxTime); [done|lia].
Qed.

Lemma TimeClip_Some t t' : TimeClip t = Some t' → t' = t ∧ validTime t.
Proof.
  unfold TimeClip, validTime.
  destruct (Z.leb_spec (- maxTime) t); [|done].
  destruct (Z.leb_spec t maxTime); [|done]. intros [= <-]. lia.
Qed.

Lemma newDate_valid `{!PlatformLaws P} v t : newDate v = Some t → validTime t.
Proof.
  destruct v as [[|n|s|l]|]; simpl; try done.
  - intros [= <-]. unfold validTime, maxTime. lia.
  - by intros [-> ?]%TimeClip_Some.
  - apply Date_parse_valid.
  - apply Date_parse_valid.
Qed.

Lemma startCountdown_valid endTimeISO endTime h e :
  newDate endTimeISO = Some endTime →
  ∃ h', startCountdown endTimeISO (h, e) = (h', e) ∧
        remaining h' e = Some (endTime - clock e)%Z ∧
        countdownInterval h' = Some (nextTimerId h) ∧
        intervals h' = <[ nextTimerId h := endTime ]>
                         (if countdownInterval h is Some id
                          then if (id =? 0)%nat then intervals h
                               else delete id (intervals h)
                          else intervals h).
Proof.
  intros Hdate. unfold startCountdown, startCountdown_with. rewrite Hdate.
  eexists. split; [reflexivity|]. unfold remaining, setInterval.
  destruct (countdownInterval h) as [id|]; [destruct (id =? 0)%nat|]; cbn;
    by rewrite lookup_insert_eq.
Qed.

(** A countdown that starts on a page with at most its own interval
    leaves the page with exactly the new one. *)
Lemma startCountdown_ownTick endTimeISO endTime h e :
  newDate endTimeISO = Some endTime → ownTick h → nextTimerId h ≠ 0 →
  ownTick (startCountdown endTimeISO (h, e)).1.
Proof.
  intros Hdate Hown Hnext.
  destruct (startCountdown_valid _ _ h e Hdate) as (h' & -> & _ & Hc & Hi).
  cbn [fst]. intros id t. rewrite Hi, Hc.
  assert ((if countdownInterval h is Some id0
           then if (id0 =? 0)%nat then intervals h else delete id0 (intervals h)
           else intervals h) = ∅) as ->.
  { apply map_empty. intros j.
    destruct (countdownInterval h) as [id0|] eqn:Hc0.
    - destruct (Nat.eqb_spec id0 0) as [->|Hne].
      + destruct (intervals h !! j) as [tj|] eqn:Hj; [|done].
        destruct (Hown _ _ Hj) as [Hcj Hj0]. rewrite Hc0 in Hcj. by injection Hcj as <-.
      + destruct (decide (j = id0)) as [->|Hj0]; [apply lookup_delete_eq|].
        rewrite lookup_delete_ne by done.
        destruct (intervals h !! j) as [tj|] eqn:Hj; [|done].
        destruct (Hown _ _ Hj) as [Hcj _]. rewrite Hc0 in Hcj. by injection Hcj as <-.
    - destruct (intervals h !! j) as [tj|] eqn:Hj; [|done].
      destruct (Hown _ _ Hj) as [Hcj _]. by rewrite Hc0 in Hcj. }
  intros [<- _]%lookup_singleton_Some. by split.
Qed.

Lemma updateUI_running_remaining h e endTime :
  storage e !! STORAGE_KEYS.TIMER_STATE = Some (VStr TIMER_STATE.RUNNING) →
  newDate (storage e !! STORAGE_KEYS.END_TIME) = Some endTime →
  (updateUI (h, e)).2 = e ∧
  remaining (updateUI (h, e)).1 e = Some (endTime - clock e)%Z.
Proof.
  intros Hrun Hdate. rewrite updateUI_unfold, (updateUI_with_RUNNING _ _ _ Hrun).
  edestruct startCountdown_valid as (h' & -> & Hrem & _); [exact Hdate|].
  split; [done|exact Hrem].
Qed.

Lemma startItems_NoDup endTime d sid : NoDup (startItems endTime d sid).*1.
Proof. apply (bool_decide_unpack _). by vm_compute. Qed.

(** C2: starting the timer with a duration of [d] minutes at the clock
    [now] makes one [set] call, which writes the phase RUNNING, the ISO
    string of [now + d] minutes as end time, the duration [d], a newly
    drawn session id and an empty summary, and keeps every other key.
    The new session id differs from the stored one.  The page that
    started the timer counts down from [d] minutes, and any page that
    reads the store later (after a restart, say) computes the time left
    from the stored end time alone: at a clock [t] it is
    [now + d min - t] on every page.  This holds for every duration whose
    end time is a valid date, hence for 1, 25, 35, 45 and 55. *)
Theorem startTimer_running `{!PlatformLaws P} (d : Z) (h : Home) (e : Env) :
  validTime (clock e + d * 60 * 1000) →
  sessionKnown e →
  let endTime := (clock e + d * 60 * 1000)%Z in
  let sessionId := randomUUID (uuidsDrawn e) in
  let e' := storageSet (startItems endTime d sessionId)
              (set_uuidsDrawn (S (uuidsDrawn e)) e) in
  ∃ h', startTimer d (h, e) = Some (h', e') ∧
    setCalls e' = setCalls e ++ [startItems endTime d sessionId] ∧
    storage e' !! STORAGE_KEYS.TIMER_STATE = Some (VStr TIMER_STATE.RUNNING) ∧
    storage e' !! STORAGE_KEYS.END_TIME = Some (VStr (Date_toISOString endTime)) ∧
    newDate (storage e' !! STORAGE_KEYS.END_TIME) = Some endTime ∧
    storage e' !! STORAGE_KEYS.DURATION = Some (VNum d) ∧
    storage e' !! STORAGE_KEYS.SESSION_ID = Some (VStr sessionId) ∧
    storage e' !! STORAGE_KEYS.SESSION_ID ≠ storage e !! STORAGE_KEYS.SESSION_ID ∧
    storage e' !! STORAGE_KEYS.CURRENT_SUMMARY = Some (VStr EmptyString) ∧
    (∀ k, k ∉ (startItems endTime d sessionId).*1 →
          storage e' !! k = storage e !! k) ∧
    sessionKnown e' ∧
    remaining h' e' = Some (d * 60 * 1000)%Z ∧
    (∀ h2 e2, storage e2 = storage e' →
       remaining (updateUI (h2, e2)).1 e2 = Some (endTime - clock e2)%Z).
Proof.
  intros Hvalid Hknown endTime sessionId e'.
  assert (∀ k v, (k, v) ∈ startItems endTime d sessionId →
            storage e' !! k = Some v) as Hw.
  { intros k v Hin. unfold e'. rewrite storageSet_storage.
    by apply setItems_written; [apply startItems_NoDup|]. }
  assert (storage e' !! STORAGE_KEYS.TIMER_STATE = Some (VStr TIMER_STATE.RUNNING))
    as Hrun by (apply Hw; unfold startItems; apply list_elem_of_here).
  assert (storage e' !! STORAGE_KEYS.END_TIME
          = Some (VStr (Date_toISOString endTime))) as Hend.
  { apply Hw. unfold startItems. apply list_elem_of_further, list_elem_of_here. }
  assert (storage e' !! STORAGE_KEYS.SESSION_ID = Some (VStr sessionId)) as Hsid.
  { apply Hw. unfold startItems. do 3 apply list_elem_of_further. apply list_elem_of_here. }
  assert (newDate (storage e' !! STORAGE_KEYS.END_TIME) = Some endTime) as Hdate.
  { rewrite Hend. unfold newDate. by apply Date_parse_toISOString. }
  destruct (updateUI_running_remaining h e' endTime Hrun Hdate) as [He' Hrem].
  exists (updateUI (h, e')).1. split; [|repeat split].
  - unfold startTimer. rewrite (TimeClip_valid _ Hvalid).
    change (toISOString (Some (clock e + d * 60 * 1000)%Z) ≫= _)
      with (Some (updateUI (h, e'))).
    by rewrite (surjective_pairing (updateUI (h, e'))), He'.
  - exact Hrun.
  - exact Hend.
  - exact Hdate.
  - apply Hw. unfold startItems. do 2 apply list_elem_of_further. apply list_elem_of_here.
  - exact Hsid.
  - rewrite Hsid. intros Heq. symmetry in Heq.
    destruct (Hknown _ Heq) as (k & Hlt & Hk).
    apply randomUUID_inj in Hk. lia.
  - apply Hw. unfold startItems. do 4 apply list_elem_of_further. apply list_elem_of_here.
  - intros k Hk. unfold e'. rewrite storageSet_storage. by apply setItems_other.
  - intros s Hs. rewrite Hsid in Hs. injection Hs as <-.
    exists (uuidsDrawn e). split; [|done]. unfold e'. rewrite storageSet_uuidsDrawn.
    change (uuidsDrawn (set_uuidsDrawn _ e)) with (S (uuidsDrawn e)). lia.
  - rewrite Hrem. f_equal. unfold endTime, e'.
    rewrite storageSet_clock. change (clock (set_uuidsDrawn _ e)) with (clock e). lia.
  - intros h2 e2 Hst.
    apply updateUI_running_remaining; by rewrite Hst.
Qed.


(** *** The interval invariant

    A page holds at most the interval its [countdownInterval] field
    names, and never hands out the id 0.  Every handler that touches the
    interval timers keeps this. *)

Lemma pageInv_same h h' :
  intervals h' = intervals h → countdownInterval h' = countdownInterval h →
  nextTimerId h' = nextTimerId h → pageInv h → pageInv h'.
Proof. unfold pageInv, ownTick. by intros -> -> ->. Qed.

Lemma pageInv_resetToStartState h e :
  pageInv h → pageInv (resetToStartState (h, e)).1.
Proof.
  rewrite resetToStartState_eq. cbn [fst].
  destruct (loadLogs_fields (resetView h, storageSet resetItems e))
    as (_ & _ & _ & _ & Hi & Hc & Hn & _). cbn [fst] in *.
  destruct (validateSummary_fields (set_summaryInput EmptyString h))
    as (_ & _ & _ & Hi' & Hc' & Hn' & _).
  apply pageInv_same.
  - rewrite Hi. unfold resetView. exact Hi'.
  - rewrite Hc. unfold resetView. exact Hc'.
  - rewrite Hn. unfold resetView. exact Hn'.
Qed.

Lemma pageInv_startCountdown endTimeISO h e :
  pageInv h → pageInv (startCountdown endTimeISO (h, e)).1.
Proof.
  intros [Hown Hnext]. destruct (newDate endTimeISO) as [endTime|] eqn:Hdate.
  - split; [by eapply startCountdown_ownTick|].
    unfold startCountdown, startCountdown_with. rewrite Hdate.
    by destruct (countdownInterval h) as [id|]; [destruct (id =? 0)%nat|].
  - rewrite (startCountdown_invalid _ _ _ Hdate).
    by apply pageInv_resetToStartState.
Qed.

Lemma pageInv_updateUI h e : pageInv h → pageInv (updateUI (h, e)).1.
Proof.
  intros Hinv. rewrite updateUI_unfold. unfold updateUI_with.
  repeat case_match; cbn [fst]; try done.
  - by apply pageInv_startCountdown.
  - match goal with |- pageInv (validateSummary ?x) =>
      destruct (validateSummary_fields x) as (_ & _ & _ & Hi & Hc & Hn & _) end.
    by apply (pageInv_same h).
Qed.

Lemma pageInv_tick id h e : pageInv h → pageInv (tick id (h, e)).1.
Proof.
  intros Hinv. unfold tick.
  destruct (intervals h !! id) as [endTime|] eqn:Hid; [|done].
  destruct (endTime - clock e <=? 0)%Z; [|done].
  apply pageInv_updateUI. destruct Hinv as [Hown Hnext].
  destruct (countdownInterval h) as [c|] eqn:Hc; (split; [|done]); intros j t.
  - change (delete c (intervals h) !! j = Some t →
            countdownInterval h = Some j ∧ j ≠ 0).
    intros [_ Hj]%lookup_delete_Some. by eapply Hown.
  - change (intervals h !! j = Some t → countdownInterval h = Some j ∧ j ≠ 0).
    apply Hown.
Qed.

Lemma pageInv_startTimer d h e s' :
  pageInv h → startTimer d (h, e) = Some s' → pageInv s'.1.
Proof.
  intros Hinv. unfold startTimer.
  destruct (toISOString (TimeClip (clock e + d * 60 * 1000))) as [iso|]; [|done].
  intros Heq. apply (f_equal (from_option fst h)) in Heq.
  cbn [mbind option_bind from_option] in Heq. rewrite <- Heq.
  by apply pageInv_updateUI.
Qed.

End WithPlatform.
End ModelFacts.

(* ===================================================================== *)
(** ** Summary gate *)
(* ===================================================================== *)

Module SummaryFacts.
Import Js Store Model Terms StoreFacts ModelFacts.

Lemma splitSpaces_go_tokens s :
  nonEmptyPieces (splitSpaces_go true s) = tokens_go false s ∧
  ∃ p ps, splitSpaces_go false s = p :: ps ∧
          nonEmptyPieces ps = tokens_go true s ∧
          isEmpty p = negb (startsToken s).
Proof.
  induction s as [|c s [IH1 (p & ps & IH2 & IH3 & IH4)]]; simpl.
  - split; [done|]. by exists EmptyString, [].
  - destruct (isWhiteSpace c) eqn:Hc; simpl.
    + split; [done|]. by exists EmptyString, (splitSpaces_go true s).
    + rewrite IH2. split.
      * unfold nonEmptyPieces in *. simpl. by rewrite IH3.
      * by exists (String c p), ps.
Qed.

Lemma tokens_go_start s :
  tokens_go false s = (if startsToken s then 1 else 0) + tokens_go true s.
Proof. destruct s as [|c s]; simpl; [done|]. by destruct (isWhiteSpace c). Qed.

Lemma splitSpaces_tokens s : nonEmptyPieces (splitSpaces s) = countTokens s.
Proof.
  destruct (splitSpaces_go_tokens s) as [_ (p & ps & Hs & Hps & Hp)].
  unfold splitSpaces, countTokens. rewrite Hs, tokens_go_start.
  unfold nonEmptyPieces in *. simpl. rewrite Hp, negb_involutive.
  destruct (startsToken s); simpl; by rewrite Hps.
Qed.

Lemma tokens_trimStart s : tokens_go false (trimStart s) = tokens_go false s.
Proof. induction s as [|c s IH]; simpl; [done|]. by destruct (isWhiteSpace c) eqn:Hc; simpl; rewrite ?Hc. Qed.

Lemma tokens_trimEnd b s : tokens_go b (trimEnd s) = tokens_go b s.
Proof.
  revert b. induction s as [|c s IH]; intros b; simpl; [done|].
  destruct (isWhiteSpace c) eqn:Hc; simpl.
  - rewrite <- (IH false). destruct (trimEnd s); simpl; [done|]. by rewrite Hc.
  - by rewrite Hc, IH.
Qed.

Lemma tokens_trim s : countTokens (trim s) = countTokens s.
Proof. unfold countTokens, trim. by rewrite tokens_trimEnd, tokens_trimStart. Qed.

(** The count of the source is the number of tokens. *)
Lemma wordCount_tokens text : wordCount text = countTokens text.
Proof. unfold wordCount. fold (nonEmptyPieces (splitSpaces (trim text))). by rewrite splitSpaces_tokens, tokens_trim. Qed.

Lemma trimStart_head s : trimStart s = EmptyString ∨ startsToken (trimStart s) = true.
Proof.
  induction s as [|c s IH]; simpl; [by left|].
  destruct (isWhiteSpace c) eqn:Hc; [done|]. right. simpl. by rewrite Hc.
Qed.

Lemma trimEnd_head s : startsToken s = true → startsToken (trimEnd s) = true.
Proof.
  destruct s as [|c s]; simpl; [done|]. intros Hc%negb_true_iff.
  rewrite Hc. simpl. by rewrite Hc.
Qed.

(** A text trims to the empty string exactly when it has no token. *)
Lemma trim_empty_tokens s : trim s = EmptyString ↔ countTokens s = 0.
Proof.
  rewrite <- tokens_trim. split; [by intros ->|].
  unfold trim. destruct (trimStart_head s) as [->|Hhead]; [done|].
  apply trimEnd_head in Hhead. destruct (trimEnd (trimStart s)) as [|c r]; [done|].
  unfold countTokens. simpl in *. apply negb_true_iff in Hhead. rewrite Hhead. done.
Qed.


Section WithPlatform.
Context {P : Platform}.

Lemma validateSummary_gate h : gateConsistent (validateSummary h).
Proof.
  unfold gateConsistent.
  destruct (validateSummary_fields h) as (-> & _ & -> & _).
  by rewrite wordCount_tokens.
Qed.

Lemma loadLogs_gate h e : gateConsistent h → gateConsistent (loadLogs (h, e)).
Proof.
  unfold gateConsistent.
  by destruct (loadLogs_fields (h, e)) as (_ & -> & -> & _).
Qed.

Lemma resetToStartState_gate h e : gateConsistent (resetToStartState (h, e)).1.
Proof.
  rewrite resetToStartState_eq. cbn [fst]. apply loadLogs_gate.
  unfold resetView, gateConsistent. cbn.
  apply (validateSummary_gate (set_summaryInput EmptyString h)).
Qed.

Lemma startCountdown_gate v h e :
  gateConsistent h → gateConsistent (startCountdown v (h, e)).1.
Proof.
  intros Hg. destruct (newDate v) as [t|] eqn:Hv.
  - unfold startCountdown, startCountdown_with. rewrite Hv.
    unfold gateConsistent in *. cbn.
    by destruct (countdownInterval h) as [id|]; [destruct (id =? 0)%nat|].
  - rewrite (startCountdown_invalid _ _ _ Hv). apply resetToStartState_gate.
Qed.

Lemma updateUI_gate h e : gateConsistent h → gateConsistent (updateUI (h, e)).1.
Proof.
  intros Hg. rewrite updateUI_unfold. unfold updateUI_with.
  repeat case_match; cbn [fst]; try done.
  - apply startCountdown_gate. done.
  - apply validateSummary_gate.
Qed.

(** Every storage notification leaves the gate consistent. *)
Lemma handleStorageChange_gate changes namespace h e :
  gateConsistent h →
  gateConsistent (handleStorageChange changes namespace (h, e)).1.
Proof.
  intros Hg. unfold handleStorageChange.
  destruct (negb (String.eqb namespace "local")); [done|].
  set (h1 := match changes !! STORAGE_KEYS.CURRENT_SUMMARY with
             | Some ch => _ | None => h end).
  assert (gateConsistent h1) as Hg1.
  { unfold h1. repeat case_match; try done. apply validateSummary_gate. }
  clearbody h1.
  set (h2 := match changes !! STORAGE_KEYS.CURRENT_NOTE with
             | Some ch => _ | None => h1 end).
  assert (gateConsistent h2) as Hg2.
  { unfold h2. repeat case_match; done. }
  clearbody h2.
  destruct (changes !! STORAGE_KEYS.TIMER_STATE); [|done].
  pose proof (updateUI_gate h2 e Hg2) as Hu.
  destruct (updateUI (h2, e)) as [h3 e3]. cbn [fst] in Hu.
  case_match; [|done]. by apply loadLogs_gate.
Qed.

(** A notification that carries a new summary text and no phase. *)
Lemma handleStorageChange_summary changes ch text h e :
  changes !! STORAGE_KEYS.CURRENT_SUMMARY = Some ch →
  newValue ch = Some (VStr text) →
  changes !! STORAGE_KEYS.TIMER_STATE = None →
  ∃ h', handleStorageChange changes "local" (h, e) = (h', e) ∧
    summaryInput h' =
      (if decide (summaryInput h = text) then summaryInput h else text) ∧
    submitLogDisabled h' =
      (if decide (summaryInput h = text) then submitLogDisabled h
       else submitLogDisabled (validateSummary (set_summaryInput text h))).
Proof.
  intros Hch Hnew Hphase. unfold handleStorageChange.
  change (negb (String.eqb "local" "local")) with false. cbv iota.
  rewrite Hch, Hnew, Hphase.
  assert (orEmpty (Some (VStr text)) = VStr text) as -> by by destruct text.
  change (toString (VStr text)) with text.
  set (h1 := if negb (bool_decide (VStr (summaryInput h) = VStr text))
             then validateSummary (set_summaryInput text h) else h).
  assert (summaryInput h1 =
            (if decide (summaryInput h = text) then summaryInput h else text) ∧
          submitLogDisabled h1 =
            (if decide (summaryInput h = text) then submitLogDisabled h
             else submitLogDisabled (validateSummary (set_summaryInput text h))))
    as [Hin Hdis].
  { unfold h1. case_decide as Htext.
    - rewrite bool_decide_eq_true_2 by (by rewrite Htext). done.
    - rewrite bool_decide_eq_false_2 by (intros [= ?]; done). cbn [negb].
      by destruct (validateSummary_fields (set_summaryInput text h)) as (-> & _). }
  clearbody h1. eexists. split; [reflexivity|].
  destruct (changes !! STORAGE_KEYS.CURRENT_NOTE) as [c|]; [|done].
  by destruct (negb (bool_decide (VStr (noteInput h1) = orEmpty (newValue c)))).
Qed.

(** C7: after an edit of the summary the submit control is enabled
    exactly when the text has at least 50 white-space-delimited tokens,
    so 49 tokens disable it and 50 enable it.  A storage notification of
    the [local] area that carries a new summary text puts that text in the
    field and leaves the control as the same edit made locally would;
    a notification of another area is ignored. *)
Theorem summary_gate (text : string) (h : Home) (e : Env)
    (changes : gmap string change) (ch : change) :
  let edited := summaryInputEvent text h in
  (submitLogDisabled edited = false ↔ 50 ≤ countTokens text) ∧
  (countTokens text = 49 → submitLogDisabled edited = true) ∧
  (countTokens text = 50 → submitLogDisabled edited = false) ∧
  (gateConsistent h →
   changes !! STORAGE_KEYS.CURRENT_SUMMARY = Some ch →
   newValue ch = Some (VStr text) →
   changes !! STORAGE_KEYS.TIMER_STATE = None →
   let synced := (handleStorageChange changes "local" (h, e)).1 in
   summaryInput synced = text ∧
   submitLogDisabled synced = submitLogDisabled edited ∧
   handleStorageChange changes "sync" (h, e) = (h, e)).
Proof.
  intros edited.
  assert (submitLogDisabled edited = negb (50 <=? countTokens text)) as Hedit.
  { unfold edited, summaryInputEvent.
    destruct (validateSummary_fields (set_summaryInput text h)) as (_ & _ & -> & _).
    by rewrite wordCount_tokens. }
  split; [|split; [|split]].
  - rewrite Hedit, negb_false_iff. apply Nat.leb_le.
  - intros H49. by rewrite Hedit, H49.
  - intros H50. by rewrite Hedit, H50.
  - intros Hg Hch Hnew Hphase synced.
    destruct (handleStorageChange_summary changes ch text h e Hch Hnew Hphase)
      as (h1 & Heq & Hin & Hdis).
    unfold synced. rewrite Heq. cbn [fst]. split; [|split; [|done]].
    + rewrite Hin. by case_decide.
    + rewrite Hdis, Hedit. case_decide as Htext.
      * rewrite Hg. by rewrite Htext.
      * destruct (validateSummary_fields (set_summaryInput text h)) as (_ & _ & -> & _).
        by rewrite wordCount_tokens.
Qed.

End WithPlatform.

End SummaryFacts.

(* ===================================================================== *)
(** ** Session log *)
(* ===================================================================== *)

Module LogFacts.
Import Js Store Model Terms MatcherFacts StoreFacts ModelFacts SummaryFacts.

(** *** Lines *)

Lemma sapp_assoc (s t u : string) : (s +:+ t) +:+ u = s +:+ (t +:+ u).
Proof. induction s as [|c s IH]; [done|]. by rewrite !app_cons, IH. Qed.

Lemma hasLF_cons c s : hasLF (String c s) = ceq LF c || hasLF s.
Proof.
  unfold hasLF, newline. unfold includes at 1. fold includes.
  change (startsWith (String c s) (String LF EmptyString))
    with (ceq LF c && startsWith s EmptyString).
  destruct s; by rewrite andb_true_r.
Qed.

Lemma ceq_sym a b : ceq a b = ceq b a.
Proof. apply Ascii.eqb_sym. Qed.

Lemma splitLines_nonempty s : splitLines s ≠ [].
Proof. destruct s as [|c s]; simpl; [done|]. by destruct (ceq c LF), (splitLines s). Qed.

Lemma splitLines_line s : hasLF s = false → splitLines s = [s].
Proof.
  induction s as [|c s IH]; [done|]. rewrite hasLF_cons.
  intros [Hc Hs]%orb_false_iff. simpl. rewrite ceq_sym, Hc. by rewrite IH.
Qed.

Lemma splitLines_app s t :
  hasLF s = false → splitLines (s +:+ String LF t) = s :: splitLines t.
Proof.
  induction s as [|c s IH].
  - intros _. by rewrite app_empty.
  - rewrite hasLF_cons. intros [Hc Hs]%orb_false_iff.
    rewrite app_cons. simpl. rewrite ceq_sym, Hc. by rewrite IH.
Qed.

Lemma splitLines_joinWith lines :
  lines ≠ [] → Forall (λ s, hasLF s = false) lines →
  splitLines (joinWith LF lines) = lines.
Proof.
  induction lines as [|s [|t lines] IH]; intros Hne Hall; [done|..].
  - simpl. apply splitLines_line. by inversion Hall.
  - change (joinWith LF (s :: t :: lines))
      with (s +:+ String LF (joinWith LF (t :: lines))).
    inversion Hall; subst. rewrite splitLines_app by done. by rewrite IH.
Qed.

Lemma joinWith_snoc lines s :
  joinWith LF (lines ++ [s]) =
    match lines with
    | [] => s
    | _ => joinWith LF lines +:+ String LF s
    end.
Proof.
  induction lines as [|t [|u lines] IH]; [done..|].
  change (joinWith LF ((t :: u :: lines) ++ [s]))
    with (t +:+ String LF (joinWith LF ((u :: lines) ++ [s]))).
  rewrite IH.
  change (joinWith LF (t :: u :: lines))
    with (t +:+ String LF (joinWith LF (u :: lines))).
  by rewrite sapp_assoc, app_cons.
Qed.

(** *** Trimming text that is wrapped in braces *)

Lemma trimEnd_nonspace s c :
  isWhiteSpace c = false →
  trimEnd (s +:+ String c EmptyString) = s +:+ String c EmptyString.
Proof.
  intros Hc. induction s as [|a s IH].
  - rewrite app_empty. simpl. by rewrite Hc.
  - rewrite app_cons. simpl. rewrite IH.
    destruct s; rewrite ?app_empty, ?app_cons; simpl; by rewrite andb_false_r.
Qed.

Lemma trim_braced s : braced s → trim s = s.
Proof.
  intros [body ->]. unfold trim. simpl trimStart.
  change (String "{" (body +:+ "}")) with (String "{" body +:+ String "}" EmptyString).
  by apply trimEnd_nonspace.
Qed.

Lemma braced_isEmpty s : braced s → isEmpty s = false.
Proof. by intros [body ->]. Qed.

Lemma braced_nonempty s : braced s → (0 <? len s)%nat = true.
Proof. by intros [body ->]. Qed.

Lemma braced_join lines :
  lines ≠ [] → Forall braced lines → braced (joinWith LF lines).
Proof.
  induction lines as [|s [|t lines] IH]; intros Hne Hall; [done|..].
  - by inversion Hall.
  - change (joinWith LF (s :: t :: lines))
      with (s +:+ String LF (joinWith LF (t :: lines))).
    inversion Hall as [|? ? [b ->] Hall']; subst.
    destruct IH as [b' ->]; [done..|].
    exists (b +:+ "}" +:+ String LF (String "{" b')).
    rewrite !app_cons. f_equal. rewrite !sapp_assoc. by rewrite !app_cons, ?app_empty.
Qed.


(** *** Objects *)

Lemma getProp_setProp key v obj : getProp key (setProp key v obj) = Some v.
Proof.
  induction obj as [|[k w] obj IH]; simpl.
  - by rewrite String.eqb_refl.
  - destruct (String.eqb k key) eqn:Hk; simpl; by rewrite Hk.
Qed.

Lemma getProp_setProp_ne key key' v obj :
  key' ≠ key → getProp key' (setProp key v obj) = getProp key' obj.
Proof.
  intros Hne.
  assert (String.eqb key key' = false) as Hneq by (apply String.eqb_neq; congruence).
  induction obj as [|[k w] obj IH]; simpl.
  - by rewrite Hneq.
  - destruct (String.eqb k key) eqn:Hk; simpl; [|by rewrite IH].
    apply String.eqb_eq in Hk as ->. by rewrite Hneq.
Qed.

(** *** Sorting by end time *)

Section Sorting.
Context {A : Type} (key : A → Z).

Lemma insertSorted_perm cmp (x : A) l : insertSorted cmp x l ≡ₚ x :: l.
Proof.
  induction l as [|y l IH]; simpl; [done|].
  destruct (cmp x y <=? 0)%Z; [done|]. rewrite IH. apply Permutation_swap.
Qed.

Lemma sort_perm cmp (l : list A) : sort cmp l ≡ₚ l.
Proof.
  induction l as [|x l IH]; simpl; [done|].
  rewrite insertSorted_perm. by rewrite IH.
Qed.

Lemma insertSorted_sorted x l :
  StronglySorted (descending key) l →
  StronglySorted (descending key) (insertSorted (byKeyDesc key) x l).
Proof.
  induction 1 as [|y l Hl IH Hy]; simpl.
  - by repeat constructor.
  - unfold byKeyDesc at 1. destruct (Z.leb_spec (key y - key x) 0) as [Hle|Hgt].
    + constructor; [by constructor|]. constructor; [unfold descending; lia|].
      eapply Forall_impl; [exact Hy|]. unfold descending. intros; lia.
    + constructor; [done|]. rewrite insertSorted_perm.
      constructor; [unfold descending; lia|done].
Qed.

Lemma sort_sorted (l : list A) : StronglySorted (descending key) (sort (byKeyDesc key) l).
Proof.
  induction l as [|x l IH]; simpl; [constructor|]. by apply insertSorted_sorted.
Qed.

Lemma insertSorted_ext cmp cmp' (x : A) l :
  (∀ y, y ∈ l → cmp x y = cmp' x y) →
  insertSorted cmp x l = insertSorted cmp' x l.
Proof.
  induction l as [|y l IH]; intros Hext; simpl; [done|].
  rewrite Hext by left. rewrite IH; [done|]. intros z Hz. apply Hext. by right.
Qed.

Lemma sort_ext cmp cmp' (l : list A) :
  (∀ x y, x ∈ l → y ∈ l → cmp x y = cmp' x y) →
  sort cmp l = sort cmp' l.
Proof.
  induction l as [|x l IH]; intros Hext; simpl; [done|].
  rewrite IH by (intros; apply Hext; by right).
  apply insertSorted_ext. intros y Hy. apply Hext; [left|right].
  by rewrite sort_perm in Hy.
Qed.

End Sorting.


Section WithPlatform.
Context {P : Platform}.

(** *** Appending and reading back (C6) *)

Lemma appendLogToFile_bound logEntry h e oldContent :
  bound h e → file e = Some oldContent →
  appendLogToFile logEntry (h, e) = (h, writeFile (appended oldContent logEntry) e).
Proof.
  intros (Hh & Hr & Hw) Hf. unfold appendLogToFile. rewrite Hh.
  unfold requestReadWrite. rewrite Hw, Hw. unfold getFile. by rewrite Hr, Hf.
Qed.

Lemma writeFile_file content e : file (writeFile content e) = Some content.
Proof. reflexivity. Qed.

Lemma writeFile_bound h e content : bound h e → bound h (writeFile content e).
Proof. by intros (? & ? & ?). Qed.

Lemma stringify_braced `{!PlatformLaws P} obj : braced (JSON_stringify obj).
Proof. apply JSON_stringify_braces. Qed.

Lemma lines_braced `{!PlatformLaws P} entries : Forall braced (JSON_stringify <$> entries).
Proof. apply Forall_fmap, Forall_forall. intros. apply stringify_braced. Qed.

Lemma lines_single `{!PlatformLaws P} entries :
  Forall (λ s, hasLF s = false) (JSON_stringify <$> entries).
Proof. apply Forall_fmap, Forall_forall. intros. apply JSON_stringify_line. Qed.

Lemma appended_join `{!PlatformLaws P} written logEntry :
  appended (joinWith LF (JSON_stringify <$> written)) logEntry
  = joinWith LF (JSON_stringify <$> (written ++ [logEntry])).
Proof.
  unfold appended. rewrite fmap_app.
  change (JSON_stringify <$> [logEntry]) with [JSON_stringify logEntry].
  rewrite joinWith_snoc.
  destruct written as [|x written]; [done|].
  rewrite braced_nonempty by (apply braced_join; [done|apply lines_braced]).
  reflexivity.
Qed.

Lemma appendAll_file `{!PlatformLaws P} entries written h e :
  bound h e → file e = Some (joinWith LF (JSON_stringify <$> written)) →
  ∃ e', appendAll entries (h, e) = (h, e') ∧ bound h e' ∧
        file e' = Some (joinWith LF (JSON_stringify <$> (written ++ entries))) ∧
        storage e' = storage e.
Proof.
  revert written e. induction entries as [|x entries IH]; intros written e Hb Hf.
  - exists e. by rewrite app_nil_r.
  - change (appendAll (x :: entries) (h, e))
      with (appendAll entries (appendLogToFile x (h, e))).
    rewrite (appendLogToFile_bound _ _ _ _ Hb Hf).
    edestruct (IH (written ++ [x])
                 (writeFile (appended (joinWith LF (JSON_stringify <$> written)) x) e))
      as (e' & He' & Hb' & Hf' & Hs');
      [apply writeFile_bound, Hb|by rewrite writeFile_file, appended_join|].
    exists e'. rewrite <- app_assoc in Hf'. done.
Qed.

Lemma mapM_parse `{!PlatformLaws P} entries :
  Forall wfObject entries →
  mapM JSON_parse (JSON_stringify <$> entries) = Some entries.
Proof.
  intros Hwf. apply mapM_Some, Forall2_fmap_l, Forall_Forall2_diag.
  eapply Forall_impl; [exact Hwf|]. intros obj. apply JSON_parse_stringify.
Qed.

Lemma loadLogs_bound h e content :
  bound h e → file e = Some content →
  loadLogs (h, e) =
    let h0 := hideError (set_pomoLog LogCleared h) in
    if isEmpty (trim content) then set_pomoLog LogNoEntries h0
    else match mapM JSON_parse (splitLines (trim content)) with
         | None => showError loadError h0
         | Some logEntries => renderLogs (sort byEndTimeDesc logEntries) h0
         end.
Proof.
  intros (Hh & Hr & Hw) Hf. unfold loadLogs.
  change (fileHandle (hideError (set_pomoLog LogCleared h))) with (fileHandle h).
  unfold getFile. by rewrite Hh, Hr, Hf.
Qed.

Lemma byEndTimeDesc_key a b :
  is_Some (newDate (getProp "end_time" a)) →
  is_Some (newDate (getProp "end_time" b)) →
  byEndTimeDesc a b = byKeyDesc endMs a b.
Proof. intros [ta Ha] [tb Hb]. unfold byEndTimeDesc, byKeyDesc, endMs. by rewrite Ha, Hb. Qed.

(** C6: starting from an empty log file that the page may read and
    write, appending [N] entries leaves the file with one JSON line per
    entry, separated by line feeds with none before the first line.
    [loadLogs] then shows exactly these [N] entries, each parsed from its
    line, ordered by end time with the most recent first (for [N = 0] it
    shows that no entry is logged). *)
Theorem loadLogs_after_appends `{!PlatformLaws P}
    (h : Home) (e : Env) (entries : list object) :
  bound h e → file e = Some EmptyString →
  Forall wfObject entries →
  Forall (λ entry, is_Some (newDate (getProp "end_time" entry))) entries →
  let s' := appendAll entries (h, e) in
  let listed := sort byEndTimeDesc entries in
  file s'.2 = Some (joinWith LF (JSON_stringify <$> entries)) ∧
  (entries ≠ [] →
     splitLines (joinWith LF (JSON_stringify <$> entries))
     = JSON_stringify <$> entries) ∧
  mapM JSON_parse (JSON_stringify <$> entries) = Some entries ∧
  pomoLog (loadLogs s') =
    (if entries is [] then LogNoEntries else LogEntries listed) ∧
  length listed = length entries ∧
  listed ≡ₚ entries ∧
  StronglySorted (λ a b, (endMs b <= endMs a)%Z) listed.
Proof.
  intros Hb Hf Hwf Hdates s' listed.
  destruct (appendAll_file entries [] h e Hb Hf) as (e' & Hs' & (Hh & Hr & Hw) & Hf' & _).
  rewrite app_nil_l in Hf'. unfold s'. rewrite Hs'. cbn [fst snd].
  assert (entries ≠ [] →
          splitLines (joinWith LF (JSON_stringify <$> entries))
          = JSON_stringify <$> entries) as Hlines.
  { intros Hne. apply splitLines_joinWith; [by destruct entries|apply lines_single]. }
  assert (listed = sort (byKeyDesc endMs) entries) as Hkey.
  { apply sort_ext. intros x y Hx Hy. rewrite Forall_forall in Hdates.
    apply byEndTimeDesc_key; auto. }
  split; [done|]. split; [done|]. split; [by apply mapM_parse|].
  split; [|split; [|split]].
  - rewrite (loadLogs_bound h e' _ (conj Hh (conj Hr Hw)) Hf'). cbv zeta.
    destruct entries as [|x entries]; [done|].
    rewrite trim_braced by (apply braced_join; [done|apply lines_braced]).
    rewrite braced_isEmpty by (apply braced_join; [done|apply lines_braced]).
    rewrite Hlines by done. rewrite mapM_parse by done.
    unfold renderLogs. fold listed.
    assert (listed ≡ₚ x :: entries) as Hperm by apply sort_perm.
    destruct listed; [by apply Permutation_nil_cons in Hperm|done].
  - unfold listed. by rewrite sort_perm.
  - apply sort_perm.
  - rewrite Hkey. apply (sort_sorted endMs).
Qed.

(** *** Editing an entry (C5) *)

Lemma createWritable_bound h e content :
  bound h e → file e = Some content → createWritable e = Some e.
Proof.
  intros (_ & _ & Hw) Hf. unfold createWritable, requestReadWrite.
  by rewrite Hw, Hw, Hf.
Qed.

(** C5: let the log file hold one JSON entry per line.  If no entry has
    the session id, [updateLogEntry] shows the update error and leaves the
    environment as it was: the file is not written.  Otherwise, with [i]
    the index of the first entry that has the session id, the file is
    rewritten as the lines of the same entries in the same order, the
    entry at [i] with its [summary_text] set to the new text and every
    other property, known or not, kept. *)
Theorem updateLogEntry_rewrites (sessionId newSummaryText content : string)
    (h : Home) (e : Env) (logEntries : list object) :
  bound h e → file e = Some content →
  mapM JSON_parse (splitLines (trim content)) = Some logEntries →
  let s' := updateLogEntry sessionId newSummaryText (h, e) in
  let has entry := getProp "sessionId" entry = Some (VStr sessionId) in
  ((∀ entry, entry ∈ logEntries → ¬ has entry) →
     s' = (showError updateError h, e) ∧
     file s'.2 = Some content ∧ fileWrites s'.2 = fileWrites e ∧
     errorBox s'.1 = {| errorHidden := false; errorMessage := updateError |}) ∧
  (∀ i entry,
     logEntries !! i = Some entry → has entry →
     (∀ j other, j < i → logEntries !! j = Some other → ¬ has other) →
     let edited := setProp "summary_text" (VStr newSummaryText) entry in
     let newContent := joinWith LF (JSON_stringify <$> <[i := edited]> logEntries) in
     s' = (h, writeFile newContent e) ∧
     file s'.2 = Some newContent ∧
     fileWrites s'.2 = fileWrites e ++ [newContent] ∧
     length (<[i := edited]> logEntries) = length logEntries ∧
     (∀ j, j ≠ i → <[i := edited]> logEntries !! j = logEntries !! j) ∧
     getProp "summary_text" edited = Some (VStr newSummaryText) ∧
     (∀ key, key ≠ "summary_text" → getProp key edited = getProp key entry)).
Proof.
  intros Hb Hf Hparse s' has.
  assert (s' = match list_find has logEntries with
               | None => (showError updateError h, e)
               | Some (entryIndex, _) =>
                   (h, writeFile
                         (joinWith LF
                            (JSON_stringify <$>
                               alter (setProp "summary_text" (VStr newSummaryText))
                                 entryIndex logEntries)) e)
               end) as Hs'.
  { unfold s', updateLogEntry. destruct Hb as (Hh & Hr & Hw).
    rewrite Hh. unfold getFile. rewrite Hr, Hf, Hparse.
    fold has. destruct (list_find has logEntries) as [[i x]|]; [|done].
    by rewrite (createWritable_bound h e content). }
  clearbody s'. subst s'. split.
  - intros Hnone.
    destruct (list_find has logEntries) as [[i x]|] eqn:Hfind.
    + apply list_find_Some in Hfind as (Hi & Hx & _).
      destruct (Hnone x); [by eapply list_elem_of_lookup_2|done].
    + done.
  - intros i entry Hi Hhas Hfirst edited newContent.
    assert (list_find has logEntries = Some (i, entry)) as ->.
    { apply list_find_Some. split; [done|]. split; [done|].
      intros j y Hj Hlt. by eapply Hfirst. }
    assert (alter (setProp "summary_text" (VStr newSummaryText)) i logEntries
            = <[i := edited]> logEntries) as ->.
    { apply list_eq. intros j. destruct (decide (j = i)) as [->|Hne].
      - rewrite list_lookup_alter_eq, Hi. cbn.
        by rewrite list_lookup_insert_eq by by eapply lookup_lt_Some.
      - by rewrite list_lookup_alter_ne, list_lookup_insert_ne. }
    repeat split.
    + apply length_insert.
    + intros j Hj. by rewrite list_lookup_insert_ne.
    + apply getProp_setProp.
    + intros key Hkey. by apply getProp_setProp_ne.
Qed.

(** *** Saving a session (C10) *)

Lemma trim_len_tokens text :
  (len (trim text) =? 0)%nat = bool_decide (countTokens text = 0).
Proof.
  destruct (trim text) as [|c r] eqn:Ht.
  - apply trim_empty_tokens in Ht. by rewrite bool_decide_eq_true_2.
  - rewrite bool_decide_eq_false_2; [done|].
    intros H0. apply trim_empty_tokens in H0. congruence.
Qed.

(** The entries the extension appends are objects with a valid end
    time: what [loadLogs_after_appends] asks of an entry. *)
Lemma sessionEntry_wf start_time end_time summaryText sessionId duration :
  wfObject (sessionEntry start_time end_time summaryText sessionId duration).
Proof.
  unfold sessionEntry, literal.
  destruct sessionId, duration; apply (bool_decide_unpack _); by vm_compute.
Qed.

Lemma sessionEntry_end_time `{!PlatformLaws P} start_time endMs summaryText sessionId duration :
  validTime endMs →
  newDate (getProp "end_time"
             (sessionEntry start_time (Date_toISOString endMs) summaryText
                sessionId duration)) = Some endMs.
Proof.
  intros Hvalid. unfold sessionEntry, literal.
  destruct sessionId, duration; simpl; by apply Date_parse_toISOString.
Qed.

(** C10: [saveLog] looks only at whether the summary has a token.  With
    no token it returns and nothing changes.  With one token or more,
    whether or not there are 50, it builds the session entry from the
    stored end time, duration and session id, passes it to
    [appendLogToFile] and then resets to START; when the log file is bound
    the entry is the new last line of the file.  (The stored end time and
    duration must give valid dates, as they do after a countdown.) *)
Theorem saveLog_needs_one_token (h : Home) (e : Env) :
  let summaryText := summaryInput h in
  (countTokens summaryText = 0 → saveLog (h, e) = Some (h, e)) ∧
  (0 < countTokens summaryText →
   ∀ endMs minutes,
     newDate (storage e !! STORAGE_KEYS.END_TIME) = Some endMs →
     toNumber (storage e !! STORAGE_KEYS.DURATION) = Some minutes →
     validTime (endMs - minutes * 60 * 1000) →
     let logEntry :=
       sessionEntry (Date_toISOString (endMs - minutes * 60 * 1000))
         (Date_toISOString endMs) summaryText
         (storage e !! STORAGE_KEYS.SESSION_ID)
         (storage e !! STORAGE_KEYS.DURATION) in
     let s' := resetToStartState (appendLogToFile logEntry (h, e)) in
     saveLog (h, e) = Some s' ∧
     getProp "summary_text" logEntry = Some (VStr summaryText) ∧
     storage s'.2 !! STORAGE_KEYS.TIMER_STATE = Some (VStr TIMER_STATE.START) ∧
     (∀ oldContent, bound h e → file e = Some oldContent →
        file s'.2 = Some (appended oldContent logEntry))).
Proof.
  intros summaryText. split.
  - intros H0. unfold saveLog. fold summaryText.
    by rewrite trim_len_tokens, bool_decide_eq_true_2.
  - intros Hpos endMs minutes Hend Hdur Hvalid logEntry s'.
    assert (saveLog (h, e) = Some s') as Hsave.
    { unfold saveLog. fold summaryText.
      rewrite trim_len_tokens, bool_decide_eq_false_2 by lia.
      fold saveKeys.
      rewrite !(storageGet_asked saveKeys) by (apply (bool_decide_unpack _); by vm_compute).
      rewrite Hend, Hdur. cbn [mbind option_bind].
      rewrite (TimeClip_valid _ Hvalid). reflexivity. }
    split; [exact Hsave|]. split.
    + unfold logEntry, sessionEntry, literal.
      destruct (storage e !! STORAGE_KEYS.SESSION_ID),
        (storage e !! STORAGE_KEYS.DURATION); reflexivity.
    + split.
      * unfold s'. destruct (appendLogToFile logEntry (h, e)) as [h1 e1].
        rewrite resetToStartState_eq. apply reset_phase.
      * intros oldContent Hb Hf. unfold s'.
        rewrite (appendLogToFile_bound _ _ _ _ Hb Hf), resetToStartState_eq.
        reflexivity.
Qed.

End WithPlatform.

End LogFacts.

(* ===================================================================== *)
(** ** Background guard, and runs on the reference platform *)
(* ===================================================================== *)

Module BackgroundFacts.
Import Js Store Model Terms StoreFacts ModelFacts.

(** C4: the installed listener writes the default timer state for every
    reason of the event, an update of the extension or of the browser as
    much as a fresh install: the stored phase, end time and duration are
    overwritten.  A browser startup without an installed event writes
    nothing. *)
Theorem handleInstallation_every_reason (reason : InstalledReason) (e : Env) :
  let e' := dispatch (OnInstalled reason) e in
  e' = storageSet installItems e ∧
  storage e' !! STORAGE_KEYS.TIMER_STATE = Some (VStr TIMER_STATE.START) ∧
  storage e' !! STORAGE_KEYS.END_TIME = Some VNull ∧
  storage e' !! STORAGE_KEYS.DURATION = Some (VNum 0) ∧
  (∀ k, k ∉ installItems.*1 → storage e' !! k = storage e !! k) ∧
  dispatch OnStartup e = e.
Proof.
  assert (NoDup installItems.*1) as Hnd by (apply (bool_decide_unpack _); by vm_compute).
  cbn [dispatch]. unfold handleInstallation. fold installItems.
  rewrite storageSet_storage. repeat split.
  - apply setItems_written; [done|decide_in].
  - apply setItems_written; [done|decide_in].
  - apply setItems_written; [done|decide_in].
  - intros k Hk. by apply setItems_other.
Qed.

End BackgroundFacts.

Module Runs.
Import Js Store Model Terms Reference.
Import MatcherFacts StoreFacts ModelFacts SummaryFacts LogFacts BackgroundFacts.

(** ** The reference platform satisfies the laws *)

Lemma parseZ_printZ z : parseZ (printZ z) = Some z.
Proof.
  unfold parseZ, printZ. rewrite NilEmpty.isi.
  unfold fmap, option_fmap, option_map. by rewrite DecimalZ.of_to.
Qed.

Lemma string_of_uint_line d : hasLF (NilEmpty.string_of_uint d) = false.
Proof. induction d; simpl; [done|by rewrite hasLF_cons, IHd..]. Qed.

Lemma printZ_line z : hasLF (printZ z) = false.
Proof.
  unfold printZ. destruct (Z.to_int z); simpl.
  - apply string_of_uint_line.
  - rewrite hasLF_cons. apply string_of_uint_line.
Qed.



Lemma stripClosing_app body : stripClosing (body +:+ "}") = Some body.
Proof.
  induction body as [|c body IH]; [done|].
  rewrite app_cons. simpl. rewrite IH.
  by destruct body.
Qed.

Lemma parse_stringify obj : parse (stringify obj) = Some obj.
Proof.
  unfold parse, stringify. simpl. rewrite stripClosing_app. simpl.
  rewrite parseZ_printZ. simpl. apply decode_encode.
Qed.

Lemma hasLF_app s t : hasLF (s +:+ t) = hasLF s || hasLF t.
Proof.
  induction s as [|c s IH]; [done|].
  by rewrite app_cons, !hasLF_cons, IH, orb_assoc.
Qed.

Lemma stringify_line obj : hasLF (stringify obj) = false.
Proof. unfold stringify. by rewrite hasLF_cons, hasLF_app, printZ_line. Qed.

Lemma parse_valid t : validTime t → (parseZ (printZ t) ≫= TimeClip) = Some t.
Proof. intros Ht. rewrite parseZ_printZ. simpl. by apply TimeClip_valid. Qed.

Lemma parse_in_range s t : (parseZ s ≫= TimeClip) = Some t → validTime t.
Proof.
  destruct (parseZ s) as [z|]; [simpl|done]. intros Hz.
  by apply TimeClip_Some in Hz as [-> ?].
Qed.

#[global] Instance platform_laws : PlatformLaws platform.
Proof.
  split.
  - apply parse_in_range.
  - apply parse_valid.
  - apply pretty_nat_inj.
  - intros obj _. apply parse_stringify.
  - intros obj. by eexists.
  - apply stringify_line.
Qed.


(** ** Sample states *)

Lemma page_pageInv : pageInv page.
Proof.
  split; [|done]. intros id t Hid.
  change ((∅ : gmap nat Z) !! id = Some t) in Hid. by rewrite lookup_empty in Hid.
Qed.


(** ** Sample runs *)

(** An update of the extension in the middle of a session puts the phase
    back to START and drops the end time. *)
Lemma update_resets_running_timer :
  let before := browser runningStore noon None in
  let after := dispatch (OnInstalled update) before in
  storage before !! STORAGE_KEYS.TIMER_STATE = Some (VStr TIMER_STATE.RUNNING) ∧
  storage after !! STORAGE_KEYS.TIMER_STATE = Some (VStr TIMER_STATE.START) ∧
  storage after !! STORAGE_KEYS.END_TIME = Some VNull.
Proof. by vm_compute. Qed.

(** With the phase RUNNING and no end time stored, the page ends up on the
    start section with the error region hidden. *)
Lemma timer_error_hidden :
  let h' := (updateUI (page, browser brokenStore noon None)).1 in
  errorBox h' = {| errorHidden := true; errorMessage := timerError |} ∧
  sections h' = shown true false false.
Proof. by vm_compute. Qed.

Lemma startTimer_running_witness :
  ∃ h', startTimer 25 (page, browser ∅ noon None)
        = Some (h', storageSet (startItems (noon + 1500000) 25 "0")
                      (set_uuidsDrawn 1 (browser ∅ noon None))) ∧
        remaining h' (browser ∅ noon None) = Some 1500000%Z.
Proof.
  destruct (startTimer_running 25 page (browser ∅ noon None))
    as (h' & Hstart & _ & _ & _ & _ & _ & _ & _ & _ & _ & _ & Hrem & _).
  - unfold validTime, maxTime, noon. simpl. lia.
  - intros s Hs.
    change ((∅ : gmap string value) !! STORAGE_KEYS.SESSION_ID = Some (VStr s)) in Hs.
    by rewrite lookup_empty in Hs.
  - exists h'. split; [exact Hstart|exact Hrem].
Defined.

Lemma tick_expiry_idempotent_witness :
  let sA := tick 1 (ticking noon, browser runningStore (noon + 1) None) in
  let sB := tick 1 (ticking noon, set_clock (noon + 2) sA.2) in
  storage sA.2 !! STORAGE_KEYS.TIMER_STATE = Some (VStr TIMER_STATE.END) ∧
  storage sB.2 = storage sA.2.
Proof.
  assert (ownTick (ticking noon)) as Hown.
  { intros id t Hid.
    change (({[ 1 := noon ]} : gmap nat Z) !! id = Some t) in Hid.
    apply lookup_singleton_Some in Hid as [<- _]. by split. }
  destruct (tick_expiry_idempotent (ticking noon) (ticking noon)
              (browser runningStore (noon + 1) None) 1 1 noon noon (noon + 2)
              Hown Hown)
    as (_ & _ & Hend & _ & _ & _ & Hsame & _).
  - apply lookup_singleton_eq.
  - apply lookup_singleton_eq.
  - simpl. lia.
  - lia.
  - split; [exact Hend|exact Hsame].
Defined.

Lemma updateUI_invalid_endTime_witness :
  let s' := updateUI (page, browser brokenStore noon None) in
  storage s'.2 !! STORAGE_KEYS.TIMER_STATE = Some (VStr TIMER_STATE.START) ∧
  intervals s'.1 = ∅ ∧
  errorHidden (errorBox s'.1) = true.
Proof.
  destruct (updateUI_invalid_endTime page (browser brokenStore noon None))
    as (_ & Hphase & _ & _ & Hint & _ & _ & _ & Herr).
  - apply lookup_singleton_eq.
  - reflexivity.
  - split; [exact Hphase|]. split; [exact Hint|].
    by destruct Herr as [->|[Herr|Herr]]; [|vm_compute in Herr..].
Defined.

Lemma summary_gate_witness :
  submitLogDisabled (summaryInputEvent (words 50) page) = false ∧
  submitLogDisabled
    (handleStorageChange (summaryChange (words 50)) "local"
       (page, browser endedStore noon None)).1 = false.
Proof.
  destruct (summary_gate (words 50) page (browser endedStore noon None)
              (summaryChange (words 50))
              {| oldValue := Some (VStr EmptyString);
                 newValue := Some (VStr (words 50)) |})
    as (_ & _ & Hlocal & Hremote).
  specialize (Hlocal eq_refl).
  destruct Hremote as (_ & Hsame & _).
  - reflexivity.
  - apply lookup_singleton_eq.
  - reflexivity.
  - reflexivity.
  - split; [exact Hlocal|]. by rewrite Hsame.
Defined.

Lemma twoLines_parse :
  mapM JSON_parse (splitLines (trim twoLines)) = Some [firstEntry; secondEntry].
Proof. by vm_compute. Qed.

Lemma updateLogEntry_rewrites_witness :
  let edited := setProp "summary_text" (VStr "revised") secondEntry in
  file (updateLogEntry "s2" "revised"
          (boundPage, browser endedStore noon (Some twoLines))).2
  = Some (joinWith LF (JSON_stringify <$> [firstEntry; edited])) ∧
  getProp "type" edited = Some (VStr "note").
Proof.
  destruct (updateLogEntry_rewrites "s2" "revised" twoLines boundPage
              (browser endedStore noon (Some twoLines))
              [firstEntry; secondEntry]) as [_ Hfound].
  - by repeat split.
  - reflexivity.
  - exact twoLines_parse.
  - destruct (Hfound 1 secondEntry) as (_ & Hfile & _ & _ & _ & _ & Hkeep).
    + reflexivity.
    + reflexivity.
    + intros j other Hj Hother. destruct j as [|j]; [|lia].
      injection Hother as <-. discriminate.
    + split; [exact Hfile|]. by rewrite Hkeep.
Defined.

Lemma loadLogs_after_appends_witness :
  pomoLog (loadLogs (appendAll [firstEntry; secondEntry]
                       (boundPage, browser endedStore noon (Some EmptyString))))
  = LogEntries (sort byEndTimeDesc [firstEntry; secondEntry]) ∧
  sort byEndTimeDesc [firstEntry; secondEntry] = [secondEntry; firstEntry].
Proof.
  destruct (loadLogs_after_appends boundPage
              (browser endedStore noon (Some EmptyString))
              [firstEntry; secondEntry])
    as (_ & _ & _ & Hlog & _).
  - by repeat split.
  - reflexivity.
  - apply (bool_decide_unpack _). by vm_compute.
  - repeat constructor; by eexists; vm_compute.
  - split; [exact Hlog|by vm_compute].
Defined.

Lemma saveLog_needs_one_token_witness :
  let h := set_summaryInput shortSummary boundPage in
  let e := browser endedStore noon (Some EmptyString) in
  countTokens shortSummary = 4 ∧
  submitLogDisabled (summaryInputEvent shortSummary boundPage) = true ∧
  ∃ s', saveLog (h, e) = Some s' ∧
        storage s'.2 !! STORAGE_KEYS.TIMER_STATE = Some (VStr TIMER_STATE.START) ∧
        file s'.2 =
          Some (JSON_stringify
                  (sessionEntry (printZ (noon - 1500000)) (printZ noon)
                     shortSummary (Some (VStr "0")) (Some (VNum 25)))).
Proof.
  intros h e. split; [by vm_compute|]. split; [by vm_compute|].
  destruct (saveLog_needs_one_token h e) as [_ Hsave].
  destruct (Hsave ltac:(vm_compute; lia) noon 25%Z) as (Hs & _ & Hphase & Hfile).
  - by vm_compute.
  - reflexivity.
  - unfold validTime, maxTime, noon. lia.
  - eexists. split; [exact Hs|]. split; [exact Hphase|].
    apply (Hfile EmptyString); [by repeat split|reflexivity].
Defined.

End Runs.

(* ===================================================================== *)
(** ** Exclusion patterns *)
(* ===================================================================== *)

Module PatternFacts.
Import Js Matcher Store Model Terms Guard Notions MatcherFacts.

(** *** Letter case *)

Lemma canonicalize_idem c : canonicalize (canonicalize c) = canonicalize c.
Proof. by destruct c as [[] [] [] [] [] [] [] []]. Qed.

Lemma canonicalize_star c : canonicalize c = "*"%char → c = "*"%char.
Proof. by destruct c as [[] [] [] [] [] [] [] []]. Qed.

Lemma canonicalize_h c :
  canonicalize c = canonicalize "h" → oneOf "*hH" c = true.
Proof. by destruct c as [[] [] [] [] [] [] [] []]. Qed.

Lemma upper_idem s : upper (upper s) = upper s.
Proof. induction s as [|c s IH]; simpl; [done|]. by rewrite canonicalize_idem, IH. Qed.

(** *** Globs without a star *)

Lemma includes_star c s : includes (String c s) "*" = ceq "*" c || includes s "*".
Proof.
  unfold includes at 1. fold includes.
  change (startsWith (String c s) "*") with (ceq "*" c && startsWith s EmptyString).
  destruct s; by rewrite andb_true_r.
Qed.

Lemma starFree_cons c s :
  starFree (String c s) = true ↔ c ≠ "*"%char ∧ starFree s = true.
Proof.
  unfold starFree. rewrite includes_star, negb_orb, andb_true_iff, negb_true_iff.
  rewrite ceq_false. split; intros [H1 H2]; split; congruence.
Qed.

Lemma Glob_literal wild w u :
  starFree w = true → Glob wild w u ↔ upper w = upper u.
Proof.
  revert u. induction w as [|c w IH]; intros u Hfree.
  - split.
    + by inversion 1.
    + destruct u; [constructor|done].
  - apply starFree_cons in Hfree as [Hc Hfree]. split.
    + inversion 1 as [| |c' d p u' _ Hcd Hg]; subst; [done|].
      simpl. rewrite Hcd. f_equal. by apply IH.
    + destruct u as [|d u]; [done|]. simpl. intros [= Hcd Hu].
      constructor; [done|done|]. by apply IH.
Qed.

(** Two patterns that are equal up to letter case match the same
    strings. *)
Lemma Glob_upper wild p p' u : upper p' = upper p → Glob wild p u → Glob wild p' u.
Proof.
  intros Hp Hg. revert p' Hp.
  induction Hg as [|p t u Ht Hg IH|c d p u Hc Hcd Hg IH]; intros p' Hp.
  - destruct p'; [constructor|done].
  - destruct p' as [|c' p']; [done|]. simpl in Hp. injection Hp as Hc' Hp.
    apply canonicalize_star in Hc' as ->. constructor; auto.
  - destruct p' as [|c' p']; [done|]. simpl in Hp. injection Hp as Hc' Hp.
    constructor; auto.
    + intros ->. symmetry in Hc'. by apply canonicalize_star in Hc'.
    + unfold sameLetter in *. congruence.
Qed.

(** *** The loop over the exclusions *)

Lemma checkExclusions_true u ps :
  checkExclusions u ps = Some true ↔ ¬ ∃ p, p ∈ ps ∧ GlobLine p u.
Proof.
  destruct (checkExclusions_glob u ps) as (b & -> & Hb). rewrite <- Hb.
  destruct b; split; congruence.
Qed.

Lemma checkExclusions_false u ps :
  checkExclusions u ps = Some false ↔ ∃ p, p ∈ ps ∧ GlobLine p u.
Proof.
  destruct (checkExclusions_glob u ps) as (b & -> & Hb). rewrite <- Hb.
  split; congruence.
Qed.

Lemma checkExclusions_total u ps :
  checkExclusions u ps = Some true ∨ checkExclusions u ps = Some false.
Proof. destruct (checkExclusions_glob u ps) as ([] & -> & _); auto. Qed.

Lemma checkExclusions_same u ps qs :
  ((∃ p, p ∈ ps ∧ GlobLine p u) ↔ (∃ q, q ∈ qs ∧ GlobLine q u)) →
  checkExclusions u ps = checkExclusions u qs.
Proof.
  intros Hiff.
  destruct (checkExclusions_total u ps) as [Hp|Hp], (checkExclusions_total u qs) as [Hq|Hq];
    rewrite Hp, Hq; try done.
  - apply checkExclusions_true in Hp. apply checkExclusions_false in Hq. tauto.
  - apply checkExclusions_false in Hp. apply checkExclusions_true in Hq. tauto.
Qed.

Lemma checkExclusions_cons u w ps :
  checkExclusions u (w :: ps) =
    if bool_decide (checkExclusions u [w] = Some false) then Some false
    else checkExclusions u ps.
Proof.
  simpl. destruct (wildcardToRegex w) as [r|] eqn:Hw.
  - by destruct (test r u).
  - by rewrite wildcardToRegex_compile in Hw.
Qed.

Lemma isWebPage_head u : isWebPage u = true → ∃ u', u = String "h" u'.
Proof.
  unfold isWebPage. destruct u as [|c u]; [done|].
  intros [H|H]%orb_true_iff; cbn [startsWith] in H;
    apply andb_true_iff in H as [H%ceq_true _]; subst; eauto.
Qed.

Lemma guarded_web runtime_id u : guarded runtime_id u → isWebPage u = true.
Proof.
  unfold guarded. rewrite !orb_false_iff, negb_false_iff. tauto.
Qed.

Lemma isUrlBlockable_guarded runtime_id u ps :
  guarded runtime_id u → isUrlBlockable runtime_id u ps = checkExclusions u ps.
Proof. unfold guarded, isUrlBlockable. by intros ->. Qed.

Lemma isUrlBlockable_exempt runtime_id u ps :
  ¬ guarded runtime_id u → isUrlBlockable runtime_id u ps = Some false.
Proof.
  unfold guarded, isUrlBlockable.
  by destruct (isChromeInternal u || isExtensionPage runtime_id u
               || isNewTabPage u || negb (isWebPage u)).
Qed.

Lemma guarded_dec runtime_id u : guarded runtime_id u ∨ ¬ guarded runtime_id u.
Proof.
  unfold guarded.
  destruct (isChromeInternal u || isExtensionPage runtime_id u
            || isNewTabPage u || negb (isWebPage u)); auto.
Qed.

(** *** Properties of the exclusion list *)

(** X1: the answer depends on the list of patterns only through the set of
    its members: a pattern list with more members exempts at least the
    same URLs, and neither the order of the patterns nor a repeated
    pattern changes the answer. *)
Theorem exclusions_as_set (runtime_id u : string) (ps qs : list string) :
  (∀ p, p ∈ ps → p ∈ qs) →
  (isUrlBlockable runtime_id u qs = Some true →
   isUrlBlockable runtime_id u ps = Some true) ∧
  ((∀ q, q ∈ qs → q ∈ ps) →
   isUrlBlockable runtime_id u ps = isUrlBlockable runtime_id u qs).
Proof.
  intros Hsub. destruct (guarded_dec runtime_id u) as [Hg|Hg].
  - rewrite !(isUrlBlockable_guarded _ _ _ Hg). split.
    + rewrite !checkExclusions_true. intros Hq (p & Hp & Hm). apply Hq. eauto.
    + intros Hsup. apply checkExclusions_same.
      split; intros (p & Hp & Hm); eauto.
  - rewrite !(isUrlBlockable_exempt _ _ _ Hg). by split.
Qed.

(** X2: patterns without a [*] are compared with the whole URL, ignoring
    letter case: a URL that passes the four tests is exempt under such a
    list exactly when it equals one of the patterns up to letter case.  A
    pattern must carry a [*] to exempt more than one address. *)
Theorem literal_patterns (runtime_id u : string) (ps : list string) :
  guarded runtime_id u →
  Forall (λ w, starFree w = true) ps →
  isUrlBlockable runtime_id u ps
  = Some (negb (existsb (λ w, equalIgnoringCase w u) ps)).
Proof.
  intros Hg Hfree. rewrite (isUrlBlockable_guarded _ _ _ Hg).
  induction Hfree as [|w ps Hw Hfree IH]; [done|].
  rewrite checkExclusions_cons, IH. cbn [existsb].
  assert (checkExclusions u [w] = Some false ↔ equalIgnoringCase w u = true) as Hiff.
  { rewrite checkExclusions_false. unfold equalIgnoringCase.
    rewrite String.eqb_eq, <- (Glob_literal sameLine w u Hw). split.
    - intros (p & ->%list_elem_of_singleton & Hm). exact Hm.
    - intros Hm. exists w. split; [left|done]. }
  destruct (equalIgnoringCase w u).
  - by rewrite bool_decide_eq_true_2 by by apply Hiff.
  - rewrite bool_decide_eq_false_2; [done|]. intros H%Hiff. done.
Qed.

(** X3: a pattern that begins neither with [*] nor with the letter h (in
    either case) exempts no URL at all: the pattern must account for the
    whole URL, and every URL that reaches the exclusion list begins with
    [http].  Such a pattern, [example.com] for one, may be dropped from
    the list without any change. *)
Theorem pattern_without_scheme (runtime_id u w : string) (ps : list string) :
  opensWith "*hH" w = false →
  isUrlBlockable runtime_id u (w :: ps) = isUrlBlockable runtime_id u ps.
Proof.
  intros Hw. destruct (guarded_dec runtime_id u) as [Hg|Hg].
  - rewrite !(isUrlBlockable_guarded _ _ _ Hg), checkExclusions_cons.
    rewrite bool_decide_eq_false_2; [done|].
    rewrite checkExclusions_false.
    intros (p & ->%list_elem_of_singleton & Hm).
    destruct (isWebPage_head u (guarded_web _ _ Hg)) as [u' ->].
    inversion Hm as [|p t u0 Ht Hm'|c d p u0 Hc Hcd Hm']; subst.
    + done.
    + apply canonicalize_h in Hcd. change (oneOf "*hH" c = false) in Hw. congruence.
  - by rewrite !(isUrlBlockable_exempt _ _ _ Hg).
Qed.

(** X4: the letter case of the patterns does not matter: two pattern lists
    that are equal up to letter case, pattern by pattern, give the same
    answer for every URL. *)
Theorem patterns_ignore_case (runtime_id u : string) (ps qs : list string) :
  upper <$> ps = upper <$> qs →
  isUrlBlockable runtime_id u ps = isUrlBlockable runtime_id u qs.
Proof.
  intros Hup. destruct (guarded_dec runtime_id u) as [Hg|Hg].
  - rewrite !(isUrlBlockable_guarded _ _ _ Hg). apply checkExclusions_same.
    assert (∀ l l' : list string, upper <$> l = upper <$> l' →
              (∃ p, p ∈ l ∧ GlobLine p u) → ∃ q, q ∈ l' ∧ GlobLine q u) as Hone.
    { clear. intros l. induction l as [|p l IH]; intros l' Heq.
      - intros (p0 & Hp & _). by apply not_elem_of_nil in Hp.
      - destruct l' as [|q l']; [done|].
        rewrite !fmap_cons in Heq. injection Heq as Hpq Heq.
        intros (p0 & Hp & Hm). apply elem_of_cons in Hp as [->|Hp].
        + exists q. split; [left|]. by apply (Glob_upper _ p).
        + destruct (IH l' Heq) as (q0 & Hq0 & Hm0); [eauto|].
          exists q0. split; [by right|done]. }
    split; apply Hone; done.
  - by rewrite !(isUrlBlockable_exempt _ _ _ Hg).
Qed.

End PatternFacts.

(* ===================================================================== *)
(** ** The tab guard *)
(* ===================================================================== *)

Module GuardFacts.
Import Js Matcher Store Model Terms Guard Notions.
Import MatcherFacts StoreFacts ModelFacts PatternFacts.

(** *** The home page is exempt *)

Lemma startsWith_self n q : startsWith (n +:+ q) n = true.
Proof. induction n as [|c n IH]; [by destruct q|]. rewrite app_cons. simpl. by rewrite ceq_refl. Qed.

Lemma includes_mid p n q : includes (p +:+ n +:+ q) n = true.
Proof.
  induction p as [|c p IH].
  - rewrite app_empty. destruct (n +:+ q) eqn:E; unfold includes; fold includes;
      rewrite <- E, startsWith_self; done.
  - rewrite app_cons. unfold includes; fold includes. rewrite IH. apply orb_true_r.
Qed.

Lemma homeUrl_exempt runtime_id : ¬ guarded runtime_id (homeUrl runtime_id).
Proof.
  unfold guarded, homeUrl, getURL, isExtensionPage.
  rewrite includes_mid. rewrite orb_true_r. done.
Qed.

Lemma isUrlBlockableOf_list runtime_id u ps :
  isUrlBlockableOf runtime_id u (VList ps) = isUrlBlockable runtime_id u ps.
Proof. reflexivity. Qed.

Lemma isUrlBlockableOf_exempt runtime_id u v :
  ¬ guarded runtime_id u → isUrlBlockableOf runtime_id u v = Some false.
Proof.
  unfold guarded, isUrlBlockableOf.
  by destruct (isChromeInternal u || isExtensionPage runtime_id u
               || isNewTabPage u || negb (isWebPage u)).
Qed.

(** *** The two outcomes of the listener *)

Lemma guardKeys_state e :
  storageGet [STORAGE_KEYS.TIMER_STATE; "excludedUrls"] e !! STORAGE_KEYS.TIMER_STATE
  = storage e !! STORAGE_KEYS.TIMER_STATE.
Proof. apply storageGet_asked. decide_in. Qed.

Lemma guardKeys_excluded e :
  storageGet [STORAGE_KEYS.TIMER_STATE; "excludedUrls"] e !! "excludedUrls"
  = storage e !! "excludedUrls".
Proof. apply storageGet_asked. decide_in. Qed.

Lemma handleTabUpdate_cases runtime_id tabId status tab_url e tabs :
  handleTabUpdate runtime_id tabId status tab_url e tabs = tabs ∨
  handleTabUpdate runtime_id tabId status tab_url e tabs
  = redirectToHomePage runtime_id tabId tabs.
Proof.
  unfold handleTabUpdate. destruct tab_url as [url|]; [|by left].
  repeat case_match; auto.
Qed.

Lemma handleTabUpdate_exempt runtime_id tabId status u e tabs :
  ¬ guarded runtime_id u →
  handleTabUpdate runtime_id tabId status (Some u) e tabs = tabs.
Proof.
  intros Hg. unfold handleTabUpdate.
  rewrite (isUrlBlockableOf_exempt _ _ _ Hg). by repeat case_match.
Qed.

Lemma handleTabUpdate_running runtime_id tabId status tab_url e tabs :
  storage e !! STORAGE_KEYS.TIMER_STATE = Some (VStr TIMER_STATE.RUNNING) →
  handleTabUpdate runtime_id tabId status tab_url e tabs = tabs.
Proof.
  intros Hrun. unfold handleTabUpdate. destruct tab_url as [url|]; [|done].
  rewrite guardKeys_state, Hrun.
  by destruct (negb (isEmpty url) && bool_decide (status = Some "complete")).
Qed.

Lemma handleTabUpdate_blocking runtime_id tabId u e tabs ps :
  storage e !! STORAGE_KEYS.TIMER_STATE ≠ Some (VStr TIMER_STATE.RUNNING) →
  orEmptyArray (storage e !! "excludedUrls") = VList ps →
  guarded runtime_id u →
  handleTabUpdate runtime_id tabId (Some "complete") (Some u) e tabs =
    if bool_decide (checkExclusions u ps = Some true)
    then redirectToHomePage runtime_id tabId tabs else tabs.
Proof.
  intros Hrun Hps Hg. unfold handleTabUpdate.
  destruct (isWebPage_head u (guarded_web _ _ Hg)) as [u' ->].
  rewrite guardKeys_state, guardKeys_excluded, Hps, isUrlBlockableOf_list.
  rewrite (isUrlBlockable_guarded _ _ _ Hg).
  assert (strictEq (storage e !! STORAGE_KEYS.TIMER_STATE)
            (Some (VStr TIMER_STATE.RUNNING)) = false) as ->.
  { unfold strictEq. by apply bool_decide_eq_false_2. }
  cbn [isEmpty negb andb]. rewrite bool_decide_eq_true_2 by done.
  destruct (checkExclusions_total (String "h" u') ps) as [-> | ->]; done.
Qed.

(** X5: the guard never redirects the extension's own home page, whatever the
    store holds, so a redirect is not answered by another one: when the
    listener has navigated a tab, the tab shows the home page, every other
    tab shows what it did, and the update event of the tab's new
    address, at any later state of the store, leaves the tabs alone. *)
Theorem redirect_settles (runtime_id : string) (tabId : nat)
    (status status' tab_url : option string) (e e' : Env) (tabs : Tabs) :
  let tabs' := handleTabUpdate runtime_id tabId status tab_url e tabs in
  handleTabUpdate runtime_id tabId status (Some (homeUrl runtime_id)) e tabs = tabs ∧
  (∀ other, other ≠ tabId → tabs' !! other = tabs !! other) ∧
  (tabs' ≠ tabs →
     tabs' !! tabId = Some (homeUrl runtime_id) ∧
     handleTabUpdate runtime_id tabId status' (tabs' !! tabId) e' tabs' = tabs').
Proof.
  intros tabs'. split; [|split].
  - apply handleTabUpdate_exempt, homeUrl_exempt.
  - intros other Hother.
    destruct (handleTabUpdate_cases runtime_id tabId status tab_url e tabs) as [H|H];
      unfold tabs'; rewrite H; [done|].
    unfold redirectToHomePage. by rewrite lookup_alter_ne.
  - intros Hne.
    destruct (handleTabUpdate_cases runtime_id tabId status tab_url e tabs) as [H|H];
      [by unfold tabs' in Hne|].
    assert (tabs' !! tabId = Some (homeUrl runtime_id)) as Hhome.
    { unfold tabs'. rewrite H. unfold redirectToHomePage.
      rewrite lookup_alter_eq. destruct (tabs !! tabId) as [old|] eqn:Hold; [done|].
      exfalso. apply Hne. unfold tabs'. rewrite H. unfold redirectToHomePage.
      apply map_eq. intros j. destruct (decide (j = tabId)) as [->|Hj].
      - by rewrite lookup_alter_eq, Hold.
      - by rewrite lookup_alter_ne. }
    split; [exact Hhome|]. rewrite Hhome.
    apply handleTabUpdate_exempt, homeUrl_exempt.
Qed.

(** X6: outside a session (the stored phase is anything but RUNNING, or is
    not stored at all) a tab that has finished loading is sent to the home
    page exactly when its URL passes the four tests and no pattern of the
    stored list matches it as a glob; a tab that is still loading, or whose
    URL the listener is not given, is left alone. *)
Theorem guard_outside_session (runtime_id u : string) (tabId : nat)
    (e : Env) (tabs : Tabs) (ps : list string) :
  storage e !! STORAGE_KEYS.TIMER_STATE ≠ Some (VStr TIMER_STATE.RUNNING) →
  orEmptyArray (storage e !! "excludedUrls") = VList ps →
  let tabs' := handleTabUpdate runtime_id tabId (Some "complete") (Some u) e tabs in
  (¬ guarded runtime_id u → tabs' = tabs) ∧
  ((∃ p, p ∈ ps ∧ GlobLine p u) → tabs' = tabs) ∧
  (guarded runtime_id u → (¬ ∃ p, p ∈ ps ∧ GlobLine p u) →
     tabs' = redirectToHomePage runtime_id tabId tabs ∧
     (is_Some (tabs !! tabId) → tabs' !! tabId = Some (homeUrl runtime_id))) ∧
  handleTabUpdate runtime_id tabId (Some "loading") (Some u) e tabs = tabs ∧
  handleTabUpdate runtime_id tabId None (Some u) e tabs = tabs ∧
  handleTabUpdate runtime_id tabId (Some "complete") None e tabs = tabs.
Proof.
  intros Hrun Hps tabs'. split; [|split; [|split; [|split; [|split]]]].
  - intros Hg. by apply handleTabUpdate_exempt.
  - intros Hm. destruct (guarded_dec runtime_id u) as [Hg|Hg];
      [|by apply handleTabUpdate_exempt].
    unfold tabs'. rewrite (handleTabUpdate_blocking _ _ _ _ _ ps) by done.
    apply checkExclusions_false in Hm. rewrite Hm.
    by rewrite bool_decide_eq_false_2.
  - intros Hg Hm. apply checkExclusions_true in Hm.
    assert (tabs' = redirectToHomePage runtime_id tabId tabs) as Ht.
    { unfold tabs'. rewrite (handleTabUpdate_blocking _ _ _ _ _ ps) by done.
      by rewrite bool_decide_eq_true_2. }
    split; [exact Ht|]. intros [old Hold]. rewrite Ht. unfold redirectToHomePage.
    by rewrite lookup_alter_eq, Hold.
  - unfold handleTabUpdate. rewrite bool_decide_eq_false_2 by done.
    by rewrite andb_false_r.
  - unfold handleTabUpdate. rewrite bool_decide_eq_false_2 by done.
    by rewrite andb_false_r.
  - done.
Qed.

(** X7: a stored exclusion list that is no array and cannot be iterated (a
    number other than 0) makes the loop over it throw; the listener
    catches the exception, so with such a value no tab is ever
    redirected. *)
Theorem guard_fault_leaves_tab (runtime_id : string) (tabId : nat)
    (status tab_url : option string) (e : Env) (tabs : Tabs) (n : Z) :
  storage e !! "excludedUrls" = Some (VNum n) → n ≠ 0%Z →
  handleTabUpdate runtime_id tabId status tab_url e tabs = tabs.
Proof.
  intros Hn Hn0. unfold handleTabUpdate. destruct tab_url as [url|]; [|done].
  rewrite guardKeys_excluded, Hn.
  assert (orEmptyArray (Some (VNum n)) = VNum n) as ->.
  { unfold orEmptyArray. simpl. by destruct (Z.eqb_spec n 0). }
  unfold isUrlBlockableOf.
  by repeat case_match.
Qed.

Section WithPlatform.
Context {P : Platform}.

(** *** A session in progress *)

Lemma startTimer_store `{!PlatformLaws P} d h e s' :
  startTimer d (h, e) = Some s' →
  validTime (clock e + d * 60 * 1000) ∧
  s'.2 = storageSet
           (startItems (clock e + d * 60 * 1000) d (randomUUID (uuidsDrawn e)))
           (set_uuidsDrawn (S (uuidsDrawn e)) e).
Proof.
  unfold startTimer.
  destruct (TimeClip (clock e + d * 60 * 1000)) as [t|] eqn:Ht; [|done].
  apply TimeClip_Some in Ht as [-> Hvalid].
  intros Heq. apply (f_equal (from_option snd e)) in Heq.
  cbn [toISOString fmap option_fmap option_map mbind option_bind from_option] in Heq.
  rewrite <- Heq. split; [done|].
  set (e1 := storageSet _ (set_uuidsDrawn _ e)).
  assert (e1 = storageSet
           (startItems (clock e + d * 60 * 1000) d (randomUUID (uuidsDrawn e)))
           (set_uuidsDrawn (S (uuidsDrawn e)) e)) as He1 by reflexivity.
  assert (storage e1 !! STORAGE_KEYS.TIMER_STATE = Some (VStr TIMER_STATE.RUNNING)) as Hrun.
  { rewrite He1, storageSet_storage.
    apply setItems_written; [apply startItems_NoDup|]. apply list_elem_of_here. }
  assert (newDate (storage e1 !! STORAGE_KEYS.END_TIME)
          = Some (clock e + d * 60 * 1000)%Z) as Hdate.
  { rewrite He1, storageSet_storage.
    rewrite (setItems_written _ _ STORAGE_KEYS.END_TIME
               (VStr (Date_toISOString (clock e + d * 60 * 1000))));
      [|apply startItems_NoDup|apply list_elem_of_further, list_elem_of_here].
    by apply Date_parse_toISOString. }
  destruct (updateUI_running_remaining h e1 _ Hrun Hdate) as [-> _]. exact He1.
Qed.

Lemma startItems_phase t d sid e :
  storage (storageSet (startItems t d sid) e) !! STORAGE_KEYS.TIMER_STATE
  = Some (VStr TIMER_STATE.RUNNING).
Proof.
  rewrite storageSet_storage.
  apply setItems_written; [apply startItems_NoDup|]. apply list_elem_of_here.
Qed.

(** X8: starting a session lifts the guard: once [startTimer] has returned,
    no update event of any tab, at any URL, makes the listener navigate
    the tab; the store says RUNNING.  The same holds after every tick of
    the countdown that finds time left, since such a tick leaves the
    store alone. *)
Theorem session_lifts_guard `{!PlatformLaws P} (d : Z) (h : Home) (e : Env)
    (s' : Home * Env) (runtime_id : string) (tabId id : nat)
    (status tab_url : option string) (tabs : Tabs) (endTime later : Z) :
  startTimer d (h, e) = Some s' →
  handleTabUpdate runtime_id tabId status tab_url s'.2 tabs = tabs ∧
  (intervals s'.1 !! id = Some endTime → (0 < endTime - later)%Z →
   let s'' := tick id (s'.1, set_clock later s'.2) in
   storage s''.2 = storage s'.2 ∧
   handleTabUpdate runtime_id tabId status tab_url s''.2 tabs = tabs).
Proof.
  intros Hstart. destruct (startTimer_store _ _ _ _ Hstart) as [_ He].
  assert (storage s'.2 !! STORAGE_KEYS.TIMER_STATE = Some (VStr TIMER_STATE.RUNNING))
    as Hrun by (rewrite He; apply startItems_phase).
  split; [by apply handleTabUpdate_running|].
  intros Hid Hleft s''.
  assert (s''.2 = set_clock later s'.2) as Hs''.
  { unfold s'', tick. rewrite Hid.
    change (clock (set_clock later s'.2)) with later.
    by destruct (Z.leb_spec (endTime - later) 0); [lia|]. }
  rewrite Hs''. split; [done|]. by apply handleTabUpdate_running.
Qed.

(** *** The end of the countdown is announced once *)

(** X9: the tick that finds no time left sends one [timerFinished] message;
    the background answers that message with one notification and leaves
    the store alone.  A tick that finds time left sends nothing, and a
    message of any other type raises no notification. *)
Theorem expiry_notifies_once (id : nat) (endTime : Z) (h : Home) (e : Env) :
  intervals h !! id = Some endTime →
  let s' := tick id (h, e) in
  ((endTime - clock e <= 0)%Z →
     messages s'.2 = messages e ++ ["timerFinished"] ∧
     notifications s'.2 = notifications e ∧
     notifications (dispatch (OnMessage "timerFinished") s'.2)
     = notifications e ++ ["FocusFlow Session Complete!"] ∧
     storage (dispatch (OnMessage "timerFinished") s'.2) = storage s'.2) ∧
  ((0 < endTime - clock e)%Z → s'.2 = e) ∧
  (∀ type, type ≠ "timerFinished" → dispatch (OnMessage type) s'.2 = s'.2).
Proof.
  intros Hid s'. split; [|split].
  - intros Hle. unfold s'. rewrite (tick_expired _ _ _ _ Hid Hle). cbn [snd].
    done.
  - intros Hleft. unfold s', tick. rewrite Hid.
    by destruct (Z.leb_spec (endTime - clock e) 0); [lia|].
  - intros type Htype. cbn [dispatch]. unfold handleMessage.
    by apply String.eqb_neq in Htype as ->.
Qed.

End WithPlatform.

End GuardFacts.

(* ===================================================================== *)
(** ** The options page *)
(* ===================================================================== *)

Module OptionsFacts.
Import Js Matcher Store Model Terms Guard OptionsPage Notions.
Import MatcherFacts StoreFacts ModelFacts SummaryFacts PatternFacts GuardFacts.

(** *** Trimming twice *)

Lemma trimEnd_idem s : trimEnd (trimEnd s) = trimEnd s.
Proof.
  induction s as [|c s IH]; [done|]. simpl.
  destruct (isWhiteSpace c && isEmpty (trimEnd s)) eqn:Hc; [done|].
  simpl. by rewrite IH, Hc.
Qed.

Lemma trimStart_token s : startsToken s = true → trimStart s = s.
Proof. destruct s as [|c s]; [done|]. simpl. by intros ->%negb_true_iff. Qed.

Lemma trim_idem s : trim (trim s) = trim s.
Proof.
  unfold trim. destruct (trimStart_head s) as [->|Hhead]; [done|].
  rewrite (trimStart_token (trimEnd (trimStart s))) by by apply trimEnd_head.
  apply trimEnd_idem.
Qed.

Lemma trim_trimmed s : trim s ≠ EmptyString → trimmed (trim s).
Proof. intros Hne. split; [apply trim_idem|done]. Qed.

Lemma isEmpty_false s : isEmpty s = false ↔ s ≠ EmptyString.
Proof. by destruct s. Qed.

(** *** Rendering *)

Lemma renderWildcards_urls o : excludedUrls (renderWildcards o) = excludedUrls o.
Proof. by destruct o as [input view [|u urls]]. Qed.

Lemma renderWildcards_input o : wildcardInput (renderWildcards o) = wildcardInput o.
Proof. by destruct o as [input view [|u urls]]. Qed.

Lemma renderWildcards_idem o : renderWildcards (renderWildcards o) = renderWildcards o.
Proof. by destruct o as [input view [|u urls]]. Qed.

Lemma renderWildcards_typed text o :
  renderWildcards o = o →
  renderWildcards (set_wildcardInput text o) = set_wildcardInput text o.
Proof.
  destruct o as [input view [|u urls]]; unfold renderWildcards; simpl;
    by intros [= ->].
Qed.

Lemma rendered_rows o rows i w :
  renderWildcards o = o → wildcardList o = ListItems rows →
  (i, w) ∈ rows → excludedUrls o !! i = Some w.
Proof.
  intros Ho Hrows Hin. rewrite <- Ho in Hrows. unfold renderWildcards in Hrows.
  destruct (excludedUrls o) as [|u urls] eqn:E; [done|].
  assert (rows = imap (λ index url, (index, url)) (u :: urls)) as ->
    by (cbn [wildcardList set_wildcardList] in Hrows; congruence).
  apply elem_of_lookup_imap_1 in Hin as (j & x & [= -> ->] & Hx). done.
Qed.

(** *** The stored list *)

Lemma stored_list e l :
  orEmptyArray
    (storage (storageSet [("excludedUrls", VList l)] e) !! "excludedUrls")
  = VList l.
Proof. rewrite storageSet_storage, setItems_one, lookup_insert_eq. done. Qed.

Lemma stored_other e l k :
  k ≠ "excludedUrls" →
  storage (storageSet [("excludedUrls", VList l)] e) !! k = storage e !! k.
Proof. intros Hk. rewrite storageSet_storage, setItems_one. by rewrite lookup_insert_ne. Qed.

Lemma handleAddWildcard_new o e :
  trim (wildcardInput o) ≠ EmptyString →
  trim (wildcardInput o) ∉ excludedUrls o →
  handleAddWildcard (o, e) =
    let urls := excludedUrls o ++ [trim (wildcardInput o)] in
    (renderWildcards (set_wildcardInput EmptyString (set_excludedUrls urls o)),
     storageSet [("excludedUrls", VList urls)] e).
Proof.
  intros Hne Hnew. unfold handleAddWildcard.
  apply isEmpty_false in Hne. rewrite Hne.
  rewrite bool_decide_eq_false_2 by done. reflexivity.
Qed.

Lemma handleAddWildcard_ignored o e :
  trim (wildcardInput o) = EmptyString ∨ trim (wildcardInput o) ∈ excludedUrls o →
  handleAddWildcard (o, e) = (o, e).
Proof.
  unfold handleAddWildcard. intros [->|Hin]; [done|].
  rewrite (bool_decide_eq_true_2 _ Hin). by rewrite andb_false_r.
Qed.

(** *** The invariant of the options page *)

Lemma optionsInv_add o e : optionsInv (o, e) → optionsInv (handleAddWildcard (o, e)).
Proof.
  intros (Hst & Hnd & Htr & Hr).
  destruct (decide (trim (wildcardInput o) = EmptyString)) as [Hblank|Hne];
    [by rewrite handleAddWildcard_ignored by auto|].
  destruct (decide (trim (wildcardInput o) ∈ excludedUrls o)) as [Hin|Hnew];
    [by rewrite handleAddWildcard_ignored by auto|].
  rewrite handleAddWildcard_new by done. cbv zeta.
  split; [|split; [|split]]; cbn [fst snd].
  - rewrite renderWildcards_urls. apply stored_list.
  - rewrite renderWildcards_urls. cbn. apply NoDup_app. split; [done|].
    split; [|apply NoDup_singleton].
    intros x Hx ->%list_elem_of_singleton. done.
  - rewrite renderWildcards_urls. cbn. apply Forall_app. split; [done|].
    apply Forall_singleton. by apply trim_trimmed.
  - apply renderWildcards_idem.
Qed.

Lemma optionsInv_delete index o e :
  optionsInv (o, e) → optionsInv (handleDeleteWildcard index (o, e)).
Proof.
  intros (Hst & Hnd & Htr & Hr). unfold handleDeleteWildcard.
  split; [|split; [|split]]; cbn [fst snd].
  - rewrite renderWildcards_urls. apply stored_list.
  - rewrite renderWildcards_urls. cbn.
    eapply sublist_NoDup; [done|apply sublist_delete].
  - rewrite renderWildcards_urls. cbn. by apply Forall_delete.
  - apply renderWildcards_idem.
Qed.

Lemma optionsInv_event s ev : optionsInv s → optionsInv (handleEvent s ev).
Proof.
  destruct s as [o e], ev as [text| |index]; cbn [handleEvent fst snd].
  - intros (Hst & Hnd & Htr & Hr). split; [|split; [|split]]; try done.
    cbn [fst]. by apply renderWildcards_typed.
  - apply optionsInv_add.
  - apply optionsInv_delete.
Qed.

Lemma handleEvent_other s ev k :
  k ≠ "excludedUrls" → storage (handleEvent s ev).2 !! k = storage s.2 !! k.
Proof.
  intros Hk. destruct s as [o e], ev as [text| |index]; cbn [handleEvent fst snd].
  - done.
  - unfold handleAddWildcard. case_match; [|done]. cbn [snd]. by apply stored_other.
  - unfold handleDeleteWildcard. cbn [snd]. by apply stored_other.
Qed.

Lemma loadWildcards_reads e o0 o :
  loadWildcards e o0 = Some o →
  orEmptyArray (storage e !! "excludedUrls") = VList (excludedUrls o)
  ∧ renderWildcards o = o ∧ wildcardInput o = wildcardInput o0.
Proof.
  unfold loadWildcards, orEmptyArray.
  rewrite storageGet_asked by decide_in.
  destruct (truthy (storage e !! "excludedUrls")) eqn:Ht.
  - destruct (storage e !! "excludedUrls") as [[| | |urls]|]; try done.
    intros [= <-]. rewrite renderWildcards_urls, renderWildcards_idem,
      renderWildcards_input. done.
  - intros [= <-]. done.
Qed.

(** X10: whatever the user does on the options page (typing in the field,
    submitting the form, clicking a delete button, in any order and any
    number of times), the page and the store stay in step: the store holds
    the very list the page shows, the list has no pattern twice, every
    pattern in it is trimmed and not empty, and no other key of the store
    is written.  This holds from a page loaded over a store whose list has
    these properties; a store without a list is one. *)
Theorem options_page_invariant (e : Env) (o0 o : Options)
    (events : list OptionsEvent) :
  loadWildcards e o0 = Some o →
  NoDup (excludedUrls o) → Forall trimmed (excludedUrls o) →
  let s' := foldl handleEvent (o, e) events in
  orEmptyArray (storage e !! "excludedUrls") = VList (excludedUrls o) ∧
  optionsInv s' ∧
  orEmptyArray (storage s'.2 !! "excludedUrls") = VList (excludedUrls s'.1) ∧
  NoDup (excludedUrls s'.1) ∧
  Forall (λ w, trim w = w ∧ w ≠ EmptyString) (excludedUrls s'.1) ∧
  (∀ k, k ≠ "excludedUrls" → storage s'.2 !! k = storage e !! k) ∧
  (storage e !! "excludedUrls" = None →
   excludedUrls o = [] ∧ wildcardList o = NoUrlsExcluded).
Proof.
  intros Hload Hnd Htr s'.
  destruct (loadWildcards_reads _ _ _ Hload) as (Hst & Hr & _).
  assert (optionsInv s' ∧
          ∀ k, k ≠ "excludedUrls" → storage s'.2 !! k = storage e !! k) as [Hinv Hother].
  { unfold s'. clear s'.
    assert (optionsInv (o, e)) as Hinv by done.
    assert (∀ k, k ≠ "excludedUrls" → storage (o, e).2 !! k = storage e !! k)
      as Hother by done.
    revert Hinv Hother. generalize (o, e). clear.
    induction events as [|ev events IH]; intros s Hinv Hother; [done|].
    cbn [foldl]. apply IH; [by apply optionsInv_event|].
    intros k Hk. rewrite handleEvent_other by done. by apply Hother. }
  split; [done|]. split; [done|].
  destruct Hinv as (H1 & H2 & H3 & H4).
  split; [done|]. split; [done|]. split; [done|]. split; [done|].
  intros Hnone. rewrite Hnone in Hst. injection Hst as Hl.
  split; [done|]. rewrite <- Hr. unfold renderWildcards. by rewrite <- Hl.
Qed.

(** X11: the delete button of a row removes the pattern of that row and no
    other: after the click the pattern is gone from the page and from the
    store, every other pattern is still there, and nothing was added. *)
Theorem delete_removes_clicked (o : Options) (e : Env)
    (rows : list (nat * string)) (index : nat) (w : string) :
  optionsInv (o, e) →
  wildcardList o = ListItems rows → (index, w) ∈ rows →
  let s' := handleDeleteWildcard index (o, e) in
  (w ∉ excludedUrls s'.1) ∧
  (∀ w', w' ≠ w → w' ∈ excludedUrls o → w' ∈ excludedUrls s'.1) ∧
  (∀ w', w' ∈ excludedUrls s'.1 → w' ∈ excludedUrls o) ∧
  S (length (excludedUrls s'.1)) = length (excludedUrls o) ∧
  storage s'.2 !! "excludedUrls" = Some (VList (excludedUrls s'.1)) ∧
  optionsInv s'.
Proof.
  intros Hinv Hrows Hin s'.
  pose proof (optionsInv_delete index o e Hinv) as Hinv'.
  destruct Hinv as (Hst & Hnd & Htr & Hr). cbn [fst snd] in *.
  pose proof (rendered_rows o rows index w Hr Hrows Hin) as Hw.
  assert (excludedUrls s'.1 = delete index (excludedUrls o)) as Hl.
  { unfold s', handleDeleteWildcard. cbn [fst]. by rewrite renderWildcards_urls. }
  rewrite Hl.
  pose proof (take_drop_middle _ _ _ Hw) as Hsplit.
  rewrite <- Hsplit in Hnd. rewrite delete_take_drop.
  apply NoDup_app in Hnd as (Hnd1 & Hnot & Hnd2).
  apply NoDup_cons in Hnd2 as [Hw2 Hnd2].
  split; [|split; [|split; [|split; [|split]]]].
  - rewrite elem_of_app. intros [H1|H2]; [|done].
    apply (Hnot w H1). left.
  - intros w' Hne Hin'. rewrite <- Hsplit in Hin'.
    rewrite elem_of_app, elem_of_cons in Hin'. rewrite elem_of_app.
    destruct Hin' as [?|[?|?]]; [by left|done|by right].
  - intros w' Hin'. rewrite <- Hsplit.
    rewrite elem_of_app in Hin'. rewrite elem_of_app, elem_of_cons. tauto.
  - pose proof (lookup_lt_Some _ _ _ Hw) as Hlt.
    rewrite length_app, length_take, length_drop. lia.
  - unfold s', handleDeleteWildcard. cbn [snd fst].
    rewrite storageSet_storage, setItems_one, lookup_insert_eq.
    cbn [excludedUrls set_excludedUrls]. by rewrite delete_take_drop.
  - exact Hinv'.
Qed.

(** X12: a submitted text without a token, or one that trims to a pattern
    already in the list, changes nothing: the list and the store are as
    they were, no write is made, and the text stays in the field. *)
Theorem add_ignores_blank_and_known (o : Options) (e : Env) :
  countTokens (wildcardInput o) = 0 ∨ trim (wildcardInput o) ∈ excludedUrls o →
  handleAddWildcard (o, e) = (o, e).
Proof.
  intros [H0|Hin]; apply handleAddWildcard_ignored; [left|by right].
  by apply trim_empty_tokens.
Qed.

(** X13: two options pages do not hear of each other.  A page keeps the list
    it loaded and writes that list back with its own change, so when two
    pages were loaded from the same list and each adds a pattern, the
    store ends up with the list of the page that wrote last: the pattern
    added on the other page is gone from the store. *)
Theorem options_pages_do_not_sync (oA oB : Options) (e : Env) (a b : string) :
  excludedUrls oA = excludedUrls oB →
  trim a ≠ EmptyString → trim a ∉ excludedUrls oA →
  trim b ≠ EmptyString → trim b ∉ excludedUrls oB →
  let sA := handleAddWildcard (set_wildcardInput a oA, e) in
  let sB := handleAddWildcard (set_wildcardInput b oB, sA.2) in
  storage sA.2 !! "excludedUrls" = Some (VList (excludedUrls oA ++ [trim a])) ∧
  storage sB.2 !! "excludedUrls" = Some (VList (excludedUrls oA ++ [trim b])) ∧
  (trim a ≠ trim b → trim a ∉ excludedUrls oA ++ [trim b]) ∧
  excludedUrls sA.1 = excludedUrls oA ++ [trim a].
Proof.
  intros Hsame Ha Hnewa Hb Hnewb sA sB.
  assert (sA = (renderWildcards
                  (set_wildcardInput EmptyString
                     (set_excludedUrls (excludedUrls oA ++ [trim a])
                        (set_wildcardInput a oA))),
                storageSet [("excludedUrls", VList (excludedUrls oA ++ [trim a]))] e))
    as HsA by (unfold sA; by rewrite handleAddWildcard_new).
  assert (sB = (renderWildcards
                  (set_wildcardInput EmptyString
                     (set_excludedUrls (excludedUrls oB ++ [trim b])
                        (set_wildcardInput b oB))),
                storageSet [("excludedUrls", VList (excludedUrls oB ++ [trim b]))] sA.2))
    as HsB by (unfold sB; by rewrite handleAddWildcard_new).
  split; [|split; [|split]].
  - rewrite HsA. cbn [snd].
    by rewrite storageSet_storage, setItems_one, lookup_insert_eq.
  - rewrite HsB. cbn [snd].
    by rewrite storageSet_storage, setItems_one, lookup_insert_eq, Hsame.
  - intros Hab. rewrite elem_of_app, list_elem_of_singleton. intros [?|?]; done.
  - rewrite HsA. cbn [fst]. by rewrite renderWildcards_urls.
Qed.

(** *** From the options page to the guard *)

Lemma handleTabUpdate_matched runtime_id tabId status u e tabs ps :
  orEmptyArray (storage e !! "excludedUrls") = VList ps →
  (∃ p, p ∈ ps ∧ GlobLine p u) →
  handleTabUpdate runtime_id tabId status (Some u) e tabs = tabs.
Proof.
  intros Hps Hm. destruct (guarded_dec runtime_id u) as [Hg|Hg];
    [|by apply handleTabUpdate_exempt].
  unfold handleTabUpdate.
  rewrite guardKeys_excluded, Hps, isUrlBlockableOf_list.
  rewrite (isUrlBlockable_guarded _ _ _ Hg).
  apply checkExclusions_false in Hm. rewrite Hm. by repeat case_match.
Qed.

(** X14: a pattern submitted on the options page takes effect in the guard:
    the trimmed text is appended to the stored list, and from then on no
    tab whose URL the pattern matches as a glob is redirected, in any
    phase of the timer; the URLs that the list exempted before stay
    exempt. *)
Theorem added_pattern_exempts (o : Options) (e : Env) (runtime_id u : string)
    (tabId : nat) (status : option string) (tabs : Tabs) :
  let w := trim (wildcardInput o) in
  w ≠ EmptyString → w ∉ excludedUrls o →
  let s' := handleAddWildcard (o, e) in
  storage s'.2 !! "excludedUrls" = Some (VList (excludedUrls o ++ [w])) ∧
  excludedUrls s'.1 = excludedUrls o ++ [w] ∧
  wildcardInput s'.1 = EmptyString ∧
  (GlobLine w u ∨ (∃ p, p ∈ excludedUrls o ∧ GlobLine p u) →
   handleTabUpdate runtime_id tabId status (Some u) s'.2 tabs = tabs).
Proof.
  intros w Hne Hnew s'.
  assert (s' = (renderWildcards
                  (set_wildcardInput EmptyString
                     (set_excludedUrls (excludedUrls o ++ [w]) o)),
                storageSet [("excludedUrls", VList (excludedUrls o ++ [w]))] e))
    as -> by (unfold s'; by rewrite handleAddWildcard_new).
  cbn [fst snd]. split; [|split; [|split]].
  - by rewrite storageSet_storage, setItems_one, lookup_insert_eq.
  - by rewrite renderWildcards_urls.
  - by rewrite renderWildcards_input.
  - intros Hm. apply (handleTabUpdate_matched _ _ _ _ _ _ (excludedUrls o ++ [w]));
      [apply stored_list|].
    destruct Hm as [Hm|(p & Hp & Hm)].
    + exists w. split; [|done]. apply elem_of_app. right. left.
    + exists p. split; [|done]. apply elem_of_app. by left.
Qed.

End OptionsFacts.

(* ===================================================================== *)
(** ** The home page: fields, display and countdown *)
(* ===================================================================== *)

Module PageFacts.
Import Js Matcher Store Model Terms Guard OptionsPage Startup Notions.
Import MatcherFacts StoreFacts ModelFacts SummaryFacts LogFacts.
Import PatternFacts GuardFacts OptionsFacts.

Section WithPlatform.
Context {P : Platform}.

(** *** The debounced writes *)

Lemma summaryInputEvent_fields text h :
  summaryInput (summaryInputEvent text h) = text ∧
  summarySync (summaryInputEvent text h) = Some text ∧
  noteSync (summaryInputEvent text h) = noteSync h.
Proof.
  unfold summaryInputEvent.
  destruct (validateSummary_fields (set_summaryInput text h)) as (-> & -> & _).
  split; [done|]. split; [done|]. unfold validateSummary. by case_match.
Qed.

(** X15: a burst of edits is written once: after any number of [input] events
    on the summary field, the debounce timer that runs out writes the text
    of the last event in one [set] call, and running out again it writes
    nothing.  The note field behaves the same. *)
Theorem debounce_writes_last (texts : list string) (last : string)
    (h : Home) (e : Env) :
  let typed := foldl (λ h text, summaryInputEvent text h) h (texts ++ [last]) in
  let s' := flushSummarySync (typed, e) in
  let noted := foldl (λ h text, noteInputEvent text h) h (texts ++ [last]) in
  let n' := flushNoteSync (noted, e) in
  (summaryInput typed = last ∧
   s'.2 = storageSet [(STORAGE_KEYS.CURRENT_SUMMARY, VStr last)] e ∧
   setCalls s'.2 = setCalls e ++ [[(STORAGE_KEYS.CURRENT_SUMMARY, VStr last)]] ∧
   flushSummarySync s' = s') ∧
  (noteInput noted = last ∧
   n'.2 = storageSet [(STORAGE_KEYS.CURRENT_NOTE, VStr last)] e ∧
   setCalls n'.2 = setCalls e ++ [[(STORAGE_KEYS.CURRENT_NOTE, VStr last)]] ∧
   flushNoteSync n' = n').
Proof.
  intros typed s' noted n'. split.
  - assert (typed = summaryInputEvent last
                      (foldl (λ h text, summaryInputEvent text h) h texts)) as Ht
      by (unfold typed; by rewrite foldl_app).
    destruct (summaryInputEvent_fields last
                (foldl (λ h text, summaryInputEvent text h) h texts))
      as (Hin & Hsync & _).
    rewrite <- Ht in Hin, Hsync.
    assert (s' = (set_summarySync None typed,
                  storageSet [(STORAGE_KEYS.CURRENT_SUMMARY, VStr last)] e)) as ->
      by (unfold s', flushSummarySync; by rewrite Hsync).
    done.
  - assert (noted = noteInputEvent last
                      (foldl (λ h text, noteInputEvent text h) h texts)) as Ht
      by (unfold noted; by rewrite foldl_app).
    assert (noteInput noted = last ∧ noteSync noted = Some last) as [Hin Hsync]
      by by rewrite Ht.
    assert (n' = (set_noteSync None noted,
                  storageSet [(STORAGE_KEYS.CURRENT_NOTE, VStr last)] e)) as ->
      by (unfold n', flushNoteSync; by rewrite Hsync).
    done.
Qed.

(** *** The summary on two pages *)

Lemma validateSummary_pending h : pendingCurrent (validateSummary h).
Proof.
  intros text. destruct (validateSummary_fields h) as (-> & -> & _). congruence.
Qed.

Lemma orEmpty_text text : orEmpty (Some (VStr text)) = VStr text.
Proof. by destruct text. Qed.

Lemma summaryChange_only old text h e :
  handleStorageChange
    (changeOf STORAGE_KEYS.CURRENT_SUMMARY old (Some (VStr text))) "local" (h, e)
  = (if bool_decide (summaryInput h = text) then h
     else validateSummary (set_summaryInput text h), e).
Proof.
  unfold handleStorageChange, changeOf.
  change (negb (String.eqb "local" "local")) with false. cbv iota.
  rewrite lookup_singleton_eq, !lookup_singleton_ne by done.
  cbn [newValue]. rewrite orEmpty_text. change (toString (VStr text)) with text.
  destruct (decide (summaryInput h = text)) as [Heq|Hne].
  - rewrite (bool_decide_eq_true_2 (summaryInput h = text)) by done.
    by rewrite bool_decide_eq_true_2 by by rewrite Heq.
  - rewrite (bool_decide_eq_false_2 (summaryInput h = text)) by done.
    by rewrite bool_decide_eq_false_2 by by intros [= ?].
Qed.

(** X16: two pages converge on the summary.  When the text typed on one page
    has been written to the store, the notification makes the other page
    show the same text.  The write that the other page schedules in turn
    carries that very text, so it leaves the store as it is, and the
    notification of its own write changes nothing on the page that typed:
    the exchange ends there. *)
Theorem summary_sync_settles (text : string) (old : option value)
    (hA hB : Home) (e : Env) :
  pendingCurrent hB →
  let sA := flushSummarySync (summaryInputEvent text hA, e) in
  let change := changeOf STORAGE_KEYS.CURRENT_SUMMARY old (Some (VStr text)) in
  let sB := handleStorageChange change "local" (hB, sA.2) in
  storage sA.2 !! STORAGE_KEYS.CURRENT_SUMMARY = Some (VStr text) ∧
  summaryInput sB.1 = text ∧ sB.2 = sA.2 ∧ pendingCurrent sB.1 ∧
  storage (flushSummarySync sB).2 = storage sA.2 ∧
  handleStorageChange change "local" sA = sA.
Proof.
  intros HpB sA change sB.
  destruct (summaryInputEvent_fields text hA) as (Hin & Hsync & _).
  assert (sA = (set_summarySync None (summaryInputEvent text hA),
                storageSet [(STORAGE_KEYS.CURRENT_SUMMARY, VStr text)] e)) as HsA
    by (unfold sA, flushSummarySync; by rewrite Hsync).
  assert (storage sA.2 = <[STORAGE_KEYS.CURRENT_SUMMARY := VStr text]> (storage e))
    as Hst by by rewrite HsA.
  assert (sB = (if bool_decide (summaryInput hB = text) then hB
                else validateSummary (set_summaryInput text hB), sA.2)) as HsB
    by apply summaryChange_only.
  split; [by rewrite Hst, lookup_insert_eq|].
  split; [|split; [by rewrite HsB|split; [|split]]].
  - rewrite HsB. cbn [fst]. case_bool_decide; [done|].
    by destruct (validateSummary_fields (set_summaryInput text hB)) as (-> & _).
  - rewrite HsB. cbn [fst]. case_bool_decide; [done|]. apply validateSummary_pending.
  - rewrite HsB. unfold flushSummarySync.
    assert (∀ h0, pendingCurrent h0 → summaryInput h0 = text →
              storage (match summarySync h0 with
                       | Some t =>
                           (set_summarySync None h0,
                            storageSet [(STORAGE_KEYS.CURRENT_SUMMARY, VStr t)] sA.2)
                       | None => (h0, sA.2)
                       end).2 = storage sA.2) as Hecho.
    { intros h0 Hp0 Hin0. destruct (summarySync h0) as [t|] eqn:Ht; [|done].
      rewrite (Hp0 _ Ht), Hin0. cbn [snd].
      rewrite storageSet_storage, setItems_one, Hst. apply insert_insert_eq. }
    case_bool_decide as Heq.
    + by apply Hecho.
    + apply Hecho; [apply validateSummary_pending|].
      by destruct (validateSummary_fields (set_summaryInput text hB)) as (-> & _).
  - unfold change. rewrite HsA, summaryChange_only.
    by rewrite bool_decide_eq_true_2 by done.
Qed.

(** *** What the view refresh does to the note *)

Lemma loadLogs_note s :
  noteInput (loadLogs s) = noteInput s.1 ∧ noteSync (loadLogs s) = noteSync s.1 ∧
  timerDisplay (loadLogs s) = timerDisplay s.1.
Proof.
  destruct s as [h e]. unfold loadLogs, renderLogs. simpl.
  repeat (case_match; simpl; try done).
Qed.

Lemma validateSummary_note h : noteSync (validateSummary h) = noteSync h.
Proof. unfold validateSummary. by case_match. Qed.

Lemma resetToStartState_note h e :
  noteInput (resetToStartState (h, e)).1 = EmptyString ∧
  noteSync (resetToStartState (h, e)).1 = noteSync h.
Proof.
  rewrite resetToStartState_eq. cbn [fst].
  destruct (loadLogs_note (resetView h, storageSet resetItems e)) as (-> & -> & _).
  cbn [fst]. split; [done|].
  unfold resetView, cleared.
  exact (validateSummary_note (set_summaryInput EmptyString h)).
Qed.

Lemma startCountdown_note v h e :
  noteInput h = EmptyString →
  noteInput (startCountdown v (h, e)).1 = EmptyString ∧
  noteSync (startCountdown v (h, e)).1 = noteSync h.
Proof.
  intros Hn. destruct (newDate v) as [t|] eqn:Hv.
  - unfold startCountdown, startCountdown_with. rewrite Hv.
    by destruct (countdownInterval h) as [id|]; [destruct (id =? 0)%nat|].
  - rewrite (startCountdown_invalid _ _ _ Hv).
    apply (resetToStartState_note (showError timerError h) e).
Qed.

Lemma updateUI_storage h e k :
  k ∉ resetItems.*1 → storage (updateUI (h, e)).2 !! k = storage e !! k.
Proof.
  intros Hk. rewrite updateUI_unfold. unfold updateUI_with.
  repeat case_match; cbn [snd]; try done.
  destruct (newDate (storageGet [STORAGE_KEYS.TIMER_STATE; STORAGE_KEYS.END_TIME;
                                 STORAGE_KEYS.CURRENT_SUMMARY] e !! STORAGE_KEYS.END_TIME))
    as [t|] eqn:Hv.
  - unfold startCountdown, startCountdown_with. rewrite Hv.
    by destruct (countdownInterval _) as [id|]; [destruct (id =? 0)%nat|].
  - rewrite (startCountdown_invalid _ _ _ Hv), resetToStartState_eq. cbn [snd].
    rewrite storageSet_storage. by apply setItems_other.
Qed.

(** X17: every refresh of the view empties the note field.  [updateUI] asks
    the store for three keys, the key of the note is not among them, and
    it assigns the note field from the answer; so whatever note is stored
    or typed, the field is empty afterwards, in every phase.  The stored
    note is left as it is, and so is a write of the typed note that is
    still pending. *)
Theorem updateUI_empties_note (h : Home) (e : Env) :
  let s' := updateUI (h, e) in
  noteInput s'.1 = EmptyString ∧
  noteSync s'.1 = noteSync h ∧
  storage s'.2 !! STORAGE_KEYS.CURRENT_NOTE = storage e !! STORAGE_KEYS.CURRENT_NOTE.
Proof.
  intros s'. split; [|split].
  - unfold s'. rewrite updateUI_unfold. unfold updateUI_with. fold uiKeys.
    rewrite uiResult_note.
    repeat case_match; cbn [fst]; try done.
    + by apply startCountdown_note.
    + match goal with |- noteInput (validateSummary ?x) = _ =>
        by destruct (validateSummary_fields x)
          as (_ & _ & _ & _ & _ & _ & _ & _ & _ & -> & _) end.
  - unfold s'. rewrite updateUI_unfold. unfold updateUI_with. fold uiKeys.
    rewrite uiResult_note.
    repeat case_match; cbn [fst]; try done.
    + match goal with |- noteSync (startCountdown ?v (?x, _)).1 = _ =>
        by destruct (startCountdown_note v x e) as [_ ->] end.
    + match goal with |- noteSync (validateSummary ?x) = _ =>
        by rewrite (validateSummary_note x) end.
  - apply updateUI_storage. decide_in.
Qed.

(** *** The countdown *)

Lemma len_app s t : len (s +:+ t) = len s + len t.
Proof. induction s as [|c s IH]; [done|]. rewrite app_cons. simpl. by rewrite IH. Qed.

Lemma pad2_len n : (0 <= n < 60)%Z → len (pad2 n) = 2.
Proof.
  intros Hn.
  assert (Forall (λ n, len (pad2 n) = 2) (seqZ 0 60)) as Hall
    by (apply (bool_decide_unpack _); by vm_compute).
  rewrite Forall_forall in Hall. apply Hall. apply elem_of_seqZ. lia.
Qed.

(** X18: a tick that finds time left writes it on the display and does nothing
    else: with [s] the whole seconds left, the display reads the minutes
    [s / 60] (counted modulo 60, the hours are not shown) and the seconds
    [s mod 60], each as two digits, five characters in all.  The store,
    the messages and the interval are as before. *)
Theorem tick_shows_time_left (id : nat) (endTime : Z) (h : Home) (e : Env) :
  intervals h !! id = Some endTime → (0 < endTime - clock e)%Z →
  let seconds := ((endTime - clock e) `div` 1000)%Z in
  let s' := tick id (h, e) in
  s'.2 = e ∧
  timerDisplay s'.1 =
    pad2 ((seconds `div` 60) `mod` 60) +:+ ":" +:+ pad2 (seconds `mod` 60) ∧
  len (timerDisplay s'.1) = 5 ∧
  intervals s'.1 = intervals h ∧ countdownInterval s'.1 = countdownInterval h.
Proof.
  intros Hid Hleft seconds s'.
  assert (s' = (set_timerDisplay
                  (pad2 ((seconds `div` 60) `mod` 60) +:+ ":" +:+ pad2 (seconds `mod` 60))
                  h, e)) as ->.
  { unfold s', tick. rewrite Hid.
    destruct (Z.leb_spec (endTime - clock e) 0) as [|_]; [lia|].
    assert (∀ x, ((x `mod` (1000 * 60 * 60)) `div` (1000 * 60)
                  = ((x `div` 1000) `div` 60) `mod` 60)%Z) as Hmin.
    { intros x. change (1000 * 60 * 60)%Z with 3600000%Z.
      change (1000 * 60)%Z with 60000%Z. Z.div_mod_to_equations. lia. }
    assert (∀ x, ((x `mod` (1000 * 60)) `div` 1000 = (x `div` 1000) `mod` 60)%Z)
      as Hsec.
    { intros x. change (1000 * 60)%Z with 60000%Z. Z.div_mod_to_equations. lia. }
    by rewrite Hmin, Hsec. }
  cbn [fst snd]. split; [done|]. split; [done|]. split; [|done].
  change (len (pad2 ((seconds `div` 60) `mod` 60) +:+ ":" +:+ pad2 (seconds `mod` 60)) = 5).
  rewrite !len_app, !pad2_len by (apply Z.mod_pos_bound; lia). done.
Qed.

Lemma ownTick_cleared h :
  ownTick h →
  (if countdownInterval h is Some id
   then if (id =? 0)%nat then intervals h else delete id (intervals h)
   else intervals h) = ∅.
Proof.
  intros Hown. apply map_empty. intros j.
  destruct (countdownInterval h) as [id0|] eqn:Hc0.
  - destruct (Nat.eqb_spec id0 0) as [->|Hne].
    + destruct (intervals h !! j) as [tj|] eqn:Hj; [|done].
      destruct (Hown _ _ Hj) as [Hcj Hj0]. rewrite Hc0 in Hcj. by injection Hcj as <-.
    + destruct (decide (j = id0)) as [->|Hj0]; [apply lookup_delete_eq|].
      rewrite lookup_delete_ne by done.
      destruct (intervals h !! j) as [tj|] eqn:Hj; [|done].
      destruct (Hown _ _ Hj) as [Hcj _]. rewrite Hc0 in Hcj. by injection Hcj as <-.
  - destruct (intervals h !! j) as [tj|] eqn:Hj; [|done].
    destruct (Hown _ _ Hj) as [Hcj _]. by rewrite Hc0 in Hcj.
Qed.

Lemma updateUI_running_single h e endTime :
  pageInv h →
  storage e !! STORAGE_KEYS.TIMER_STATE = Some (VStr TIMER_STATE.RUNNING) →
  newDate (storage e !! STORAGE_KEYS.END_TIME) = Some endTime →
  intervals (updateUI (h, e)).1 = {[ nextTimerId h := endTime ]} ∧
  countdownInterval (updateUI (h, e)).1 = Some (nextTimerId h).
Proof.
  intros [Hown Hnext] Hrun Hdate.
  rewrite updateUI_unfold, (updateUI_with_RUNNING _ _ _ Hrun).
  destruct (startCountdown_valid _ _
              (set_sections (shown false true false) (cleared h)) e Hdate)
    as (h' & -> & _ & Hc & Hi).
  cbn [fst]. split; [|exact Hc]. rewrite Hi.
  rewrite (ownTick_cleared (set_sections (shown false true false) (cleared h)) Hown).
  apply insert_empty.
Qed.

(** X19: however often the view is refreshed while a session runs (on load, on
    each notification of a phase change), the page counts down with one
    interval only: each refresh cancels the interval of the one before, so
    after any number of refreshes, one at least, the page holds exactly
    one interval, it is the one [countdownInterval] names, and it runs
    towards the stored end time. *)
Theorem countdown_single_interval (n : nat) (endTime : Z) (h : Home) (e : Env) :
  pageInv h →
  storage e !! STORAGE_KEYS.TIMER_STATE = Some (VStr TIMER_STATE.RUNNING) →
  newDate (storage e !! STORAGE_KEYS.END_TIME) = Some endTime →
  let h' := Nat.iter (S n) (λ h, (updateUI (h, e)).1) h in
  ∃ id, intervals h' = {[ id := endTime ]} ∧ countdownInterval h' = Some id ∧
        id ≠ 0 ∧ remaining h' e = Some (endTime - clock e)%Z.
Proof.
  intros Hinv Hrun Hdate h'.
  set (hn := Nat.iter n (λ h, (updateUI (h, e)).1) h).
  assert (h' = (updateUI (hn, e)).1) as -> by reflexivity.
  assert (pageInv hn) as Hn.
  { unfold hn. induction n as [|n IH]; [done|].
    cbn [Nat.iter]. by apply pageInv_updateUI. }
  destruct (updateUI_running_single hn e endTime Hn Hrun Hdate) as [Hi Hc].
  exists (nextTimerId hn).
  split; [exact Hi|]. split; [exact Hc|]. split; [apply Hn|].
  unfold remaining. rewrite Hc, Hi. cbn. by rewrite lookup_singleton_eq.
Qed.

End WithPlatform.

End PageFacts.

(* ===================================================================== *)
(** ** The home page: the session log *)
(* ===================================================================== *)

Module JournalFacts.
Import Js Matcher Store Model Terms Guard OptionsPage Startup Notions.
Import MatcherFacts StoreFacts ModelFacts SummaryFacts LogFacts.
Import PatternFacts GuardFacts OptionsFacts PageFacts.

Section WithPlatform.
Context {P : Platform}.

(** *** What a write to the store leaves alone *)

Lemma storageSet_file items e : file (storageSet items e) = file e.
Proof. reflexivity. Qed.

Lemma storageSet_fileWrites items e : fileWrites (storageSet items e) = fileWrites e.
Proof. reflexivity. Qed.

Lemma storageSet_bound items h e : bound h e → bound h (storageSet items e).
Proof. by intros (? & ? & ?). Qed.

Lemma bound_same h h' e e' :
  fileHandle h' = fileHandle h → readPermission e' = readPermission e →
  writePermission e' = writePermission e → bound h e → bound h' e'.
Proof. unfold bound. by intros -> -> ->. Qed.

(** *** The three ways an append ends *)

Lemma appendLogToFile_dismissed logEntry h e :
  fileHandle h = None → pickerChoice e = None →
  appendLogToFile logEntry (h, e) = (set_fileHandle None h, e).
Proof. intros Hh Hp. unfold appendLogToFile. by rewrite Hh, Hp. Qed.

Lemma appendLogToFile_picked logEntry h e content :
  fileHandle h = None → pickerChoice e = Some content →
  appendLogToFile logEntry (h, e) =
    (set_fileHandle (Some LogFile) h,
     writeFile (appended content logEntry)
       (set_savedHandle (Some LogFile)
          (set_readPermission granted
             (set_writePermission granted (set_file (Some content) e))))).
Proof. intros Hh Hp. unfold appendLogToFile. by rewrite Hh, Hp. Qed.

Lemma appendLogToFile_refused logEntry h e :
  fileHandle h = Some LogFile →
  writePermission e = denied ∨ (writePermission e = prompt ∧ userGrants e = false) →
  appendLogToFile logEntry (h, e) =
    (set_fileHandle None h, set_savedHandle None (set_writePermission denied e)).
Proof.
  intros Hh Hw. unfold appendLogToFile, requestReadWrite. rewrite Hh.
  destruct Hw as [Hw|[Hw Hu]]; rewrite Hw, ?Hu; cbn [writePermission set_writePermission];
    [|done].
  do 2 f_equal. by destruct e; simpl in *; subst.
Qed.

(** *** Reading a log of well-formed entries *)

Lemma loadLogs_lists `{!PlatformLaws P} h e entries :
  bound h e → entries ≠ [] →
  file e = Some (joinWith LF (JSON_stringify <$> entries)) →
  Forall wfObject entries →
  loadLogs (h, e) =
    set_pomoLog (LogEntries (sort byEndTimeDesc entries))
      (hideError (set_pomoLog LogCleared h)).
Proof.
  intros Hb Hne Hf Hwf. rewrite (loadLogs_bound h e _ Hb Hf). cbv zeta.
  assert (JSON_stringify <$> entries ≠ []) as Hne' by by destruct entries.
  rewrite trim_braced by (apply braced_join; [done|apply lines_braced]).
  rewrite braced_isEmpty by (apply braced_join; [done|apply lines_braced]).
  rewrite splitLines_joinWith by (done || apply lines_single).
  rewrite mapM_parse by done. unfold renderLogs.
  assert (sort byEndTimeDesc entries ≡ₚ entries) as Hperm by apply sort_perm.
  destruct (sort byEndTimeDesc entries) as [|x l];
    [apply Permutation_nil in Hperm; done|done].
Qed.

Lemma noteEntry_wf sessionId end_time noteText :
  wfObject (noteEntry sessionId end_time noteText).
Proof. apply (bool_decide_unpack _). by vm_compute. Qed.

(** *** Entries with dates: the listing is ordered *)

Lemma sort_dated entries :
  Forall dated entries →
  StronglySorted (λ a b, (endMs b <= endMs a)%Z) (sort byEndTimeDesc entries).
Proof.
  intros Hdated. rewrite (sort_ext _ (byKeyDesc endMs)).
  - apply (sort_sorted endMs).
  - intros x y Hx Hy. rewrite Forall_forall in Hdated.
    apply byEndTimeDesc_key; by apply Hdated.
Qed.

Lemma noteEntry_dated `{!PlatformLaws P} sessionId t noteText :
  validTime t →
  newDate (getProp "end_time" (noteEntry sessionId (Date_toISOString t) noteText))
  = Some t.
Proof. intros Hvalid. by apply Date_parse_toISOString. Qed.

Lemma setProp_dated key v entry :
  key ≠ "end_time" → dated entry → dated (setProp key v entry).
Proof.
  intros Hkey Hdated. unfold dated.
  rewrite getProp_setProp_ne by done. exact Hdated.
Qed.

(** *** Saving a note *)

Lemma saveNote_blank h e : countTokens (noteInput h) = 0 → saveNote (h, e) = (h, e).
Proof.
  intros H0. unfold saveNote. by rewrite trim_len_tokens, bool_decide_eq_true_2.
Qed.

Lemma saveNote_unfold h e :
  0 < countTokens (noteInput h) →
  saveNote (h, e) =
    let logEntry := noteEntry (randomUUID (uuidsDrawn e))
                      (Date_toISOString (clock e)) (noteInput h) in
    let s1 := appendLogToFile logEntry (h, set_uuidsDrawn (S (uuidsDrawn e)) e) in
    let e' := storageSet noteItems s1.2 in
    (loadLogs (set_noteInput EmptyString s1.1, e'), e').
Proof.
  intros Hpos. unfold saveNote.
  rewrite trim_len_tokens, bool_decide_eq_false_2 by lia.
  cbv zeta. fold (noteEntry (randomUUID (uuidsDrawn e))
                    (Date_toISOString (clock e)) (noteInput h)).
  by destruct (appendLogToFile _ _) as [h1 e1].
Qed.

(** X20: saving a note with the log file bound, the file holding entries
    whose [end_time] is a date: the note is appended to the file as its
    new last line, under a newly drawn id and the time of the click; the
    note field is emptied on the page and in the store, in one [set] call
    that touches no other key; and the log is listed again with the note
    in it, the most recent entry first, without an error.  A note without
    a token is not saved: nothing changes at all. *)
Theorem saveNote_appends `{!PlatformLaws P} (h : Home) (e : Env)
    (written : list object) :
  bound h e →
  file e = Some (joinWith LF (JSON_stringify <$> written)) →
  Forall wfObject written →
  Forall dated written → validTime (clock e) →
  let entry := noteEntry (randomUUID (uuidsDrawn e))
                 (Date_toISOString (clock e)) (noteInput h) in
  let s' := saveNote (h, e) in
  (countTokens (noteInput h) = 0 → s' = (h, e)) ∧
  (0 < countTokens (noteInput h) →
   file s'.2 = Some (joinWith LF (JSON_stringify <$> (written ++ [entry]))) ∧
   fileWrites s'.2
   = fileWrites e ++ [joinWith LF (JSON_stringify <$> (written ++ [entry]))] ∧
   noteInput s'.1 = EmptyString ∧
   storage s'.2 !! STORAGE_KEYS.CURRENT_NOTE = Some (VStr EmptyString) ∧
   (∀ k, k ≠ STORAGE_KEYS.CURRENT_NOTE → storage s'.2 !! k = storage e !! k) ∧
   setCalls s'.2 = setCalls e ++ [noteItems] ∧
   uuidsDrawn s'.2 = S (uuidsDrawn e) ∧
   pomoLog s'.1 = LogEntries (sort byEndTimeDesc (written ++ [entry])) ∧
   entry ∈ sort byEndTimeDesc (written ++ [entry]) ∧
   endMs entry = clock e ∧
   StronglySorted (λ a b, (endMs b <= endMs a)%Z)
     (sort byEndTimeDesc (written ++ [entry])) ∧
   errorHidden (errorBox s'.1) = true).
Proof.
  intros Hb Hf Hwf Hdated Hclock entry s'. split; [by apply saveNote_blank|].
  intros Hpos.
  set (e1 := set_uuidsDrawn (S (uuidsDrawn e)) e).
  set (content := joinWith LF (JSON_stringify <$> (written ++ [entry]))).
  set (e2 := writeFile content e1).
  assert (bound h e1) as Hb1 by (by apply (bound_same h h e)).
  assert (s' = (loadLogs (set_noteInput EmptyString h, storageSet noteItems e2),
                storageSet noteItems e2)) as Hs'.
  { unfold s'. rewrite saveNote_unfold by done. cbv zeta. fold entry e1.
    rewrite (appendLogToFile_bound entry h e1 _ Hb1 Hf).
    by rewrite appended_join. }
  assert (bound (set_noteInput EmptyString h) (storageSet noteItems e2)) as Hb2.
  { apply storageSet_bound. unfold e2. apply writeFile_bound.
    by apply (bound_same h _ e1). }
  assert (loadLogs (set_noteInput EmptyString h, storageSet noteItems e2) =
            set_pomoLog (LogEntries (sort byEndTimeDesc (written ++ [entry])))
              (hideError (set_pomoLog LogCleared (set_noteInput EmptyString h))))
    as Hload.
  { apply loadLogs_lists; [done|by destruct written|done|].
    apply Forall_app. split; [done|]. apply Forall_singleton, noteEntry_wf. }
  rewrite Hs'. cbn [fst snd]. rewrite Hload.
  split; [done|]. split; [done|]. split; [done|].
  split; [unfold noteItems;
          by rewrite storageSet_storage, setItems_one, lookup_insert_eq|].
  split; [intros k Hk; unfold noteItems;
          by rewrite storageSet_storage, setItems_one, lookup_insert_ne|].
  split; [done|]. split; [done|]. split; [done|].
  assert (newDate (getProp "end_time" entry) = Some (clock e)) as Hend
    by by apply noteEntry_dated.
  split; [rewrite sort_perm; apply elem_of_app; right; left|].
  split; [unfold endMs; by rewrite Hend|]. split; [|done].
  apply sort_dated, Forall_app. split; [done|].
  apply Forall_singleton. unfold dated. by rewrite Hend.
Qed.

(** X21: when the user dismisses the file picker of a first save, the entry is
    dropped in silence: nothing is written, no message is shown, yet the
    note field is emptied and the stored note cleared as after a save, and
    a session is reset to START with its summary emptied. *)
Theorem dismissed_picker_drops_entry (h : Home) (e : Env) :
  fileHandle h = None → pickerChoice e = None →
  (0 < countTokens (noteInput h) →
   let s' := saveNote (h, e) in
   file s'.2 = file e ∧ fileWrites s'.2 = fileWrites e ∧
   noteInput s'.1 = EmptyString ∧
   storage s'.2 !! STORAGE_KEYS.CURRENT_NOTE = Some (VStr EmptyString) ∧
   errorHidden (errorBox s'.1) = true ∧ pomoLog s'.1 = LogNoFile) ∧
  (0 < countTokens (summaryInput h) →
   ∀ s', saveLog (h, e) = Some s' →
   file s'.2 = file e ∧ fileWrites s'.2 = fileWrites e ∧
   summaryInput s'.1 = EmptyString ∧
   storage s'.2 !! STORAGE_KEYS.TIMER_STATE = Some (VStr TIMER_STATE.START) ∧
   storage s'.2 !! STORAGE_KEYS.CURRENT_SUMMARY = Some (VStr EmptyString) ∧
   errorHidden (errorBox s'.1) = true ∧ pomoLog s'.1 = LogNoFile).
Proof.
  intros Hh Hp. split.
  - intros Hpos s'. unfold s'. rewrite saveNote_unfold by done. cbv zeta.
    rewrite appendLogToFile_dismissed by done. cbn [fst snd].
    split; [done|]. split; [done|].
    split; [|split; [unfold noteItems;
                     by rewrite storageSet_storage, setItems_one, lookup_insert_eq|]];
      unfold loadLogs; done.
  - intros Hpos s' Hsave.
    assert (∃ logEntry, s' = resetToStartState (appendLogToFile logEntry (h, e)))
      as [logEntry ->].
    { revert Hsave. unfold saveLog.
      rewrite trim_len_tokens, bool_decide_eq_false_2 by lia.
      intros Heq. apply bind_Some in Heq as (start_time & _ & Heq).
      apply bind_Some in Heq as (end_time & _ & Heq). eexists.
      apply (f_equal (from_option id (h, e))) in Heq. cbn [from_option id] in Heq.
      symmetry. exact Heq. }
    rewrite appendLogToFile_dismissed by done. rewrite resetToStartState_eq.
    cbn [fst snd].
    destruct (loadLogs_fields (resetView (set_fileHandle None h), storageSet resetItems e))
      as (_ & Hsum & _).
    split; [done|]. split; [done|]. split.
    { rewrite Hsum. cbn [fst].
      change (summaryInput (validateSummary
                (set_summaryInput EmptyString (set_fileHandle None h))) = EmptyString).
      by destruct (validateSummary_fields
                     (set_summaryInput EmptyString (set_fileHandle None h)))
        as (-> & _). }
    split; [apply reset_phase|].
    split; [rewrite storageSet_storage;
            apply setItems_written; [apply resetItems_NoDup|decide_in]|].
    unfold loadLogs. done.
Qed.

(** *** The file handle *)

Lemma resetView_fileHandle h : fileHandle (resetView h) = fileHandle h.
Proof.
  change (fileHandle (validateSummary (set_summaryInput EmptyString h)) = fileHandle h).
  by destruct (validateSummary_fields (set_summaryInput EmptyString h))
    as (_ & _ & _ & _ & _ & _ & _ & _ & -> & _).
Qed.

Lemma resetToStartState_files h e :
  let s' := resetToStartState (h, e) in
  fileHandle s'.1 = fileHandle h ∧ file s'.2 = file e ∧
  readPermission s'.2 = readPermission e ∧
  writePermission s'.2 = writePermission e ∧ savedHandle s'.2 = savedHandle e.
Proof.
  cbv zeta. rewrite resetToStartState_eq. cbn [fst snd].
  destruct (loadLogs_fields (resetView h, storageSet resetItems e))
    as (_ & _ & _ & _ & _ & _ & _ & ->).
  cbn [fst]. by rewrite resetView_fileHandle.
Qed.

Lemma startCountdown_files v h e :
  let s' := startCountdown v (h, e) in
  fileHandle s'.1 = fileHandle h ∧ file s'.2 = file e ∧
  readPermission s'.2 = readPermission e ∧
  writePermission s'.2 = writePermission e ∧ savedHandle s'.2 = savedHandle e.
Proof.
  cbv zeta. destruct (newDate v) as [t|] eqn:Hv.
  - unfold startCountdown, startCountdown_with. rewrite Hv.
    by destruct (countdownInterval h) as [id|]; [destruct (id =? 0)%nat|].
  - rewrite (startCountdown_invalid _ _ _ Hv).
    exact (resetToStartState_files (showError timerError h) e).
Qed.

Lemma updateUI_files h e :
  let s' := updateUI (h, e) in
  fileHandle s'.1 = fileHandle h ∧ file s'.2 = file e ∧
  readPermission s'.2 = readPermission e ∧
  writePermission s'.2 = writePermission e ∧ savedHandle s'.2 = savedHandle e.
Proof.
  cbv zeta. rewrite updateUI_unfold. unfold updateUI_with.
  repeat case_match; try done.
  - match goal with |- context [startCountdown ?v (?x, e)] =>
      exact (startCountdown_files v x e) end.
  - cbn [fst snd]. split; [|done].
    match goal with |- context [validateSummary ?x] =>
      by destruct (validateSummary_fields x)
        as (_ & _ & _ & _ & _ & _ & _ & _ & -> & _) end.
Qed.

Lemma initializeView_bound h e :
  savedHandle e = Some LogFile → readPermission e = granted →
  writePermission e = granted →
  let s' := initializeView (h, e) in
  ∃ h1, s'.1 = loadLogs (h1, s'.2) ∧ bound h1 s'.2 ∧ file s'.2 = file e.
Proof.
  intros Hs Hr Hw. cbv zeta. unfold initializeView, getFileHandle.
  destruct (updateUI_files (hideError (set_fileHandle (savedHandle e) h)) e)
    as (Hh & Hf & Hr' & Hw' & _).
  destruct (updateUI (hideError (set_fileHandle (savedHandle e) h), e)) as [h1 e1].
  cbn [fst snd] in *. exists h1. split; [done|]. split; [|done].
  unfold bound. by rewrite Hh, Hr', Hw', Hr, Hw.
Qed.

(** X22: the first save binds the log file for good.  With no file bound, the
    file the user picks receives the entry after what it held, the page
    keeps the handle, and the handle is put away in the database; a page
    opened afterwards takes the handle from there and lists the log
    without asking for a file. *)
Theorem first_save_binds_file `{!PlatformLaws P} (hA hB : Home) (e : Env)
    (content : string) (entry : object) :
  fileHandle hA = None → pickerChoice e = Some content →
  let sA := appendLogToFile entry (hA, e) in
  let sB := initializeView (hB, sA.2) in
  fileHandle sA.1 = Some LogFile ∧ savedHandle sA.2 = Some LogFile ∧
  file sA.2 = Some (appended content entry) ∧
  fileWrites sA.2 = fileWrites e ++ [appended content entry] ∧
  fileHandle sB.1 = Some LogFile ∧ file sB.2 = file sA.2 ∧
  (content = EmptyString → wfObject entry →
   pomoLog sB.1 = LogEntries [entry] ∧ errorHidden (errorBox sB.1) = true).
Proof.
  intros Hh Hp sA sB.
  assert (sA = (set_fileHandle (Some LogFile) hA,
                writeFile (appended content entry)
                  (set_savedHandle (Some LogFile)
                     (set_readPermission granted
                        (set_writePermission granted (set_file (Some content) e))))))
    as HsA by by apply appendLogToFile_picked.
  destruct (initializeView_bound hB sA.2) as (h1 & Hview & Hb & Hf);
    [by rewrite HsA..|].
  fold sB in Hview, Hb, Hf.
  split; [by rewrite HsA|]. split; [by rewrite HsA|]. split; [by rewrite HsA|].
  split; [by rewrite HsA|]. split.
  { rewrite Hview.
    destruct (loadLogs_fields (h1, sB.2)) as (_ & _ & _ & _ & _ & _ & _ & ->).
    apply Hb. }
  split; [done|]. intros -> Hwf.
  assert (file sB.2 = Some (joinWith LF (JSON_stringify <$> [entry]))) as Hf'
    by by rewrite Hf, HsA.
  rewrite Hview, (loadLogs_lists h1 sB.2 [entry] Hb) by (done || by constructor).
  done.
Qed.

(** X23: when the page may not write to the bound file (the permission is
    denied, or the user refuses the prompt), the append gives the file up:
    nothing is written and no message is shown, the page drops the handle
    and the database forgets it, so that a page opened afterwards starts
    without a log file. *)
Theorem refused_permission_unbinds (h h2 : Home) (e : Env) (entry : object) :
  fileHandle h = Some LogFile →
  writePermission e = denied ∨ (writePermission e = prompt ∧ userGrants e = false) →
  let s' := appendLogToFile entry (h, e) in
  fileHandle s'.1 = None ∧ savedHandle s'.2 = None ∧
  file s'.2 = file e ∧ fileWrites s'.2 = fileWrites e ∧
  errorBox s'.1 = errorBox h ∧
  pomoLog (loadLogs s') = LogNoFile ∧
  fileHandle (initializeView (h2, s'.2)).1 = None.
Proof.
  intros Hh Hw s'.
  assert (s' = (set_fileHandle None h,
                set_savedHandle None (set_writePermission denied e))) as ->
    by by apply appendLogToFile_refused.
  cbn [fst snd]. repeat (split; [done|]).
  unfold initializeView, getFileHandle.
  destruct (updateUI_files
              (hideError (set_fileHandle
                 (savedHandle (set_savedHandle None (set_writePermission denied e))) h2))
              (set_savedHandle None (set_writePermission denied e)))
    as (Hh' & _).
  destruct (updateUI _) as [h1 e1]. cbn [fst snd] in *.
  by destruct (loadLogs_fields (h1, e1)) as (_ & _ & _ & _ & _ & _ & _ & ->).
Qed.

(** X24: an append never shortens the log: whichever way it ends, the file
    afterwards begins with all that it held before, and what was added, if
    anything, is one line feed (none on an empty file) and the JSON text
    of the entry.  A file that is gone stays gone. *)
Theorem append_keeps_content (h : Home) (e : Env) (entry : object) :
  fileHandle h = Some LogFile →
  let s' := appendLogToFile entry (h, e) in
  (∀ old, file e = Some old →
     (file s'.2 = Some old ∧ fileWrites s'.2 = fileWrites e) ∨
     (file s'.2 = Some (appended old entry) ∧
      fileWrites s'.2 = fileWrites e ++ [appended old entry])) ∧
  (∀ old, file e = Some old → ∃ more, file s'.2 = Some (old +:+ more)) ∧
  (file e = None → file s'.2 = None ∧ fileWrites s'.2 = fileWrites e).
Proof.
  intros Hh s'.
  assert (file (requestReadWrite e) = file e ∧
          fileWrites (requestReadWrite e) = fileWrites e) as [Hrf Hrw].
  { unfold requestReadWrite. by repeat case_match. }
  assert ((s'.2 = requestReadWrite e ∨
           s'.2 = set_savedHandle None (requestReadWrite e)) ∨
          ∃ old, file e = Some old ∧
                 s'.2 = writeFile (appended old entry) (requestReadWrite e)) as Hcases.
  { unfold s', appendLogToFile. rewrite Hh. cbv zeta.
    destruct (writePermission (requestReadWrite e)); [|left; by right..].
    unfold getFile. destruct (readPermission (requestReadWrite e)); [|left; by left..].
    rewrite Hrf. destruct (file e) as [old|]; [|left; by left].
    right. by exists old. }
  assert (∀ old, file e = Some old →
     (file s'.2 = Some old ∧ fileWrites s'.2 = fileWrites e) ∨
     (file s'.2 = Some (appended old entry) ∧
      fileWrites s'.2 = fileWrites e ++ [appended old entry])) as Hfirst.
  { intros old Hold. destruct Hcases as [[-> | ->]|(old' & Hold' & ->)].
    - left. by rewrite Hrf, Hrw.
    - left. split; [exact (eq_trans Hrf Hold)|exact Hrw].
    - right. rewrite Hold in Hold'. injection Hold' as <-.
      split; [done|]. change (fileWrites (requestReadWrite e) ++ [appended old entry]
                              = fileWrites e ++ [appended old entry]).
      by rewrite Hrw. }
  split; [exact Hfirst|]. split.
  - intros old Hold. destruct (Hfirst old Hold) as [[-> _]|[-> _]].
    + exists EmptyString. f_equal. clear. induction old as [|c old IH]; [done|].
      by rewrite app_cons, <- IH.
    + eexists. unfold appended. reflexivity.
  - intros Hnone. destruct Hcases as [[-> | ->]|(old' & Hold' & _)].
    + by rewrite Hrf, Hrw.
    + split; [exact (eq_trans Hrf Hnone)|exact Hrw].
    + by rewrite Hnone in Hold'.
Qed.


(** *** Editing an entry and reading the log again *)

Lemma setProp_keys key v obj :
  (setProp key v obj).*1 = obj.*1 ∨
  ((key ∉ obj.*1) ∧ (setProp key v obj).*1 = obj.*1 ++ [key]).
Proof.
  induction obj as [|[k w] obj IH].
  - right. split; [apply not_elem_of_nil|done].
  - cbn [setProp]. destruct (String.eqb k key) eqn:Hk; [by left|].
    apply String.eqb_neq in Hk. rewrite !fmap_cons. cbn [fst].
    destruct IH as [IH|[Hnot IH]]; rewrite IH; [by left|]. right. split; [|done].
    rewrite not_elem_of_cons. split; [congruence|done].
Qed.

Lemma setProp_wf key v obj :
  isIndexLike key = false → wfObject obj → wfObject (setProp key v obj).
Proof.
  intros Hkey [Hnd Hall]. unfold wfObject.
  destruct (setProp_keys key v obj) as [->|[Hnot ->]]; [done|]. split.
  - apply NoDup_app. split; [done|]. split; [|apply NoDup_singleton].
    intros x Hx ->%list_elem_of_singleton. done.
  - apply Forall_app. split; [done|]. by apply Forall_singleton.
Qed.

Section SortRelated.
Context {A : Type} (R : A → A → Prop) (cmp : A → A → Z).
Hypothesis cmp_related : ∀ x y z w, R x y → R z w → cmp x z = cmp y w.

Lemma insertSorted_related x y l l' :
  R x y → Forall2 R l l' →
  Forall2 R (insertSorted cmp x l) (insertSorted cmp y l').
Proof.
  intros Hxy Hl. induction Hl as [|z w l l' Hzw Hl IH]; simpl.
  - by repeat constructor.
  - rewrite (cmp_related x y z w) by done.
    destruct (cmp y w <=? 0)%Z; by repeat constructor.
Qed.

Lemma sort_related l l' :
  Forall2 R l l' → Forall2 R (sort cmp l) (sort cmp l').
Proof.
  induction 1 as [|x y l l' Hxy Hl IH]; simpl; [constructor|].
  by apply insertSorted_related.
Qed.

End SortRelated.

Lemma log_parses `{!PlatformLaws P} entries :
  entries ≠ [] → Forall wfObject entries →
  holds (joinWith LF (JSON_stringify <$> entries)) entries.
Proof.
  intros Hne Hwf. unfold holds.
  assert (JSON_stringify <$> entries ≠ []) as Hne' by by destruct entries.
  rewrite trim_braced by (apply braced_join; [done|apply lines_braced]).
  rewrite splitLines_joinWith by (done || apply lines_single).
  by apply mapM_parse.
Qed.

Lemma updateLogEntry_found sessionId newSummaryText content h e logEntries i entry :
  bound h e → file e = Some content → holds content logEntries →
  logEntries !! i = Some entry →
  getProp "sessionId" entry = Some (VStr sessionId) →
  (∀ j other, j < i → logEntries !! j = Some other →
              getProp "sessionId" other ≠ Some (VStr sessionId)) →
  updateLogEntry sessionId newSummaryText (h, e) =
    (h, writeFile
          (joinWith LF
             (JSON_stringify <$>
                <[i := setProp "summary_text" (VStr newSummaryText) entry]> logEntries))
          e).
Proof.
  intros Hb Hf Hparse Hi Hhas Hfirst. unfold updateLogEntry.
  destruct Hb as (Hh & Hr & Hw). rewrite Hh. unfold getFile. rewrite Hr, Hf.
  unfold holds in Hparse. rewrite Hparse.
  assert (list_find (λ entry0, getProp "sessionId" entry0 = Some (VStr sessionId))
            logEntries = Some (i, entry)) as ->.
  { apply list_find_Some. split; [done|]. split; [done|].
    intros j y Hj Hlt. by eapply Hfirst. }
  rewrite (createWritable_bound h e content) by done.
  do 4 f_equal. apply list_eq. intros j. destruct (decide (j = i)) as [->|Hne].
  - rewrite list_lookup_alter_eq, Hi. cbn.
    by rewrite list_lookup_insert_eq by by eapply lookup_lt_Some.
  - by rewrite list_lookup_alter_ne, list_lookup_insert_ne.
Qed.

(** X26: editing a summary changes neither which entries the log lists nor
    their order, for a log of entries whose [end_time] is a date.  After
    [updateLogEntry] has rewritten the file, reading the log again lists
    the same number of entries, the most recent first as before, position
    by position the entries listed before, except that the edited entry
    has the new summary; every other property of every entry is as it
    was. *)
Theorem edit_keeps_order `{!PlatformLaws P} (sessionId newSummaryText : string)
    (h : Home) (e : Env) (entries : list object) (i : nat) (entry : object) :
  bound h e →
  file e = Some (joinWith LF (JSON_stringify <$> entries)) →
  Forall wfObject entries →
  Forall dated entries →
  entries !! i = Some entry →
  getProp "sessionId" entry = Some (VStr sessionId) →
  (∀ j other, j < i → entries !! j = Some other →
              getProp "sessionId" other ≠ Some (VStr sessionId)) →
  let edit := setProp "summary_text" (VStr newSummaryText) in
  let s' := updateLogEntry sessionId newSummaryText (h, e) in
  let before := sort byEndTimeDesc entries in
  let after := sort byEndTimeDesc (<[i := edit entry]> entries) in
  pomoLog (loadLogs (h, e)) = LogEntries before ∧
  pomoLog (loadLogs s') = LogEntries after ∧
  errorHidden (errorBox (loadLogs s')) = true ∧
  length after = length before ∧
  Forall2 (sameOrEdited entry newSummaryText) before after ∧
  edit entry ∈ after ∧
  getProp "summary_text" (edit entry) = Some (VStr newSummaryText) ∧
  (∀ a b key, sameOrEdited entry newSummaryText a b →
     key ≠ "summary_text" → getProp key b = getProp key a) ∧
  StronglySorted (λ a b, (endMs b <= endMs a)%Z) before ∧
  StronglySorted (λ a b, (endMs b <= endMs a)%Z) after.
Proof.
  intros Hb Hf Hwf Hdated Hi Hhas Hfirst edit s' before after.
  assert (entries ≠ []) as Hne by (intros ->; done).
  assert (<[i := edit entry]> entries ≠ []) as Hne'.
  { intros Hnil. apply (f_equal length) in Hnil. rewrite length_insert in Hnil.
    by destruct entries. }
  assert (Forall wfObject (<[i := edit entry]> entries)) as Hwf'.
  { apply Forall_insert; [done|]. apply setProp_wf; [done|].
    by eapply Forall_lookup_1. }
  assert (s' = (h, writeFile
                    (joinWith LF (JSON_stringify <$> <[i := edit entry]> entries)) e))
    as Hs'.
  { unfold s'. eapply updateLogEntry_found; try done. by apply log_parses. }
  assert (∀ a b key, sameOrEdited entry newSummaryText a b →
            key ≠ "summary_text" → getProp key b = getProp key a) as Hkeep.
  { intros a b key [->|[_ ->]] Hkey; [done|]. by apply getProp_setProp_ne. }
  assert (Forall2 (sameOrEdited entry newSummaryText) before after) as Hrel.
  { unfold before, after. apply (sort_related (sameOrEdited entry newSummaryText)).
    - intros x y z w Hxy Hzw. unfold byEndTimeDesc.
      by rewrite (Hkeep _ _ "end_time" Hxy), (Hkeep _ _ "end_time" Hzw).
    - rewrite <- (list_insert_id entries i entry Hi) at 1.
      apply Forall2_insert; [|by right].
      apply Forall_Forall2_diag, Forall_forall. intros; by left. }
  split; [by rewrite (loadLogs_lists h e entries)|].
  rewrite Hs', (loadLogs_lists h _ (<[i := edit entry]> entries))
    by (done || by apply writeFile_bound).
  split; [done|]. split; [done|].
  split; [symmetry; by eapply Forall2_length|]. split; [exact Hrel|].
  split; [|split; [apply getProp_setProp|split; [exact Hkeep|]]].
  - unfold after. rewrite sort_perm. eapply list_elem_of_lookup_2.
    apply list_lookup_insert_eq. by eapply lookup_lt_Some.
  - split; [by apply sort_dated|]. apply sort_dated, Forall_insert; [done|].
    apply setProp_dated; [done|]. by eapply Forall_lookup_1.
Qed.

(** *** A session from start to log *)

Lemma saveLog_unfold h e endMs minutes :
  0 < countTokens (summaryInput h) →
  newDate (storage e !! STORAGE_KEYS.END_TIME) = Some endMs →
  toNumber (storage e !! STORAGE_KEYS.DURATION) = Some minutes →
  validTime (endMs - minutes * 60 * 1000) →
  saveLog (h, e) =
    Some (resetToStartState
            (appendLogToFile
               (sessionEntry (Date_toISOString (endMs - minutes * 60 * 1000))
                  (Date_toISOString endMs) (summaryInput h)
                  (storage e !! STORAGE_KEYS.SESSION_ID)
                  (storage e !! STORAGE_KEYS.DURATION)) (h, e))).
Proof.
  intros Hpos Hend Hdur Hvalid. unfold saveLog.
  rewrite trim_len_tokens, bool_decide_eq_false_2 by lia.
  fold saveKeys.
  rewrite !(storageGet_asked saveKeys) by (apply (bool_decide_unpack _); by vm_compute).
  rewrite Hend, Hdur. cbn [mbind option_bind].
  rewrite (TimeClip_valid _ Hvalid). reflexivity.
Qed.

(** X27: the entry of a session says when the session began.  When a session
    of [d] minutes is started at the clock [now] and its summary is saved
    later, from any page and at any time, the entry that is appended
    carries the id drawn at the start, the start time [now], the end time
    [now + d] minutes and the duration [d]: the start is recovered from
    the stored end time and duration. *)
Theorem session_entry_round_trip `{!PlatformLaws P} (d : Z) (h h2 : Home)
    (e e2 : Env) (s1 : Home * Env) :
  validTime (clock e) →
  startTimer d (h, e) = Some s1 →
  (∀ k, k ∈ saveKeys → storage e2 !! k = storage s1.2 !! k) →
  0 < countTokens (summaryInput h2) →
  let entry : object :=
    [("type", VStr "session");
     ("sessionId", VStr (randomUUID (uuidsDrawn e)));
     ("start_time", VStr (Date_toISOString (clock e)));
     ("end_time", VStr (Date_toISOString (clock e + d * 60 * 1000)));
     ("duration", VNum d);
     ("summary_text", VStr (summaryInput h2))] in
  saveLog (h2, e2) = Some (resetToStartState (appendLogToFile entry (h2, e2))) ∧
  newDate (getProp "start_time" entry) = Some (clock e) ∧
  newDate (getProp "end_time" entry) = Some (clock e + d * 60 * 1000)%Z.
Proof.
  intros Hnow Hstart Hsame Hpos entry.
  destruct (startTimer_store _ _ _ _ Hstart) as [Hvalid He1].
  set (endTime := (clock e + d * 60 * 1000)%Z) in *.
  assert (∀ k v, (k, v) ∈ startItems endTime d (randomUUID (uuidsDrawn e)) →
            k ∈ saveKeys → storage e2 !! k = Some v) as Hw.
  { intros k v Hin Hk. rewrite (Hsame k Hk), He1, storageSet_storage.
    by apply setItems_written; [apply startItems_NoDup|]. }
  assert (storage e2 !! STORAGE_KEYS.END_TIME = Some (VStr (Date_toISOString endTime)))
    as Hend.
  { apply Hw; [|decide_in]. unfold startItems.
    apply list_elem_of_further, list_elem_of_here. }
  assert (storage e2 !! STORAGE_KEYS.DURATION = Some (VNum d)) as Hdur.
  { apply Hw; [|decide_in]. unfold startItems.
    do 2 apply list_elem_of_further. apply list_elem_of_here. }
  assert (storage e2 !! STORAGE_KEYS.SESSION_ID
          = Some (VStr (randomUUID (uuidsDrawn e)))) as Hsid.
  { apply Hw; [|decide_in]. unfold startItems.
    do 3 apply list_elem_of_further. apply list_elem_of_here. }
  assert ((endTime - d * 60 * 1000)%Z = clock e) as Hback by (unfold endTime; lia).
  split; [|split].
  - rewrite (saveLog_unfold h2 e2 endTime d); try done.
    + by rewrite Hback, Hsid, Hdur.
    + rewrite Hend. by apply Date_parse_toISOString.
    + by rewrite Hdur.
    + by rewrite Hback.
  - by apply Date_parse_toISOString.
  - by apply Date_parse_toISOString.
Qed.

(** *** The log and the summary on other pages *)

Lemma phaseChange_start old h e :
  storage e !! STORAGE_KEYS.TIMER_STATE = Some (VStr TIMER_STATE.START) →
  handleStorageChange
    (changeOf STORAGE_KEYS.TIMER_STATE old (Some (VStr TIMER_STATE.START)))
    "local" (h, e)
  = (loadLogs (set_sections (shown true false false) (cleared h), e), e).
Proof.
  intros Hst. unfold handleStorageChange, changeOf.
  change (negb (String.eqb "local" "local")) with false. cbv iota.
  rewrite lookup_singleton_eq, !lookup_singleton_ne by done.
  rewrite updateUI_unfold, (updateUI_with_START _ _ _ Hst). done.
Qed.

Lemma noteChange_only old text h e :
  handleStorageChange
    (changeOf STORAGE_KEYS.CURRENT_NOTE old (Some (VStr text))) "local" (h, e)
  = (if bool_decide (noteInput h = text) then h else set_noteInput text h, e).
Proof.
  unfold handleStorageChange, changeOf.
  change (negb (String.eqb "local" "local")) with false. cbv iota.
  rewrite lookup_singleton_eq, !lookup_singleton_ne by done.
  cbn [newValue]. rewrite orEmpty_text. change (toString (VStr text)) with text.
  destruct (decide (noteInput h = text)) as [Heq|Hne].
  - rewrite (bool_decide_eq_true_2 (noteInput h = text)) by done.
    by rewrite bool_decide_eq_true_2 by by rewrite Heq.
  - rewrite (bool_decide_eq_false_2 (noteInput h = text)) by done.
    by rewrite bool_decide_eq_false_2 by by intros [= ?].
Qed.

(** X28: a saved session shows up on the other pages, a saved note does not.
    The reset that ends [saveLog] writes the phase START, and a page that
    is notified of this phase shows the start section and reads the log
    again, so it lists the entries of the file, the new one among them,
    the most recent first (their [end_time]s being dates).
    [saveNote] changes only the stored note, and a page that is notified
    of that change takes over the text of the note and lists what it
    listed before. *)
Theorem log_refresh_follows_phase `{!PlatformLaws P} (hB : Home) (e : Env)
    (entries : list object) (old : option value) (text : string) :
  bound hB e → entries ≠ [] →
  file e = Some (joinWith LF (JSON_stringify <$> entries)) →
  Forall wfObject entries →
  Forall dated entries →
  storage e !! STORAGE_KEYS.TIMER_STATE = Some (VStr TIMER_STATE.START) →
  let onPhase :=
    handleStorageChange
      (changeOf STORAGE_KEYS.TIMER_STATE old (Some (VStr TIMER_STATE.START)))
      "local" (hB, e) in
  let onNote :=
    handleStorageChange
      (changeOf STORAGE_KEYS.CURRENT_NOTE old (Some (VStr text))) "local" (hB, e) in
  pomoLog onPhase.1 = LogEntries (sort byEndTimeDesc entries) ∧
  StronglySorted (λ a b, (endMs b <= endMs a)%Z) (sort byEndTimeDesc entries) ∧
  sections onPhase.1 = shown true false false ∧
  errorHidden (errorBox onPhase.1) = true ∧ onPhase.2 = e ∧
  pomoLog onNote.1 = pomoLog hB ∧ noteInput onNote.1 = text ∧ onNote.2 = e.
Proof.
  intros Hb Hne Hf Hwf Hdated Hst onPhase onNote.
  assert (onPhase = (loadLogs (set_sections (shown true false false) (cleared hB), e), e))
    as -> by by apply phaseChange_start.
  assert (onNote = (if bool_decide (noteInput hB = text) then hB
                    else set_noteInput text hB, e)) as -> by apply noteChange_only.
  cbn [fst snd].
  rewrite (loadLogs_lists _ e entries) by (done || by apply (bound_same hB _ e)).
  split; [done|]. split; [by apply sort_dated|].
  split; [done|]. split; [done|]. split; [done|].
  case_bool_decide; done.
Qed.

(** X29: a reset does not stop the countdown of a page.  When a page that is
    counting down is notified that the phase is START again (the state was
    reset from elsewhere), it shows the start section but keeps its
    interval; the tick of that interval which later finds no time left
    writes the phase END as if the session had run on. *)
Theorem countdown_survives_reset (id : nat) (endTime later : Z) (h : Home)
    (e : Env) (old : option value) :
  intervals h !! id = Some endTime →
  storage e !! STORAGE_KEYS.TIMER_STATE = Some (VStr TIMER_STATE.START) →
  (endTime - later <= 0)%Z →
  let s1 := handleStorageChange
              (changeOf STORAGE_KEYS.TIMER_STATE old (Some (VStr TIMER_STATE.START)))
              "local" (h, e) in
  let s2 := tick id (s1.1, set_clock later s1.2) in
  sections s1.1 = shown true false false ∧
  intervals s1.1 = intervals h ∧ countdownInterval s1.1 = countdownInterval h ∧
  s1.2 = e ∧
  storage s2.2 !! STORAGE_KEYS.TIMER_STATE = Some (VStr TIMER_STATE.END) ∧
  messages s2.2 = messages e ++ ["timerFinished"].
Proof.
  intros Hid Hst Hle s1 s2.
  assert (s1 = (loadLogs (set_sections (shown true false false) (cleared h), e), e))
    as Hs1 by by apply phaseChange_start.
  destruct (loadLogs_fields (set_sections (shown true false false) (cleared h), e))
    as (Hsec & _ & _ & _ & Hint & Hc & _).
  cbn [fst] in Hsec, Hint, Hc.
  assert (intervals s1.1 = intervals h) as Hint' by by rewrite Hs1.
  assert (s1.2 = e) as He by by rewrite Hs1.
  split; [by rewrite Hs1|]. split; [done|]. split; [by rewrite Hs1|].
  split; [done|].
  unfold s2. rewrite (tick_expired id endTime) by (by rewrite ?Hint').
  cbn [snd]. rewrite sendMessage_storage, sendMessage_messages, He.
  split; [|done]. unfold endItems. rewrite endItems_storage. apply lookup_insert_eq.
Qed.

Lemma textOr_text text : textOr (Some (VStr text)) = text.
Proof. by destruct text. Qed.

(** X30: the draft of a summary outlives the page it was typed on: once the
    debounced write has run, a page that is opened in the END phase shows
    the end and summary sections with the draft in the summary field, and
    the submit control is enabled exactly when the draft has 50 tokens. *)
Theorem summary_draft_survives_reload (text : string) (hA hB : Home) (e : Env) :
  storage e !! STORAGE_KEYS.TIMER_STATE = Some (VStr TIMER_STATE.END) →
  let sA := flushSummarySync (summaryInputEvent text hA, e) in
  let sB := initializeView (hB, sA.2) in
  storage sA.2 !! STORAGE_KEYS.CURRENT_SUMMARY = Some (VStr text) ∧
  summaryInput sB.1 = text ∧
  (submitLogDisabled sB.1 = false ↔ 50 ≤ countTokens text) ∧
  sections sB.1 = shown false false true ∧
  storage sB.2 = storage sA.2.
Proof.
  intros Hend sA sB.
  destruct (summaryInputEvent_fields text hA) as (Hin & Hsync & _).
  assert (sA = (set_summarySync None (summaryInputEvent text hA),
                storageSet [(STORAGE_KEYS.CURRENT_SUMMARY, VStr text)] e)) as HsA
    by (unfold sA, flushSummarySync; by rewrite Hsync).
  assert (storage sA.2 = <[STORAGE_KEYS.CURRENT_SUMMARY := VStr text]> (storage e))
    as Hst by by rewrite HsA.
  assert (storage sA.2 !! STORAGE_KEYS.TIMER_STATE = Some (VStr TIMER_STATE.END))
    as Hend' by by rewrite Hst, lookup_insert_ne.
  assert (storage sA.2 !! STORAGE_KEYS.CURRENT_SUMMARY = Some (VStr text))
    as Hsum by by rewrite Hst, lookup_insert_eq.
  split; [exact Hsum|].
  unfold sB, initializeView.
  rewrite updateUI_unfold, (updateUI_with_END _ _ _ Hend'), Hsum, textOr_text.
  cbn [fst snd].
  match goal with |- context [loadLogs ?s] =>
    destruct (loadLogs_fields s) as (Hs & Hi & Hd & _) end.
  rewrite Hs, Hi, Hd. cbn [fst].
  match goal with |- context [validateSummary ?x] =>
    destruct (validateSummary_fields x) as (Hi' & _ & Hd' & _ & _ & _ & Hs' & _) end.
  rewrite Hi', Hd', Hs'.
  split; [done|]. split; [|done].
  change (negb (MIN_SUMMARY_WORDS <=? wordCount text) = false ↔ 50 ≤ countTokens text).
  rewrite wordCount_tokens, negb_false_iff. apply Nat.leb_le.
Qed.

End WithPlatform.

End JournalFacts.

(* ===================================================================== *)
(** ** Further runs on the reference platform *)
(* ===================================================================== *)

Module Scenarios.
Import Js Matcher Store Model Terms Reference Guard OptionsPage Startup Notions Scenes.
Import MatcherFacts StoreFacts ModelFacts SummaryFacts LogFacts BackgroundFacts Runs.
Import PatternFacts GuardFacts OptionsFacts PageFacts JournalFacts.

(** ** Patterns *)

Lemma exclusions_as_set_witness :
  isUrlBlockable extensionId newsUrl ["*.org/*"; "*example.com*"]
  = isUrlBlockable extensionId newsUrl ["*example.com*"; "*.org/*"; "*example.com*"].
Proof.
  destruct (exclusions_as_set extensionId newsUrl
              ["*.org/*"; "*example.com*"]
              ["*example.com*"; "*.org/*"; "*example.com*"]) as [_ Hsame].
  - intros p Hp. rewrite !elem_of_cons in Hp. rewrite !elem_of_cons. tauto.
  - apply Hsame. intros p Hp. rewrite !elem_of_cons in Hp. rewrite !elem_of_cons. tauto.
Defined.

Lemma literal_patterns_witness :
  isUrlBlockable extensionId "http://example.com"
    ["example.com"; "HTTP://Example.COM"] = Some false ∧
  isUrlBlockable extensionId "http://example.com/" ["http://example.com"] = Some true.
Proof.
  split.
  - rewrite (literal_patterns extensionId "http://example.com"
               ["example.com"; "HTTP://Example.COM"]).
    + reflexivity.
    + reflexivity.
    + repeat constructor.
  - rewrite (literal_patterns extensionId "http://example.com/" ["http://example.com"]).
    + reflexivity.
    + reflexivity.
    + repeat constructor.
Defined.

Lemma pattern_without_scheme_witness :
  isUrlBlockable extensionId "http://example.com" ["example.com"] = Some true.
Proof.
  rewrite (pattern_without_scheme extensionId "http://example.com" "example.com" []).
  - reflexivity.
  - reflexivity.
Defined.

Lemma patterns_ignore_case_witness :
  isUrlBlockable extensionId shopUrl ["*Example.COM*"]
  = isUrlBlockable extensionId shopUrl ["*example.com*"].
Proof.
  apply (patterns_ignore_case extensionId shopUrl ["*Example.COM*"] ["*example.com*"]).
  reflexivity.
Defined.

(** ** The tab guard *)

Lemma guard_outside_session_witness :
  handleTabUpdate extensionId 1 (Some "complete") (Some newsUrl)
    (browser endedStore noon None) twoTabs !! 1
  = Some (homeUrl extensionId).
Proof.
  destruct (guard_outside_session extensionId newsUrl 1
              (browser endedStore noon None) twoTabs ["*example.com*"])
    as (_ & _ & Hredirect & _).
  - intros Hrun. by vm_compute in Hrun.
  - reflexivity.
  - destruct Hredirect as [_ Hhome].
    + reflexivity.
    + apply checkExclusions_true. reflexivity.
    + apply Hhome. by eexists.
Defined.

Lemma guard_fault_leaves_tab_witness :
  handleTabUpdate extensionId 1 (Some "complete") (Some newsUrl)
    (browser oddStore noon None) twoTabs = twoTabs.
Proof.
  apply (guard_fault_leaves_tab extensionId 1 (Some "complete") (Some newsUrl)
           (browser oddStore noon None) twoTabs 7).
  - reflexivity.
  - lia.
Defined.

Lemma session_lifts_guard_witness :
  ∃ s', startTimer 25 (page, browser ∅ noon None) = Some s' ∧
        handleTabUpdate extensionId 1 (Some "complete") (Some newsUrl) s'.2 twoTabs
        = twoTabs.
Proof.
  destruct (startTimer 25 (page, browser ∅ noon None)) as [s'|] eqn:Hstart;
    [|by vm_compute in Hstart].
  exists s'. split; [reflexivity|].
  by destruct (session_lifts_guard 25 page (browser ∅ noon None) s' extensionId 1 0
                 (Some "complete") (Some newsUrl) twoTabs 0 0 Hstart) as [Hkeep _].
Defined.

Lemma expiry_notifies_once_witness :
  notifications
    (dispatch (OnMessage "timerFinished")
       (tick 1 (ticking noon, browser runningStore (noon + 1) None)).2)
  = ["FocusFlow Session Complete!"].
Proof.
  destruct (expiry_notifies_once 1 noon (ticking noon)
              (browser runningStore (noon + 1) None)) as [Hexpired _].
  - reflexivity.
  - destruct Hexpired as (_ & _ & Hnote & _).
    + simpl. lia.
    + exact Hnote.
Defined.

(** ** The options page *)

Lemma options_page_invariant_witness :
  let s' := foldl handleEvent (optionsPage, browser ∅ noon None) editing in
  storage s'.2 !! "excludedUrls" = Some (VList ["*.org/*"]) ∧ optionsInv s'.
Proof.
  destruct (options_page_invariant (browser ∅ noon None) optionsPage optionsPage editing)
    as (_ & Hinv & _).
  - reflexivity.
  - constructor.
  - constructor.
  - split; [reflexivity|exact Hinv].
Defined.

Lemma listedPage_inv : optionsInv (listedPage, browser listedStore noon None).
Proof.
  split; [reflexivity|]. split; [decide_in|]. split; [|reflexivity].
  repeat constructor; by vm_compute.
Qed.

Lemma delete_removes_clicked_witness :
  let s' := handleDeleteWildcard 0 (listedPage, browser listedStore noon None) in
  ("*example.com*" ∉ excludedUrls s'.1) ∧
  storage s'.2 !! "excludedUrls" = Some (VList (excludedUrls s'.1)).
Proof.
  destruct (delete_removes_clicked listedPage (browser listedStore noon None)
              [(0, "*example.com*"); (1, "*.org/*")] 0 "*example.com*")
    as (Hgone & _ & _ & _ & Hstored & _).
  - exact listedPage_inv.
  - reflexivity.
  - left.
  - split; [exact Hgone|exact Hstored].
Defined.

Lemma add_ignores_blank_and_known_witness :
  handleAddWildcard
    (set_wildcardInput " *.org/*  " listedPage, browser listedStore noon None)
  = (set_wildcardInput " *.org/*  " listedPage, browser listedStore noon None).
Proof.
  apply (add_ignores_blank_and_known (set_wildcardInput " *.org/*  " listedPage)).
  right. decide_in.
Defined.

Lemma options_pages_do_not_sync_witness :
  let sA := handleAddWildcard
              (set_wildcardInput "*.net/*" listedPage, browser listedStore noon None) in
  let sB := handleAddWildcard (set_wildcardInput "*.edu/*" listedPage, sA.2) in
  storage sB.2 !! "excludedUrls"
  = Some (VList ["*example.com*"; "*.org/*"; "*.edu/*"]).
Proof.
  destruct (options_pages_do_not_sync listedPage listedPage
              (browser listedStore noon None) "*.net/*" "*.edu/*")
    as (_ & Hstored & _).
  - reflexivity.
  - by vm_compute.
  - decide_in.
  - by vm_compute.
  - decide_in.
  - exact Hstored.
Defined.

Lemma added_pattern_exempts_witness :
  handleTabUpdate extensionId 1 (Some "complete") (Some shopUrl)
    (handleAddWildcard
       (set_wildcardInput " *example.com* " optionsPage,
        browser plainStore noon None)).2 twoTabs
  = twoTabs.
Proof.
  destruct (added_pattern_exempts (set_wildcardInput " *example.com* " optionsPage)
              (browser plainStore noon None) extensionId shopUrl 1
              (Some "complete") twoTabs) as (_ & _ & _ & Hexempt).
  - by vm_compute.
  - decide_in.
  - apply Hexempt. left.
    destruct (proj1 (checkExclusions_false shopUrl ["*example.com*"]) eq_refl)
      as (p & Hp & Hmatch).
    apply list_elem_of_singleton in Hp. by rewrite Hp in Hmatch.
Defined.

(** ** The home page *)

Lemma summary_sync_settles_witness :
  let sA := flushSummarySync
              (summaryInputEvent shortSummary page, browser endedStore noon None) in
  let sB := handleStorageChange
              (changeOf STORAGE_KEYS.CURRENT_SUMMARY (Some (VStr EmptyString))
                 (Some (VStr shortSummary))) "local" (page, sA.2) in
  summaryInput sB.1 = shortSummary ∧
  storage (flushSummarySync sB).2 = storage sA.2.
Proof.
  destruct (summary_sync_settles shortSummary (Some (VStr EmptyString)) page page
              (browser endedStore noon None)) as (_ & Hshown & _ & _ & Hecho & _).
  - intros text Hpending. discriminate Hpending.
  - split; [exact Hshown|exact Hecho].
Defined.

Lemma tick_shows_time_left_witness :
  timerDisplay
    (tick 1 (ticking noon, browser runningStore (noon - 1499000) None)).1
  = "24:59".
Proof.
  destruct (tick_shows_time_left 1 noon (ticking noon)
              (browser runningStore (noon - 1499000) None)) as (_ & Hshown & _).
  - reflexivity.
  - simpl. lia.
  - rewrite Hshown. reflexivity.
Defined.

Lemma countdown_single_interval_witness :
  ∃ id,
    intervals
      (Nat.iter 3 (λ h, (updateUI (h, browser runningStore (noon - 1000) None)).1) page)
    = {[ id := noon ]}.
Proof.
  destruct (countdown_single_interval 2 noon page
              (browser runningStore (noon - 1000) None))
    as (id & Hone & _).
  - exact page_pageInv.
  - reflexivity.
  - reflexivity.
  - exists id. exact Hone.
Defined.

(** ** The session log *)

Lemma saveNote_appends_witness :
  let s' := saveNote (set_noteInput noteText boundPage,
                      browser endedStore noon (Some EmptyString)) in
  pomoLog s'.1 = LogEntries [noteEntry "0" (printZ noon) noteText] ∧
  noteInput s'.1 = EmptyString.
Proof.
  destruct (saveNote_appends (set_noteInput noteText boundPage)
              (browser endedStore noon (Some EmptyString)) []) as [_ Hsaved].
  - by repeat split.
  - reflexivity.
  - constructor.
  - constructor.
  - unfold validTime, maxTime, noon. simpl. lia.
  - destruct Hsaved as (_ & _ & Hfield & _ & _ & _ & _ & Hlog & _).
    + vm_compute. lia.
    + split; [exact Hlog|exact Hfield].
Defined.

Lemma dismissed_picker_drops_entry_witness :
  let s' := saveNote (set_noteInput noteText page, dismissing endedStore) in
  file s'.2 = None ∧ fileWrites s'.2 = [] ∧ noteInput s'.1 = EmptyString.
Proof.
  destruct (dismissed_picker_drops_entry (set_noteInput noteText page)
              (dismissing endedStore)) as [Hnote _].
  - reflexivity.
  - reflexivity.
  - destruct Hnote as (Hfile & Hwrites & Hfield & _).
    + vm_compute. lia.
    + split; [exact Hfile|]. split; [exact Hwrites|exact Hfield].
Defined.

Lemma first_save_binds_file_witness :
  let sA := appendLogToFile firstEntry (page, firstUse endedStore) in
  let sB := initializeView (page, sA.2) in
  savedHandle sA.2 = Some LogFile ∧ pomoLog sB.1 = LogEntries [firstEntry].
Proof.
  destruct (first_save_binds_file page page (firstUse endedStore) EmptyString firstEntry)
    as (_ & Hsaved & _ & _ & _ & _ & Hlisted).
  - reflexivity.
  - reflexivity.
  - destruct Hlisted as [Hlog _].
    + reflexivity.
    + decide_in.
    + split; [exact Hsaved|exact Hlog].
Defined.

Lemma refused_permission_unbinds_witness :
  let s' := appendLogToFile firstEntry (boundPage, readOnly endedStore) in
  fileHandle s'.1 = None ∧ savedHandle s'.2 = None ∧ fileWrites s'.2 = [].
Proof.
  destruct (refused_permission_unbinds boundPage page (readOnly endedStore) firstEntry)
    as (Hpage & Hsaved & _ & Hwrites & _).
  - reflexivity.
  - by left.
  - split; [exact Hpage|]. split; [exact Hsaved|exact Hwrites].
Defined.

Lemma append_keeps_content_witness :
  ∃ more,
    file (appendLogToFile firstEntry
            (boundPage, browser endedStore noon (Some twoLines))).2
    = Some (twoLines +:+ more).
Proof.
  destruct (append_keeps_content boundPage
              (browser endedStore noon (Some twoLines)) firstEntry)
    as (_ & Hprefix & _).
  - reflexivity.
  - apply Hprefix. reflexivity.
Defined.


Lemma edit_keeps_order_witness :
  pomoLog
    (loadLogs (updateLogEntry "s2" "revised"
                 (boundPage, browser endedStore noon (Some twoLines))))
  = LogEntries [setProp "summary_text" (VStr "revised") secondEntry; firstEntry].
Proof.
  destruct (edit_keeps_order "s2" "revised" boundPage
              (browser endedStore noon (Some twoLines))
              [firstEntry; secondEntry] 1 secondEntry) as (_ & Hafter & _).
  - by repeat split.
  - reflexivity.
  - decide_in.
  - repeat constructor; by eexists; vm_compute.
  - reflexivity.
  - reflexivity.
  - intros j other Hj Hother. destruct j as [|j]; [|lia].
    injection Hother as <-. discriminate.
  - rewrite Hafter. reflexivity.
Defined.

Lemma session_entry_round_trip_witness :
  ∃ s1, startTimer 25 (page, browser ∅ noon None) = Some s1 ∧
    saveLog (set_summaryInput shortSummary s1.1, s1.2)
    = Some (resetToStartState
              (appendLogToFile
                 [("type", VStr "session"); ("sessionId", VStr "0");
                  ("start_time", VStr (printZ noon));
                  ("end_time", VStr (printZ (noon + 1500000)));
                  ("duration", VNum 25);
                  ("summary_text", VStr shortSummary)]
                 (set_summaryInput shortSummary s1.1, s1.2))).
Proof.
  destruct (startTimer 25 (page, browser ∅ noon None)) as [s1|] eqn:Hstart;
    [|by vm_compute in Hstart].
  exists s1. split; [reflexivity|].
  destruct (session_entry_round_trip 25 page (set_summaryInput shortSummary s1.1)
              (browser ∅ noon None) s1.2 s1) as (Hsaved & _).
  - unfold validTime, maxTime, noon. simpl. lia.
  - exact Hstart.
  - reflexivity.
  - vm_compute. lia.
  - exact Hsaved.
Defined.

Lemma log_refresh_follows_phase_witness :
  pomoLog
    (handleStorageChange
       (changeOf STORAGE_KEYS.TIMER_STATE (Some (VStr TIMER_STATE.END))
          (Some (VStr TIMER_STATE.START))) "local"
       (boundPage, browser idleStore noon (Some twoLines))).1
  = LogEntries (sort byEndTimeDesc [firstEntry; secondEntry]).
Proof.
  destruct (log_refresh_follows_phase boundPage
              (browser idleStore noon (Some twoLines)) [firstEntry; secondEntry]
              (Some (VStr TIMER_STATE.END)) EmptyString) as (Hlisted & _).
  - by repeat split.
  - discriminate.
  - reflexivity.
  - decide_in.
  - repeat constructor; by eexists; vm_compute.
  - reflexivity.
  - exact Hlisted.
Defined.

Lemma countdown_survives_reset_witness :
  let s1 := handleStorageChange
              (changeOf STORAGE_KEYS.TIMER_STATE (Some (VStr TIMER_STATE.RUNNING))
                 (Some (VStr TIMER_STATE.START))) "local"
              (ticking noon, browser idleStore (noon - 5000) None) in
  storage (tick 1 (s1.1, set_clock (noon + 1) s1.2)).2 !! STORAGE_KEYS.TIMER_STATE
  = Some (VStr TIMER_STATE.END).
Proof.
  destruct (countdown_survives_reset 1 noon (noon + 1) (ticking noon)
              (browser idleStore (noon - 5000) None)
              (Some (VStr TIMER_STATE.RUNNING))) as (_ & _ & _ & _ & Hended & _).
  - reflexivity.
  - reflexivity.
  - lia.
  - exact Hended.
Defined.

Lemma summary_draft_survives_reload_witness :
  summaryInput
    (initializeView
       (page, (flushSummarySync (summaryInputEvent shortSummary page,
                                 browser endedStore noon None)).2)).1
  = shortSummary.
Proof.
  destruct (summary_draft_survives_reload shortSummary page page
              (browser endedStore noon None)) as (_ & Hdraft & _).
  - reflexivity.
  - exact Hdraft.
Defined.

End Scenarios.
